(** * unified-theme: the browser runtime, embedded and verified

    The repository ships two JavaScript classes, [UnifiedTheme]
    (utilities/theme-manager.js) and [AnimationUtils]
    (utilities/animations.js).  Both are glue around the DOM, the timer
    queue, [localStorage] and [window.dispatchEvent].  This development
    embeds that browser world as an explicit state and the methods as
    state transformers, then settles the properties of the specification.

    Conventions of the embedding
    - a DOM element is a row of a node table; its index is its identity
      (JS object reference).  Row 0 is [document.documentElement], row 1 is
      [document.body].  [createElement] allocates at the end of the table,
      detached.  Among rows that carry an [id], table order is document
      order.
    - [setTimeout] pushes a task on a queue with a due time on a virtual
      millisecond clock; closures are defunctionalised into [task].  The
      delay is kept as the host keeps it, a 32-bit integer.
    - a method that can throw returns an [option]; [None] is the
      exception.
    - inline styles hold what the CSS object model reads back, class
      lists are ordered sets of tokens.
    - user callbacks are opaque: invoking one is recorded in a log.
    - [animateCounter] computes in floating point ([Math.pow], division,
      [toLocaleString] of the host's locale) and is not embedded. *)

From Stdlib Require Import ZArith Lia Ascii String.
From stdpp Require Import base option list gmap strings pretty.

Local Open Scope string_scope.
Local Open Scope Z_scope.
Local Open Scope list_scope.
Local Open Scope stdpp_scope.

(* ===================================================================== *)
(** ** The DOM *)
(* ===================================================================== *)

Record node := Node {
  parentNode : option nat;
  attrs : gmap string string;
  classList : list string;
  style : gmap string string;
  textContent : string;
  scrollHeight : Z;          (* the layout height, taken as given *)
}.

Abbreviation dom := (list node).

Definition set_parent (p : option nat) (nd : node) : node :=
  {| parentNode := p; attrs := attrs nd; classList := classList nd;
     style := style nd; textContent := textContent nd;
     scrollHeight := scrollHeight nd |}.

(** [el.setAttribute(name, value)] *)
Definition setAttribute (name value : string) (nd : node) : node :=
  {| parentNode := parentNode nd; attrs := <[name := value]> (attrs nd);
     classList := classList nd; style := style nd;
     textContent := textContent nd; scrollHeight := scrollHeight nd |}.

Definition set_classes (f : list string → list string) (nd : node) : node :=
  {| parentNode := parentNode nd; attrs := attrs nd;
     classList := f (classList nd); style := style nd;
     textContent := textContent nd; scrollHeight := scrollHeight nd |}.

(** What the CSS object model keeps of an assigned value.  A length of
    zero written without a unit is kept with one: after
    [el.style.height = '0'] the declaration reads ["0px"].  The other
    values the source assigns are kept as they are written. *)
Definition length_property (prop : string) : bool :=
  existsb (String.eqb prop)
    ["height"; "width"; "min-height"; "max-height"; "min-width"; "max-width";
     "top"; "right"; "bottom"; "left"].

Definition css_text (prop value : string) : string :=
  if length_property prop && String.eqb value "0" then "0px" else value.

(** [el.style.prop = value] *)
Definition set_style (prop value : string) (nd : node) : node :=
  {| parentNode := parentNode nd; attrs := attrs nd;
     classList := classList nd;
     style := <[prop := css_text prop value]> (style nd);
     textContent := textContent nd; scrollHeight := scrollHeight nd |}.

(** The text of an element replaced, the element otherwise as it was. *)
Definition set_text (t : string) (nd : node) : node :=
  {| parentNode := parentNode nd; attrs := attrs nd;
     classList := classList nd; style := style nd;
     textContent := t; scrollHeight := scrollHeight nd |}.

(** [classList.contains / add / remove / toggle(token, force)] *)
Definition contains (c : string) (nd : node) : bool :=
  bool_decide (c ∈ classList nd).

Definition token_add (c : string) (l : list string) : list string :=
  if bool_decide (c ∈ l) then l else l ++ [c].

Definition token_remove (c : string) (l : list string) : list string :=
  filter (λ x, x ≠ c) l.

(** [classList.add(c)], [remove(c)] and [toggle(c, force)] for a token
    that [valid_token] accepts; the constant tokens of the source are. *)
Definition class_add (c : string) : node → node := set_classes (token_add c).
Definition class_remove (c : string) : node → node :=
  set_classes (token_remove c).
Definition class_toggle (c : string) (force : bool) : node → node :=
  if force then class_add c else class_remove c.

(** ASCII whitespace, on which the DOM splits a class attribute: tab,
    line feed, form feed, carriage return and space. *)
Definition ascii_whitespace (a : ascii) : bool :=
  (Ascii.eqb a "009" || Ascii.eqb a "010" || Ascii.eqb a "012"
   || Ascii.eqb a "013" || Ascii.eqb a " ")%char.

(** A class token a [DOMTokenList] accepts: not empty (else [SyntaxError])
    and without whitespace (else [InvalidCharacterError]). *)
Definition valid_token (c : string) : bool :=
  negb (String.eqb c "")
  && forallb (λ a, negb (ascii_whitespace a)) (list_ascii_of_string c).

(** The maximal runs without whitespace, in order. *)
Fixpoint tokens_go (cur : string) (s : string) : list string :=
  match s with
  | EmptyString => if String.eqb cur "" then [] else [cur]
  | String a s' =>
      if ascii_whitespace a
      then (if String.eqb cur "" then [] else [cur]) ++ tokens_go "" s'
      else tokens_go (cur +:+ String a "") s'
  end.

Definition tokens (s : string) : list string := tokens_go "" s.

(** The ordered set of a token list: the first occurrence of each. *)
Definition ordered_set (l : list string) : list string :=
  foldl (λ acc c, token_add c acc) [] l.

(** [el.className = s] *)
Definition set_className (s : string) : node → node :=
  set_classes (λ _, ordered_set (tokens s)).

(** A fresh element, as [document.createElement] returns it. *)
Definition blank : node :=
  {| parentNode := None; attrs := ∅; classList := []; style := ∅;
     textContent := ""; scrollHeight := 0 |}.

(** The selectors of the source are conjunctions of attribute-presence
    and class tests: ['[data-dropdown].open'], ['.alert'], ... *)
Record selector := Selector {
  sel_attrs : list string;
  sel_classes : list string;
}.

Definition has_attr (a : string) (nd : node) : bool :=
  bool_decide (is_Some (attrs nd !! a)).

Definition matches (sel : selector) (nd : node) : bool :=
  forallb (λ a, has_attr a nd) (sel_attrs sel)
  && forallb (λ c, contains c nd) (sel_classes sel).

Definition by_attr (a : string) : selector := Selector [a] [].
Definition by_class (c : string) : selector := Selector [] [c].

Definition documentElement : nat := 0%nat.
Definition body : nat := 1%nat.

(** The chain [n, n.parentNode, n.parentNode.parentNode, ...]. *)
Fixpoint ancestors_aux (fuel : nat) (d : dom) (n : nat) : list nat :=
  match fuel with
  | O => []
  | S f =>
      match d !! n with
      | None => []
      | Some nd =>
          n :: match parentNode nd with
               | Some p => ancestors_aux f d p
               | None => []
               end
      end
  end.

Definition ancestors (d : dom) (n : nat) : list nat :=
  ancestors_aux (length d) d n.

(** Does the chain from [n] end at a parentless node within the fuel? *)
Fixpoint rooted_aux (fuel : nat) (d : dom) (n : nat) : bool :=
  match fuel with
  | O => false
  | S f =>
      match d !! n with
      | None => false
      | Some nd =>
          match parentNode nd with
          | Some p => rooted_aux f d p
          | None => true
          end
      end
  end.

(** [el.isConnected]: the chain reaches the document element. *)
Definition connected (d : dom) (n : nat) : bool :=
  bool_decide (documentElement ∈ ancestors d n).

Definition node_matches (sel : selector) (d : dom) (n : nat) : bool :=
  match d !! n with Some nd => matches sel nd | None => false end.

(** [el.closest(sel)] *)
Definition closest (sel : selector) (d : dom) (n : nat) : option nat :=
  List.find (node_matches sel d) (ancestors d n).

(** [document.querySelectorAll(sel)] *)
Definition querySelectorAll (sel : selector) (d : dom) : list nat :=
  List.filter (λ i, connected d i && node_matches sel d i)
              (seq 0 (length d)).

(** [root.querySelectorAll(sel)]: proper descendants of [root]. *)
Definition descendant (d : dom) (root n : nat) : bool :=
  bool_decide (n ≠ root) && bool_decide (root ∈ ancestors d n).

Definition querySelectorAll_in (root : nat) (sel : selector) (d : dom)
  : list nat :=
  List.filter (λ i, descendant d root i && node_matches sel d i)
              (seq 0 (length d)).

Definition has_id (id : string) (d : dom) (n : nat) : bool :=
  match d !! n with
  | Some nd => bool_decide (attrs nd !! "id" = Some id)
  | None => false
  end.

(** [document.getElementById(id)]; the empty id never resolves. *)
Definition getElementById (id : string) (d : dom) : option nat :=
  if bool_decide (id = "") then None
  else List.find (λ i, connected d i && has_id id d i) (seq 0 (length d)).

(** [el.getAttribute(name)]; [None] is JS [null]. *)
Definition getAttribute (name : string) (d : dom) (n : nat) : option string :=
  d !! n ≫= λ nd, attrs nd !! name.

(** A [null] that reaches a string parameter is converted to ["null"]. *)
Definition to_DOMString (o : option string) : string := default "null" o.

(** [list.forEach(el => f(el))] over a static node list. *)
Definition forEach (ids : list nat) (f : node → node) (d : dom) : dom :=
  foldl (λ acc i, alter f i acc) d ids.

(** [parent.appendChild(child)] *)
Definition appendChild (parent child : nat) (d : dom) : dom :=
  alter (set_parent (Some parent)) child d.

(** [el.remove()] *)
Definition remove (n : nat) (d : dom) : dom :=
  alter (set_parent None) n d.

(** [el.textContent = t], and [el.innerHTML = t] for a [t] that is plain
    text: the children of [el] leave it and [t] becomes its text. *)
Definition detach_children (el : nat) (d : dom) : dom :=
  (λ nd, if bool_decide (parentNode nd = Some el)
         then set_parent None nd else nd) <$> d.

Definition set_textContent (el : nat) (t : string) (d : dom) : dom :=
  alter (set_text t) el (detach_children el d).

(** [document.body]: row 1 when it is a child of the document element,
    [null] otherwise. *)
Definition document_body (d : dom) : option nat :=
  match d !! body with
  | Some nd =>
      if bool_decide (parentNode nd = Some documentElement)
      then Some body else None
  | None => None
  end.

(** [document.createElement]: the new element and the extended table. *)
Definition createElement (d : dom) : nat * dom := (length d, d ++ [blank]).

(* ===================================================================== *)
(** ** The browser world and the instance state *)
(* ===================================================================== *)

(** User callbacks are opaque; they are identified by a number. *)
Definition callback := nat.

(** The closures handed to [setTimeout], defunctionalised. *)
Inductive task :=
  | AlertRemove (el : nat)                       (* dismissAlert *)
  | CollapseShown (el : nat)                     (* toggleCollapse, expand *)
  | CollapseHidden (el : nat)                    (* toggleCollapse, collapse *)
  | ClassExpire (el : nat) (c : string)          (* animateClass *)
  | NotifyExpire (el : nat)                      (* notify, auto dismiss *)
  | Invoke (cb : callback)                       (* setTimeout(callback, d) *)
  | FadeOutEnd (el : nat) (cb : option callback)
  | SlideDownEnd (el : nat) (cb : option callback)
  | SlideUpEnd (el : nat) (cb : option callback)
  | ScaleOutEnd (el : nat) (cb : option callback).

#[global] Instance task_eq_dec : EqDecision task.
Proof. solve_decision. Defined.

Record state := State {
  nodes : dom;                          (* the document *)
  currentTheme : string;                (* this.currentTheme *)
  localStorage : gmap string string;
  dispatched : list (string * string);  (* window.dispatchEvent: type, detail.theme *)
  timers : list (Z * task);             (* pending setTimeout: due time, task *)
  clock : Z;                            (* virtual time, ms *)
  console : list string;                (* console.warn *)
  invoked : list callback;              (* callbacks called so far *)
  animations : list (nat * string);     (* element.animate(...) started *)
  toggleButtons : list nat;             (* holders of the theme click listener *)
}.

Definition upd_nodes (f : dom → dom) (s : state) : state :=
  {| nodes := f (nodes s); currentTheme := currentTheme s;
     localStorage := localStorage s; dispatched := dispatched s;
     timers := timers s; clock := clock s; console := console s;
     invoked := invoked s; animations := animations s;
     toggleButtons := toggleButtons s |}.

Definition set_currentTheme (t : string) (s : state) : state :=
  {| nodes := nodes s; currentTheme := t;
     localStorage := localStorage s; dispatched := dispatched s;
     timers := timers s; clock := clock s; console := console s;
     invoked := invoked s; animations := animations s;
     toggleButtons := toggleButtons s |}.

(** [localStorage.setItem(key, value)] *)
Definition setItem (key value : string) (s : state) : state :=
  {| nodes := nodes s; currentTheme := currentTheme s;
     localStorage := <[key := value]> (localStorage s);
     dispatched := dispatched s;
     timers := timers s; clock := clock s; console := console s;
     invoked := invoked s; animations := animations s;
     toggleButtons := toggleButtons s |}.

(** [localStorage.getItem(key)] *)
Definition getItem (key : string) (s : state) : option string :=
  localStorage s !! key.

(** [window.dispatchEvent(new CustomEvent(type, { detail: { theme } }))] *)
Definition dispatchEvent (type theme : string) (s : state) : state :=
  {| nodes := nodes s; currentTheme := currentTheme s;
     localStorage := localStorage s;
     dispatched := dispatched s ++ [(type, theme)];
     timers := timers s; clock := clock s; console := console s;
     invoked := invoked s; animations := animations s;
     toggleButtons := toggleButtons s |}.

Definition set_timers (q : list (Z * task)) (s : state) : state :=
  {| nodes := nodes s; currentTheme := currentTheme s;
     localStorage := localStorage s; dispatched := dispatched s;
     timers := q; clock := clock s; console := console s;
     invoked := invoked s; animations := animations s;
     toggleButtons := toggleButtons s |}.

Definition set_clock (t : Z) (s : state) : state :=
  {| nodes := nodes s; currentTheme := currentTheme s;
     localStorage := localStorage s; dispatched := dispatched s;
     timers := timers s; clock := t; console := console s;
     invoked := invoked s; animations := animations s;
     toggleButtons := toggleButtons s |}.

(** [console.warn(msg)] *)
Definition warn (msg : string) (s : state) : state :=
  {| nodes := nodes s; currentTheme := currentTheme s;
     localStorage := localStorage s; dispatched := dispatched s;
     timers := timers s; clock := clock s; console := console s ++ [msg];
     invoked := invoked s; animations := animations s;
     toggleButtons := toggleButtons s |}.

(** [callback()] *)
Definition call (cb : callback) (s : state) : state :=
  {| nodes := nodes s; currentTheme := currentTheme s;
     localStorage := localStorage s; dispatched := dispatched s;
     timers := timers s; clock := clock s; console := console s;
     invoked := invoked s ++ [cb]; animations := animations s;
     toggleButtons := toggleButtons s |}.

(** [if (callback) callback()] *)
Definition call_if (cb : option callback) (s : state) : state :=
  match cb with Some c => call c s | None => s end.

(** [element.animate(keyframes, timing)] of the Web Animations API. *)
Definition web_animate (el : nat) (label : string) (s : state) : state :=
  {| nodes := nodes s; currentTheme := currentTheme s;
     localStorage := localStorage s; dispatched := dispatched s;
     timers := timers s; clock := clock s; console := console s;
     invoked := invoked s; animations := animations s ++ [(el, label)];
     toggleButtons := toggleButtons s |}.

Definition set_toggleButtons (l : list nat) (s : state) : state :=
  {| nodes := nodes s; currentTheme := currentTheme s;
     localStorage := localStorage s; dispatched := dispatched s;
     timers := timers s; clock := clock s; console := console s;
     invoked := invoked s; animations := animations s;
     toggleButtons := l |}.

(** The delay of a timer as the host keeps it.  [setTimeout] takes a Web
    IDL [long]: the number is reduced modulo 2^32 into the signed 32-bit
    range, and a negative result counts as zero.  A delay of 2^31 ms
    therefore fires at once. *)
Definition to_int32 (z : Z) : Z := (z + 2 ^ 31) mod 2 ^ 32 - 2 ^ 31.

Definition timeout_ms (delay : Z) : Z := Z.max 0 (to_int32 delay).

(** [setTimeout(task, delay)] *)
Definition setTimeout (tk : task) (delay : Z) (s : state) : state :=
  set_timers (timers s ++ [(clock s + timeout_ms delay, tk)]) s.

(** One element updated in place. *)
Definition on_node (n : nat) (f : node → node) : state → state :=
  upd_nodes (alter f n).

(** [el.style.prop = ''] drops the inline declaration. *)
Definition clear_style (prop : string) (nd : node) : node :=
  {| parentNode := parentNode nd; attrs := attrs nd;
     classList := classList nd; style := delete prop (style nd);
     textContent := textContent nd; scrollHeight := scrollHeight nd |}.

Definition px (z : Z) : string := pretty z +:+ "px".

(* ===================================================================== *)
(** ** class UnifiedTheme (utilities/theme-manager.js) *)
(* ===================================================================== *)

Record options := Options {
  enableDarkMode : bool;
  autoDetectPreference : bool;
  storageKey : string;
}.

(** The defaults of the constructor; [{...defaults, ...options}] yields an
    [options] record. *)
Definition default_options : options :=
  {| enableDarkMode := true; autoDetectPreference := true;
     storageKey := "unified-theme-mode" |}.

Definition setTheme (o : options) (theme : string) (s : state) : state :=
  let s := set_currentTheme theme s in
  let s := on_node documentElement (setAttribute "data-theme" theme) s in
  let s := on_node documentElement
             (class_toggle "dark" (bool_decide (theme = "dark"))) s in
  let s := setItem (storageKey o) theme s in
  dispatchEvent "themeChanged" theme s.

Definition toggleTheme (o : options) (s : state) : state :=
  let newTheme :=
    if bool_decide (currentTheme s = "light") then "dark" else "light" in
  setTheme o newTheme s.

Definition getTheme (s : state) : string := currentTheme s.

(** A JS string is truthy when it is not empty; [null] is falsy. *)
Definition truthy (o : option string) : bool :=
  match o with Some v => negb (bool_decide (v = "")) | None => false end.

(** [prefersDark] is [matchMedia('(prefers-color-scheme: dark)').matches]. *)
Definition initDarkMode (o : options) (prefersDark : bool) (s : state)
  : state :=
  let savedTheme := getItem (storageKey o) s in
  if truthy savedTheme then setTheme o (default "" savedTheme) s
  else if autoDetectPreference o
       then setTheme o (if prefersDark then "dark" else "light") s
       else s.

(** The ['change'] listener of the colour-scheme media query.
    [initDarkMode] registers it, so it exists only when [enableDarkMode]
    and [autoDetectPreference] are both set. *)
Definition on_scheme_change (o : options) (e_matches : bool) (s : state)
  : state :=
  if enableDarkMode o && autoDetectPreference o then
    if truthy (getItem (storageKey o) s) then s
    else setTheme o (if e_matches then "dark" else "light") s
  else s.

Definition sel_theme_toggle : selector := by_attr "data-theme-toggle".
Definition sel_alert_close : selector := by_class "alert-close".
Definition sel_alert : selector := by_class "alert".
Definition sel_collapse_toggle : selector := by_attr "data-collapse-toggle".
Definition sel_dropdown : selector := by_attr "data-dropdown".
Definition sel_open_dropdown : selector := Selector ["data-dropdown"] ["open"].
Definition sel_tab : selector := by_attr "data-tab".
Definition sel_tab_group : selector := by_attr "data-tab-group".
Definition sel_tab_panel : selector := by_attr "data-tab-panel".

(** [setupThemeToggle]: the buttons present now get a click listener. *)
Definition setupThemeToggle (s : state) : state :=
  set_toggleButtons (querySelectorAll sel_theme_toggle (nodes s)) s.

Definition dismissAlert (alert : nat) (s : state) : state :=
  let s := on_node alert (set_style "transition" "all 0.3s ease") s in
  let s := on_node alert (set_style "opacity" "0") s in
  let s := on_node alert (set_style "transform" "translateY(-10px)") s in
  setTimeout (AlertRemove alert) 300 s.

Definition scrollHeight_of (el : nat) (s : state) : Z :=
  from_option scrollHeight 0 (nodes s !! el).

Definition toggleCollapse (element : nat) (s : state) : state :=
  let isCollapsed :=
    match nodes s !! element with
    | Some nd => bool_decide (style nd !! "display" = Some "none")
                 || contains "collapsed" nd
    | None => false
    end in
  if isCollapsed then
    let s := on_node element (set_style "display" "block") s in
    let s := on_node element (class_remove "collapsed") s in
    let s := on_node element (class_add "collapsing") s in
    let s := on_node element
               (set_style "height" (px (scrollHeight_of element s))) s in
    setTimeout (CollapseShown element) 300 s
  else
    let s := on_node element
               (set_style "height" (px (scrollHeight_of element s))) s in
    let s := on_node element (class_add "collapsing") s in
    let s := on_node element (set_style "height" "0") s in
    setTimeout (CollapseHidden element) 300 s.

Definition closeAllDropdowns (s : state) : state :=
  let openDropdowns := querySelectorAll sel_open_dropdown (nodes s) in
  upd_nodes
    (forEach openDropdowns
       (λ dropdown,
          setAttribute "aria-expanded" "false" (class_remove "open" dropdown)))
    s.

Definition toggleDropdown (dropdown : nat) (s : state) : state :=
  let isOpen := from_option (contains "open") false (nodes s !! dropdown) in
  let s := closeAllDropdowns s in
  if isOpen then s
  else
    let s := on_node dropdown (class_add "open") s in
    on_node dropdown (setAttribute "aria-expanded" "true") s.

Definition switchTab (tab : nat) (s : state) : state :=
  let targetId := getAttribute "data-tab" (nodes s) tab in
  match closest sel_tab_group (nodes s) tab with
  | None => s
  | Some tabGroup =>
      let tabs := querySelectorAll_in tabGroup sel_tab (nodes s) in
      let s := upd_nodes
                 (forEach tabs
                    (λ t, setAttribute "aria-selected" "false"
                            (class_remove "active" t))) s in
      let s := on_node tab (class_add "active") s in
      let s := on_node tab (setAttribute "aria-selected" "true") s in
      let panels := querySelectorAll sel_tab_panel (nodes s) in
      let s := upd_nodes
                 (forEach panels
                    (λ panel, setAttribute "aria-hidden" "true"
                                (set_style "display" "none" panel))) s in
      match getElementById (to_DOMString targetId) (nodes s) with
      | Some targetPanel =>
          let s := on_node targetPanel (set_style "display" "block") s in
          on_node targetPanel (setAttribute "aria-hidden" "false") s
      | None => s
      end
  end.

(** [animateClass(element, className, duration = 300)].  [None] is the
    exception of [classList.add] on a token it does not accept. *)
Definition animateClass (element : nat) (className : string)
    (duration : option Z) (s : state) : option state :=
  if valid_token className then
    let s := on_node element (class_add className) s in
    Some (setTimeout (ClassExpire element className) (default 300 duration) s)
  else None.

(** [document.createElement(...)] on the world. *)
Definition create (s : state) : nat * state :=
  (length (nodes s), upd_nodes (λ d, snd (createElement d)) s).

(** Get or create the notification container.  [None] is the [TypeError]
    of [document.body.appendChild] when the page has no body. *)
Definition getNotificationContainer (position : string) (s : state)
  : option (nat * state) :=
  let containerId := "notifications-" +:+ position in
  match getElementById containerId (nodes s) with
  | Some container => Some (container, s)
  | None =>
      let '(container, s) := create s in
      let s := on_node container (setAttribute "id" containerId) s in
      let s := on_node container
                 (set_className ("notifications notifications-" +:+ position))
                 s in
      match document_body (nodes s) with
      | Some b => Some (container, upd_nodes (appendChild b container) s)
      | None => None
      end
  end.

(** The [options] argument of [notify]: every key is optional. *)
Record notify_options := NotifyOptions {
  opt_type : option string;
  opt_duration : option Z;
  opt_position : option string;
  opt_dismissible : option bool;
}.

Record notify_config := NotifyConfig {
  cfg_type : string;
  cfg_duration : Z;
  cfg_position : string;
  cfg_dismissible : bool;
}.

(** [{ ...defaults, ...options }] *)
Definition notify_merge (opts : notify_options) : notify_config :=
  {| cfg_type := default "info" (opt_type opts);
     cfg_duration := default 5000 (opt_duration opts);
     cfg_position := default "top-right" (opt_position opts);
     cfg_dismissible := default true (opt_dismissible opts) |}.

Definition no_options : notify_options := NotifyOptions None None None None.

(** The multiplication sign that ['&times;'] denotes, in UTF-8. *)
Definition times_sign : string :=
  String (Ascii.ascii_of_nat 195) (String (Ascii.ascii_of_nat 151) "").

(** [notify(message, options)].  [None] is an exception: that of
    [classList.add] when the position does not make a class token, or the
    one of [getNotificationContainer]. *)
Definition notify (message : string) (opts : notify_options) (s : state)
  : option (nat * state) :=
  let config := notify_merge opts in
  let '(notification, s) := create s in
  let s := on_node notification
             (set_className
                ("alert alert-" +:+ cfg_type config +:+ " notification")) s in
  let '(messageSpan, s) := create s in
  let s := upd_nodes (set_textContent messageSpan message) s in
  let s := upd_nodes (appendChild notification messageSpan) s in
  let s :=
    if cfg_dismissible config then
      let '(closeButton, s) := create s in
      let s := on_node closeButton (set_className "alert-close") s in
      let s := on_node closeButton (setAttribute "aria-label" "Close") s in
      let s := upd_nodes (set_textContent closeButton times_sign) s in
      upd_nodes (appendChild notification closeButton) s
    else s in
  let positionClass := "notification-" +:+ cfg_position config in
  if valid_token positionClass then
    let s := on_node notification (class_add positionClass) s in
    match getNotificationContainer (cfg_position config) s with
    | None => None
    | Some (container, s) =>
        let s := upd_nodes (appendChild container notification) s in
        let s :=
          if 0 <? cfg_duration config
          then setTimeout (NotifyExpire notification) (cfg_duration config) s
          else s in
        Some (notification, s)
    end
  else None.

(** *** The click listeners, in registration order *)

(** Listener of [setupThemeToggle], one per captured button: it runs for
    every such button on the event path. *)
Definition on_click_theme_toggle (o : options) (target : nat) (s : state)
  : state :=
  foldl (λ acc _, toggleTheme o acc) s
    (List.filter (λ a, bool_decide (a ∈ toggleButtons s))
                 (ancestors (nodes s) target)).

Definition on_click_alert (target : nat) (s : state) : state :=
  match closest sel_alert_close (nodes s) target with
  | Some _ =>
      match closest sel_alert (nodes s) target with
      | Some alert => dismissAlert alert s
      | None => s
      end
  | None => s
  end.

Definition on_click_collapse (target : nat) (s : state) : state :=
  match closest sel_collapse_toggle (nodes s) target with
  | Some toggle =>
      let targetId := getAttribute "data-collapse-toggle" (nodes s) toggle in
      match getElementById (to_DOMString targetId) (nodes s) with
      | Some tgt => toggleCollapse tgt s
      | None => s
      end
  | None => s
  end.

Definition on_click_dropdown (target : nat) (s : state) : state :=
  match closest sel_dropdown (nodes s) target with
  | Some dropdown => toggleDropdown dropdown s
  | None => closeAllDropdowns s
  end.

Definition on_click_tab (target : nat) (s : state) : state :=
  match closest sel_tab (nodes s) target with
  | Some tab => switchTab tab s
  | None => s
  end.

(** A click on [target]: the button listeners on the path, then the four
    document listeners, which the event reaches only from a connected
    target. *)
Definition click (o : options) (target : nat) (s : state) : state :=
  let s := on_click_theme_toggle o target s in
  if connected (nodes s) target then
    let s := on_click_alert target s in
    let s := on_click_collapse target s in
    let s := on_click_dropdown target s in
    on_click_tab target s
  else s.

(** *** The page as the bundle loads it

    Importing theme-manager.js constructs an instance
    ([window.unifiedTheme = new UnifiedTheme()]) and the entry script
    unified-theme.js constructs another
    ([const themeManager = new UnifiedTheme()]).  Each registers the four
    document listeners of [setupComponentInteractions], so a click on an
    element of the document runs the four of the first instance and then
    the four of the second. *)
Definition component_listeners (target : nat) (s : state) : state :=
  on_click_tab target
    (on_click_dropdown target
       (on_click_collapse target (on_click_alert target s))).

Definition document_click (target : nat) (s : state) : state :=
  if connected (nodes s) target
  then component_listeners target (component_listeners target s)
  else s.

Definition init (o : options) (prefersDark : bool) (s : state) : state :=
  let s := setupThemeToggle s in
  if enableDarkMode o then initDarkMode o prefersDark s else s.

(** [new UnifiedTheme(options)] *)
Definition new_UnifiedTheme (o : options) (prefersDark : bool) (s : state)
  : state :=
  init o prefersDark (set_currentTheme "light" s).

(* ===================================================================== *)
(** ** class AnimationUtils (utilities/animations.js) *)
(* ===================================================================== *)

Definition defaultDuration : Z := 300.
Definition defaultEasing : string := "ease-in-out".

Definition ms (d : Z) : string := pretty d +:+ "ms ".

Definition fadeIn (element : nat) (duration : Z) (cb : option callback)
    (s : state) : state :=
  let s := on_node element (set_style "opacity" "0") s in
  let s := on_node element (set_style "display" "block") s in
  let s := on_node element
             (set_style "transition"
                ("opacity " +:+ ms duration +:+ defaultEasing)) s in
  let s := on_node element (set_style "opacity" "1") s in
  match cb with
  | Some c => setTimeout (Invoke c) duration s
  | None => s
  end.

Definition fadeOut (element : nat) (duration : Z) (cb : option callback)
    (s : state) : state :=
  let s := on_node element (set_style "opacity" "1") s in
  let s := on_node element
             (set_style "transition"
                ("opacity " +:+ ms duration +:+ defaultEasing)) s in
  let s := on_node element (set_style "opacity" "0") s in
  setTimeout (FadeOutEnd element cb) duration s.

Definition slideDown (element : nat) (duration : Z) (cb : option callback)
    (s : state) : state :=
  let s := on_node element (set_style "height" "0") s in
  let s := on_node element (set_style "overflow" "hidden") s in
  let s := on_node element (set_style "display" "block") s in
  let s := on_node element
             (set_style "transition"
                ("height " +:+ ms duration +:+ defaultEasing)) s in
  let targetHeight := scrollHeight_of element s in
  let s := on_node element (set_style "height" (px targetHeight)) s in
  setTimeout (SlideDownEnd element cb) duration s.

Definition slideUp (element : nat) (duration : Z) (cb : option callback)
    (s : state) : state :=
  let s := on_node element
             (set_style "height" (px (scrollHeight_of element s))) s in
  let s := on_node element (set_style "overflow" "hidden") s in
  let s := on_node element
             (set_style "transition"
                ("height " +:+ ms duration +:+ defaultEasing)) s in
  let s := on_node element (set_style "height" "0") s in
  setTimeout (SlideUpEnd element cb) duration s.

Definition scale_transition (duration : Z) : string :=
  "transform " +:+ ms duration +:+ defaultEasing +:+ ", opacity "
  +:+ ms duration +:+ defaultEasing.

Definition scaleIn (element : nat) (duration : Z) (cb : option callback)
    (s : state) : state :=
  let s := on_node element (set_style "transform" "scale(0)") s in
  let s := on_node element (set_style "opacity" "0") s in
  let s := on_node element (set_style "display" "block") s in
  let s := on_node element
             (set_style "transition" (scale_transition duration)) s in
  let s := on_node element (set_style "transform" "scale(1)") s in
  let s := on_node element (set_style "opacity" "1") s in
  match cb with
  | Some c => setTimeout (Invoke c) duration s
  | None => s
  end.

Definition scaleOut (element : nat) (duration : Z) (cb : option callback)
    (s : state) : state :=
  let s := on_node element (set_style "transform" "scale(1)") s in
  let s := on_node element (set_style "opacity" "1") s in
  let s := on_node element
             (set_style "transition" (scale_transition duration)) s in
  let s := on_node element (set_style "transform" "scale(0)") s in
  let s := on_node element (set_style "opacity" "0") s in
  setTimeout (ScaleOutEnd element cb) duration s.

Definition bounce (element : nat) (s : state) : state :=
  web_animate element "bounce" s.

Definition shake (element : nat) (s : state) : state :=
  web_animate element "shake" s.

(** The double quote character. *)
Definition dquote : string := String (Ascii.ascii_of_nat 34) "".

(** The cases of the [switch] in [animate]. *)
Definition recognized : list string :=
  ["fadeIn"; "fadeOut"; "slideDown"; "slideUp"; "scaleIn"; "scaleOut";
   "bounce"; "shake"].

(** [animate(element, animation, duration = this.defaultDuration,
    callback = null)] *)
Definition animate (element : nat) (animation : string)
    (duration : option Z) (cb : option callback) (s : state) : state :=
  let duration := default defaultDuration duration in
  if bool_decide (animation = "fadeIn") then fadeIn element duration cb s
  else if bool_decide (animation = "fadeOut")
  then fadeOut element duration cb s
  else if bool_decide (animation = "slideDown")
  then slideDown element duration cb s
  else if bool_decide (animation = "slideUp")
  then slideUp element duration cb s
  else if bool_decide (animation = "scaleIn")
  then scaleIn element duration cb s
  else if bool_decide (animation = "scaleOut")
  then scaleOut element duration cb s
  else if bool_decide (animation = "bounce")
  then call_if cb (bounce element s)
  else if bool_decide (animation = "shake")
  then call_if cb (shake element s)
  else
    call_if cb
      (warn ("Animation " +:+ dquote +:+ animation +:+ dquote
             +:+ " not found") s).

(* ===================================================================== *)
(** ** The timer queue *)
(* ===================================================================== *)

Definition fire (tk : task) (s : state) : state :=
  match tk with
  | AlertRemove el => upd_nodes (remove el) s
  | CollapseShown el =>
      let s := on_node el (class_remove "collapsing") s in
      on_node el (clear_style "height") s
  | CollapseHidden el =>
      let s := on_node el (set_style "display" "none") s in
      let s := on_node el (class_remove "collapsing") s in
      let s := on_node el (class_add "collapsed") s in
      on_node el (clear_style "height") s
  | ClassExpire el c => on_node el (class_remove c) s
  | NotifyExpire el =>
      match nodes s !! el ≫= parentNode with
      | Some _ => dismissAlert el s
      | None => s
      end
  | Invoke cb => call cb s
  | FadeOutEnd el cb =>
      call_if cb (on_node el (set_style "display" "none") s)
  | SlideDownEnd el cb =>
      let s := on_node el (clear_style "height") s in
      call_if cb (on_node el (clear_style "overflow") s)
  | SlideUpEnd el cb =>
      let s := on_node el (set_style "display" "none") s in
      let s := on_node el (clear_style "height") s in
      call_if cb (on_node el (clear_style "overflow") s)
  | ScaleOutEnd el cb =>
      call_if cb (on_node el (set_style "display" "none") s)
  end.

(** The timer that fires next: the earliest due, the oldest among equals;
    with it, the queue without it. *)
Fixpoint pick (q : list (Z * task)) : option ((Z * task) * list (Z * task)) :=
  match q with
  | [] => None
  | x :: r =>
      match pick r with
      | Some (y, r') => if y.1 <? x.1 then Some (y, x :: r') else Some (x, r)
      | None => Some (x, [])
      end
  end.

(** Let time pass until [t], firing what falls due on the way. *)
Fixpoint run (fuel : nat) (t : Z) (s : state) : state :=
  match fuel with
  | O => s
  | S f =>
      match pick (timers s) with
      | Some ((due, tk), rest) =>
          if due <=? t
          then run f t (fire tk (set_clock (Z.max (clock s) due)
                                   (set_timers rest s)))
          else set_clock (Z.max (clock s) t) s
      | None => set_clock (Z.max (clock s) t) s
      end
  end.

(** A pending task fires at most this many tasks, itself included. *)
Definition weight (tk : task) : nat :=
  match tk with NotifyExpire _ => 2%nat | _ => 1%nat end.

Definition budget (q : list (Z * task)) : nat :=
  foldr (λ x acc, (weight x.2 + acc)%nat) 0%nat q.

Definition advance (t : Z) (s : state) : state :=
  run (S (budget (timers s))) t s.

(* ===================================================================== *)
(** ** Sample pages *)
(* ===================================================================== *)

Definition elem (p : option nat) (a : list (string * string))
    (c : list string) (st : list (string * string)) : node :=
  {| parentNode := p; attrs := list_to_map a; classList := c;
     style := list_to_map st; textContent := ""; scrollHeight := 0 |}.

Definition world (d : dom) : state :=
  {| nodes := d; currentTheme := "light"; localStorage := ∅;
     dispatched := []; timers := []; clock := 0; console := [];
     invoked := []; animations := []; toggleButtons := [] |}.

(** html, body and nothing else *)
Definition empty_page : dom := [elem None [] [] []; elem (Some 0%nat) [] [] []].

(* ===================================================================== *)
(** ** Vocabulary of the statements *)
(* ===================================================================== *)

(** Two tables with the same shape: the same rows exist and every row
    has the same parent. *)
Definition same_tree (d d' : dom) : Prop :=
  ∀ n, parentNode <$> d !! n = parentNode <$> d' !! n.

Definition keeps_parent (f : node → node) : Prop :=
  ∀ nd, parentNode (f nd) = parentNode nd.

(** The themes the runtime knows. *)
Definition known_theme (t : string) : Prop := t = "light" ∨ t = "dark".

Definition theme_event (t : string) : string * string := ("themeChanged", t).

(** What reaches one instance after its construction: calls of the two
    theme methods, clicks, a change of the system colour scheme, and the
    passing of time. *)
Inductive op :=
  | OpSetTheme (theme : string)
  | OpToggleTheme
  | OpClick (target : nat)
  | OpSchemeChange (e_matches : bool)
  | OpElapse (t : Z).

Definition step (o : options) (s : state) (a : op) : state :=
  match a with
  | OpSetTheme theme => setTheme o theme s
  | OpToggleTheme => toggleTheme o s
  | OpClick target => click o target s
  | OpSchemeChange m => on_scheme_change o m s
  | OpElapse t => advance t s
  end.

Definition session (o : options) (prefersDark : bool) (s0 : state)
    (ops : list op) : state :=
  foldl (step o) (new_UnifiedTheme o prefersDark s0) ops.



(** The part of the world that only [setTheme] writes. *)
Definition theme_view (s : state)
  : string * list (string * string) * gmap string string :=
  (currentTheme s, dispatched s, localStorage s).


(** The dropdowns of the document that are open. *)
Definition open_dropdowns (s : state) : list nat :=
  querySelectorAll sel_open_dropdown (nodes s).

(** The four element updates of [switchTab]. *)
Definition deactivate (t : node) : node :=
  setAttribute "aria-selected" "false" (class_remove "active" t).
Definition activate (t : node) : node :=
  setAttribute "aria-selected" "true" (class_add "active" t).
Definition hide_panel (p : node) : node :=
  setAttribute "aria-hidden" "true" (set_style "display" "none" p).
Definition show_panel (p : node) : node :=
  setAttribute "aria-hidden" "false" (set_style "display" "block" p).

Definition when (b : bool) (f : node → node) : node → node :=
  if b then f else id.

(** Two tab groups, each with one tab and its panel inside the group.
    Rows: 2 group one, 3 its tab, 4 its panel (hidden); 5 group two, 6 its
    tab (active), 7 its panel (shown). *)
Definition two_groups : dom :=
  [ elem None [] [] [];
    elem (Some 0%nat) [] [] [];
    elem (Some 1%nat) [("data-tab-group", "")] [] [];
    elem (Some 2%nat) [("data-tab", "p1")] [] [];
    elem (Some 2%nat) [("id", "p1"); ("data-tab-panel", "")] []
         [("display", "none")];
    elem (Some 1%nat) [("data-tab-group", "")] [] [];
    elem (Some 5%nat) [("data-tab", "p2"); ("aria-selected", "true")]
         ["active"] [];
    elem (Some 5%nat)
         [("id", "p2"); ("data-tab-panel", ""); ("aria-hidden", "false")] []
         [("display", "block")] ].

(** One tab group whose first tab names a panel that does not exist.
    Rows: 2 the group, 3 the tab with the unknown panel id, 4 a second tab
    (active), 5 the panel of the second tab (shown). *)
Definition dangling_tab : dom :=
  [ elem None [] [] [];
    elem (Some 0%nat) [] [] [];
    elem (Some 1%nat) [("data-tab-group", "")] [] [];
    elem (Some 2%nat) [("data-tab", "nowhere")] [] [];
    elem (Some 2%nat) [("data-tab", "p1"); ("aria-selected", "true")]
         ["active"] [];
    elem (Some 1%nat)
         [("id", "p1"); ("data-tab-panel", ""); ("aria-hidden", "false")] []
         [("display", "block")] ].

(** A collapse trigger (row 2) whose target id names no element, and a
    tab (row 3) outside any tab group. *)
Definition orphans : dom :=
  [ elem None [] [] [];
    elem (Some 0%nat) [] [] [];
    elem (Some 1%nat) [("data-collapse-toggle", "nowhere")] [] [];
    elem (Some 1%nat) [("data-tab", "p1")] [] [];
    elem (Some 1%nat) [("id", "p1"); ("data-tab-panel", "")] []
         [("display", "block")] ].

(** The text of the warning of [animate]. *)
Definition not_found (animation : string) : string :=
  "Animation " +:+ dquote +:+ animation +:+ dquote +:+ " not found".

(** Every chain of parents ends at a parentless row: the table is a
    forest. *)
Definition forest (d : dom) : bool :=
  forallb (rooted_aux (length d) d) (seq 0 (length d)).

(** A page: a forest with a [document.body]. *)
Definition page_ok (d : dom) : Prop :=
  forest d = true ∧ document_body d = Some body.

(** The id of the container of a position. *)
Definition container_id (position : string) : string :=
  "notifications-" +:+ position.

(** Rows appended to [d0], none of which carries an [id]. *)
Definition fresh_rows (d0 D : dom) : Prop :=
  d0 `prefix_of` D
  ∧ ∀ i nd, (length d0 ≤ i)%nat → D !! i = Some nd → attrs nd !! "id" = None.

(** [D] extends [d0] and row [c] is the container with id [id]: an old
    row that [getElementById] finds in [d0], or an appended row with that
    id under the body when [d0] has none; the other appended rows carry no
    [id]. *)
Definition holds_container (d0 : dom) (id : string) (c : nat) (D : dom)
  : Prop :=
  d0 `prefix_of` D
  ∧ (c < length D)%nat
  ∧ (∀ i nd, (length d0 ≤ i)%nat → i ≠ c → D !! i = Some nd →
             attrs nd !! "id" = None)
  ∧ ((c < length d0)%nat → getElementById id d0 = Some c)
  ∧ ((length d0 ≤ c)%nat →
     getElementById id d0 = None
     ∧ ∃ nd, D !! c = Some nd ∧ attrs nd !! "id" = Some id
             ∧ parentNode nd = Some body).

(** An element update that leaves the [id] alone. *)
Definition keeps_id (f : node → node) : Prop :=
  ∀ nd, attrs (f nd) !! "id" = attrs nd !! "id".

(** A property of tables that survives what [notify] does before it
    looks for its container: appending a blank row, and updating a row
    from [M] on without touching its [id]. *)
Definition stable_from (M : nat) (Q : dom → Prop) : Prop :=
  (∀ D, Q D → (M ≤ length D)%nat)
  ∧ (∀ D, Q D → Q (D ++ [blank]))
  ∧ (∀ D f i, Q D → (M ≤ i)%nat → keeps_id f → Q (alter f i D)).

(** No row names a parent outside the table. *)
Definition closed (d : dom) : Prop :=
  ∀ i nd p, d !! i = Some nd → parentNode nd = Some p → (p < length d)%nat.

(** No row of the table is a child of [el]. *)
Definition childless (el : nat) (d : dom) : Prop :=
  ∀ i nd, d !! i = Some nd → parentNode nd ≠ Some el.

(** The first half of [notify], computed with updates of single rows:
    the notification element with its message and close button, not yet
    in the document.  On a closed table [notify] agrees with it
    ([notify_unfold]), because a new element has no children for
    [textContent] to remove. *)
Definition notify_build (message : string) (config : notify_config)
    (s : state) : nat * state :=
  let '(notification, s) := create s in
  let s := on_node notification
             (set_className
                ("alert alert-" +:+ cfg_type config +:+ " notification")) s in
  let '(messageSpan, s) := create s in
  let s := on_node messageSpan (set_text message) s in
  let s := upd_nodes (appendChild notification messageSpan) s in
  let s :=
    if cfg_dismissible config then
      let '(closeButton, s) := create s in
      let s := on_node closeButton (set_className "alert-close") s in
      let s := on_node closeButton (setAttribute "aria-label" "Close") s in
      let s := on_node closeButton (set_text times_sign) s in
      upd_nodes (appendChild notification closeButton) s
    else s in
  (notification,
   on_node notification
     (class_add ("notification-" +:+ cfg_position config)) s).

(** The parent of a row, [None] when it has none or does not exist. *)
Definition parent_of (n : nat) (s : state) : option nat :=
  nodes s !! n ≫= parentNode.

(** The element a task works on. *)
Definition task_target (tk : task) : option nat :=
  match tk with
  | AlertRemove el | CollapseShown el | CollapseHidden el
  | ClassExpire el _ | NotifyExpire el
  | FadeOutEnd el _ | SlideDownEnd el _ | SlideUpEnd el _
  | ScaleOutEnd el _ => Some el
  | Invoke _ => None
  end.

(** The pending timers work on elements that exist. *)
Definition timers_fresh (s : state) : Prop :=
  ∀ due tk el, (due, tk) ∈ timers s → task_target tk = Some el →
               (el < length (nodes s))%nat.

(** What firing a task adds to the queue. *)
Definition spawned (tk : task) (s : state) : list (Z * task) :=
  match tk with
  | NotifyExpire el =>
      match parent_of el s with
      | Some _ => [(clock s + 300, AlertRemove el)]
      | None => []
      end
  | _ => []
  end.

(** What a task does to the element it works on, when it fires. *)
Definition task_effect (tk : task) : node → node :=
  match tk with
  | AlertRemove _ => set_parent None
  | CollapseShown _ =>
      λ nd, clear_style "height" (class_remove "collapsing" nd)
  | CollapseHidden _ =>
      λ nd, clear_style "height"
              (class_add "collapsed"
                 (class_remove "collapsing" (set_style "display" "none" nd)))
  | ClassExpire _ c => class_remove c
  | FadeOutEnd _ _ | ScaleOutEnd _ _ => set_style "display" "none"
  | SlideDownEnd _ _ =>
      λ nd, clear_style "overflow" (clear_style "height" nd)
  | SlideUpEnd _ _ =>
      λ nd, clear_style "overflow"
              (clear_style "height" (set_style "display" "none" nd))
  | NotifyExpire _ | Invoke _ => id
  end.

(** The callback a task calls when it fires. *)
Definition task_callback (tk : task) : option callback :=
  match tk with
  | Invoke c => Some c
  | FadeOutEnd _ cb | SlideDownEnd _ cb | SlideUpEnd _ cb
  | ScaleOutEnd _ cb => cb
  | _ => None
  end.

(** Does the pending timer work on [el]? *)
Definition targets (el : nat) (x : Z * task) : bool :=
  bool_decide (task_target x.2 = Some el).

(** No pending timer works on [el]. *)
Definition untimed (el : nat) (s : state) : Prop :=
  ∀ x, x ∈ timers s → targets el x = false.

(** The delays that the host keeps as they are. *)
Definition int32 (z : Z) : Prop := - 2 ^ 31 ≤ z < 2 ^ 31.

(** The test [toggleCollapse] makes on its element. *)
Definition isCollapsed (nd : node) : bool :=
  bool_decide (style nd !! "display" = Some "none") || contains "collapsed" nd.

(** The element during and after the two transitions of
    [toggleCollapse]. *)
Definition collapsing_row (nd : node) : node :=
  set_style "height" "0"
    (class_add "collapsing" (set_style "height" (px (scrollHeight nd)) nd)).

Definition expanding_row (nd : node) : node :=
  set_style "height" (px (scrollHeight nd))
    (class_add "collapsing"
       (class_remove "collapsed" (set_style "display" "block" nd))).




Definition op_nonempty (a : op) : Prop :=
  match a with OpSetTheme t => t ≠ "" | _ => True end.


(** The elements [notify] builds, as they are when it is done with them:
    the notification (not yet attached), its message and its close
    button. *)
Definition notification_el (config : notify_config) : node :=
  class_add ("notification-" +:+ cfg_position config)
    (set_className ("alert alert-" +:+ cfg_type config +:+ " notification")
       blank).

Definition message_el (notification : nat) (message : string) : node :=
  set_parent (Some notification) (set_text message blank).

Definition close_el (notification : nat) : node :=
  set_parent (Some notification)
    (set_text times_sign
       (setAttribute "aria-label" "Close" (set_className "alert-close" blank))).

Definition built (notification : nat) (message : string)
    (config : notify_config) : list node :=
  notification_el config :: message_el notification message
  :: (if cfg_dismissible config then [close_el notification] else []).

(** The theme after [k] calls of [toggleTheme], starting from [t]. *)
Definition toggled (k : nat) (t : string) : string :=
  match k with
  | O => t
  | S _ => if xorb (Nat.odd k) (bool_decide (t = "light"))
           then "light" else "dark"
  end.

(** The buttons on the path of a click that carry the toggle listener. *)
Definition toggle_path (target : nat) (s : state) : list nat :=
  List.filter (λ a, bool_decide (a ∈ toggleButtons s))
              (ancestors (nodes s) target).


(* ===================================================================== *)
(** ** Facts about the DOM primitives *)
(* ===================================================================== *)

(** A length in px is kept as it is assigned. *)
Lemma css_text_px prop z : css_text prop (px z) = px z.
Proof.
  unfold css_text. destruct (length_property prop); [|done]. simpl.
  destruct (String.eqb_spec (px z) "0") as [E|]; [|done].
  exfalso. unfold px in E.
  destruct (pretty z) as [|a [|b t]]; simpl in E; discriminate E.
Qed.

Lemma css_text_keep prop v :
  length_property prop && String.eqb v "0" = false → css_text prop v = v.
Proof. unfold css_text. by intros ->. Qed.

Ltac css_norm :=
  rewrite ?css_text_px;
  repeat change (css_text "height" "0") with "0px";
  rewrite ?css_text_keep by reflexivity.

Section dom_facts.
Implicit Types (d : dom) (f : node → node) (ids : list nat).

Lemma forEach_length ids f d : length (forEach ids f d) = length d.
Proof.
  revert d. induction ids as [|i ids IH]; intros d; [done|].
  unfold forEach in *. simpl. rewrite IH. apply length_alter.
Qed.

Lemma forEach_lookup_notin ids f d i :
  i ∉ ids → forEach ids f d !! i = d !! i.
Proof.
  revert d. induction ids as [|j ids IH]; intros d Hi; [done|].
  apply not_elem_of_cons in Hi as [Hij Hi].
  unfold forEach in *. simpl. rewrite IH by done.
  by apply list_lookup_alter_ne.
Qed.

Lemma forEach_lookup_in ids f d i :
  NoDup ids → i ∈ ids → forEach ids f d !! i = f <$> d !! i.
Proof.
  revert d. induction ids as [|j ids IH]; intros d Hnd Hi.
  - by apply elem_of_nil in Hi.
  - apply NoDup_cons in Hnd as [Hj Hnd].
    change (forEach (j :: ids) f d) with (forEach ids f (alter f j d)).
    destruct (decide (i = j)) as [->|Hij].
    + rewrite forEach_lookup_notin by done. apply list_lookup_alter_eq.
    + apply elem_of_cons in Hi as [?|Hi]; [done|].
      rewrite IH by done. by rewrite list_lookup_alter_ne.
Qed.

Lemma same_tree_refl d : same_tree d d.
Proof. done. Qed.

Lemma same_tree_sym d d' : same_tree d d' → same_tree d' d.
Proof. intros H n. by rewrite H. Qed.

Lemma same_tree_trans d1 d2 d3 :
  same_tree d1 d2 → same_tree d2 d3 → same_tree d1 d3.
Proof. intros H1 H2 n. by rewrite H1. Qed.

Lemma same_tree_length d d' : same_tree d d' → length d = length d'.
Proof.
  intros H. apply Nat.le_antisymm.
  - apply lookup_ge_None. specialize (H (length d')).
    rewrite (lookup_ge_None_2 d') in H by done.
    by destruct (d !! length d').
  - apply lookup_ge_None. specialize (H (length d)).
    rewrite (lookup_ge_None_2 d) in H by done.
    by destruct (d' !! length d).
Qed.

Lemma same_tree_alter f i d : keeps_parent f → same_tree (alter f i d) d.
Proof.
  intros Hf n. destruct (decide (i = n)) as [->|Hne].
  - rewrite list_lookup_alter_eq. destruct (d !! n); simpl; [|done].
    by rewrite Hf.
  - by rewrite list_lookup_alter_ne.
Qed.

Lemma same_tree_forEach ids f d :
  keeps_parent f → same_tree (forEach ids f d) d.
Proof.
  intros Hf. revert d. induction ids as [|i ids IH]; intros d; [done|].
  change (forEach (i :: ids) f d) with (forEach ids f (alter f i d)).
  eapply same_tree_trans; [apply IH|]. by apply same_tree_alter.
Qed.

Lemma same_tree_ancestors_aux fuel d d' n :
  same_tree d d' → ancestors_aux fuel d n = ancestors_aux fuel d' n.
Proof.
  intros H. revert n. induction fuel as [|fuel IH]; intros n; [done|].
  simpl. specialize (H n).
  destruct (d !! n) as [nd|], (d' !! n) as [nd'|]; simplify_eq/=; [|done].
  rewrite H. destruct (parentNode nd'); [|done]. by rewrite IH.
Qed.

Lemma same_tree_ancestors d d' n :
  same_tree d d' → ancestors d n = ancestors d' n.
Proof.
  intros H. unfold ancestors. rewrite (same_tree_length _ _ H).
  by apply same_tree_ancestors_aux.
Qed.

Lemma same_tree_connected d d' n :
  same_tree d d' → connected d n = connected d' n.
Proof. intros H. unfold connected. by rewrite (same_tree_ancestors _ _ _ H). Qed.

Lemma same_tree_descendant d d' g n :
  same_tree d d' → descendant d g n = descendant d' g n.
Proof. intros H. unfold descendant. by rewrite (same_tree_ancestors _ _ _ H). Qed.

Lemma keeps_parent_setAttribute a v : keeps_parent (setAttribute a v).
Proof. done. Qed.
Lemma keeps_parent_set_classes g : keeps_parent (set_classes g).
Proof. done. Qed.
Lemma keeps_parent_set_style p v : keeps_parent (set_style p v).
Proof. done. Qed.
Lemma keeps_parent_clear_style p : keeps_parent (clear_style p).
Proof. done. Qed.
Lemma keeps_parent_set_text t : keeps_parent (set_text t).
Proof. done. Qed.
Lemma keeps_parent_compose f g :
  keeps_parent f → keeps_parent g → keeps_parent (λ nd, f (g nd)).
Proof. intros Hf Hg nd. by rewrite Hf. Qed.

(** Membership in the two node lists. *)
Lemma elem_of_querySelectorAll sel d i :
  i ∈ querySelectorAll sel d ↔
  connected d i = true ∧ node_matches sel d i = true.
Proof.
  unfold querySelectorAll. rewrite list_elem_of_In, filter_In, in_seq.
  rewrite andb_true_iff. split; [tauto|]. intros [Hc Hm]. split; [|done].
  unfold node_matches in Hm. destruct (d !! i) eqn:E; [|done].
  apply lookup_lt_Some in E. lia.
Qed.

Lemma elem_of_querySelectorAll_in g sel d i :
  i ∈ querySelectorAll_in g sel d ↔
  descendant d g i = true ∧ node_matches sel d i = true.
Proof.
  unfold querySelectorAll_in. rewrite list_elem_of_In, filter_In, in_seq.
  rewrite andb_true_iff. split; [tauto|]. intros [Hc Hm]. split; [|done].
  unfold node_matches in Hm. destruct (d !! i) eqn:E; [|done].
  apply lookup_lt_Some in E. lia.
Qed.

Lemma NoDup_querySelectorAll sel d : NoDup (querySelectorAll sel d).
Proof. apply NoDup_ListNoDup, List.NoDup_filter, seq_NoDup. Qed.

Lemma NoDup_querySelectorAll_in g sel d :
  NoDup (querySelectorAll_in g sel d).
Proof. apply NoDup_ListNoDup, List.NoDup_filter, seq_NoDup. Qed.

(** A filter over the row numbers that at most [k] passes. *)
Lemma filter_seq_at_most_one (P : nat → bool) k n :
  (∀ i, P i = true → i = k) → (length (List.filter P (seq 0 n)) ≤ 1)%nat.
Proof.
  intros HP.
  assert (Hnd : NoDup (List.filter P (seq 0 n)))
    by apply NoDup_ListNoDup, List.NoDup_filter, seq_NoDup.
  assert (Hall : ∀ x, In x (List.filter P (seq 0 n)) → x = k).
  { intros x Hx. apply filter_In in Hx as [_ Hx]. by apply HP. }
  destruct (List.filter P (seq 0 n)) as [|a [|b l]]; simpl; [lia..|].
  exfalso. apply NoDup_cons in Hnd as [Ha _]. apply Ha.
  rewrite (Hall a), (Hall b); simpl; auto. left.
Qed.

Lemma filter_seq_none (P : nat → bool) n :
  (∀ i, P i = false) → List.filter P (seq 0 n) = [].
Proof.
  intros HP. generalize 0%nat. induction n as [|n IH]; intros a; [done|].
  simpl. rewrite HP. apply IH.
Qed.

Lemma filter_seq_single (P : nat → bool) k n :
  (k < n)%nat → P k = true → (∀ i, P i = true → i = k) →
  List.filter P (seq 0 n) = [k].
Proof.
  intros Hk Hpk HP.
  replace n with (k + S (n - S k))%nat by lia.
  rewrite seq_app, List.filter_app. simpl. rewrite Hpk.
  assert (H1 : ∀ l, (∀ x, In x l → x ≠ k) → List.filter P l = []).
  { induction l as [|x l IH]; intros Hl; [done|]. simpl.
    destruct (P x) eqn:E.
    - apply HP in E. exfalso. apply (Hl x); simpl; auto.
    - apply IH. intros y Hy. apply Hl. by right. }
  rewrite !H1; [done|..].
  - intros x Hx. apply in_seq in Hx. lia.
  - intros x Hx. apply in_seq in Hx. lia.
Qed.

End dom_facts.

(* ===================================================================== *)
(** ** The theme state *)
(* ===================================================================== *)

Section theme.
Context (o : options).

Lemma setTheme_getTheme theme s : getTheme (setTheme o theme s) = theme.
Proof. done. Qed.


Lemma setTheme_storage theme s :
  getItem (storageKey o) (setTheme o theme s) = Some theme.
Proof. unfold getItem, setTheme. simpl. apply lookup_insert_eq. Qed.

Lemma setTheme_root theme s root :
  nodes s !! documentElement = Some root →
  nodes (setTheme o theme s) !! documentElement
  = Some (class_toggle "dark" (bool_decide (theme = "dark"))
            (setAttribute "data-theme" theme root)).
Proof.
  intros H. unfold setTheme, on_node. simpl.
  rewrite !list_lookup_alter_eq, H. done.
Qed.

Lemma class_remove_absent c nd : contains c (class_remove c nd) = false.
Proof.
  unfold contains, class_remove, token_remove. simpl.
  apply bool_decide_eq_false. intros H.
  apply list_elem_of_filter in H as [H _]. by apply H.
Qed.

Lemma class_add_present c nd : contains c (class_add c nd) = true.
Proof.
  unfold contains, class_add, token_add. simpl.
  apply bool_decide_eq_true. case_bool_decide; [done|].
  apply elem_of_app. right. by apply list_elem_of_singleton.
Qed.

Lemma toggleTheme_known s : known_theme (getTheme (toggleTheme o s)).
Proof.
  unfold toggleTheme. rewrite setTheme_getTheme.
  case_bool_decide; [by right|by left].
Qed.

Lemma toggleTheme_flip s :
  known_theme (getTheme s) →
  getTheme (toggleTheme o s) ≠ getTheme s.
Proof.
  unfold toggleTheme. rewrite setTheme_getTheme. unfold getTheme.
  intros [H|H]; rewrite H; by case_bool_decide.
Qed.

End theme.

(** C1. From any state of a page with a document element, after
    [setTheme("dark")] then [setTheme("light")] the document element
    carries [data-theme="light"] and no [dark] class, the storage entry
    under the configured key is ["light"], [getTheme()] is ["light"], and
    each of the two calls (indeed every call of [setTheme]) dispatches one
    ["themeChanged"] event whose detail is the theme just set. *)
Theorem setTheme_dark_then_light (o : options) (s : state) (root : node) :
  nodes s !! documentElement = Some root →
  let s1 := setTheme o "dark" s in
  let s2 := setTheme o "light" s1 in
  (∃ r, nodes s2 !! documentElement = Some r
        ∧ attrs r !! "data-theme" = Some "light"
        ∧ contains "dark" r = false)
  ∧ getItem (storageKey o) s2 = Some "light"
  ∧ getTheme s2 = "light"
  ∧ dispatched s1 = dispatched s ++ [("themeChanged", "dark")]
  ∧ dispatched s2 = dispatched s1 ++ [("themeChanged", "light")]
  ∧ ∀ theme s', dispatched (setTheme o theme s')
                = dispatched s' ++ [("themeChanged", theme)].
Proof.
  intros Hroot s1 s2. split; [|split; [|split; [|split; [|split]]]].
  - pose proof (setTheme_root o "dark" s root Hroot) as H1.
    pose proof (setTheme_root o "light" s1 _ H1) as H2.
    eexists. split; [exact H2|]. split.
    + simpl. apply lookup_insert_eq.
    + rewrite bool_decide_eq_false_2 by done. apply class_remove_absent.
  - apply setTheme_storage.
  - done.
  - done.
  - done.
  - done.
Qed.

Lemma setTheme_dark_then_light_witness :
  ∃ r, nodes (setTheme default_options "light"
                (setTheme default_options "dark" (world empty_page)))
         !! documentElement = Some r
       ∧ attrs r !! "data-theme" = Some "light"
       ∧ contains "dark" r = false.
Proof.
  apply (setTheme_dark_then_light default_options (world empty_page)
           (elem None [] [] [])).
  reflexivity.
Defined.

(** C2, as stated, fails: the theme field holds whatever string
    [setTheme] was given, and two toggles from ["sepia"] end on ["dark"]. *)
Lemma toggleTheme_twice_counterexample :
  let s := setTheme default_options "sepia" (world empty_page) in
  getTheme s = "sepia"
  ∧ getTheme (toggleTheme default_options (toggleTheme default_options s))
    = "dark"
  ∧ getTheme (toggleTheme default_options (toggleTheme default_options s))
    ≠ getTheme s.
Proof. vm_compute. repeat split; discriminate. Qed.

(** C2, amended.  When the theme held is ["light"] or ["dark"], calling
    [toggleTheme()] twice leaves [getTheme()] equal to the theme held
    before the first toggle. *)
Theorem toggleTheme_involutive (o : options) (s : state) :
  known_theme (getTheme s) →
  getTheme (toggleTheme o (toggleTheme o s)) = getTheme s.
Proof.
  intros [H|H]; unfold toggleTheme at 2; unfold toggleTheme;
    rewrite !setTheme_getTheme; unfold getTheme in H |- *; simpl; rewrite H;
    rewrite ?bool_decide_eq_true_2, ?bool_decide_eq_false_2 by done; simpl;
    rewrite ?bool_decide_eq_true_2, ?bool_decide_eq_false_2 by done; done.
Qed.

Lemma toggleTheme_involutive_witness :
  getTheme (toggleTheme default_options
              (toggleTheme default_options (world empty_page)))
  = getTheme (world empty_page).
Proof.
  apply (toggleTheme_involutive default_options (world empty_page)).
  left. reflexivity.
Defined.

Section theme_frame.
Context (o : options).

Lemma theme_view_dismissAlert a s :
  theme_view (dismissAlert a s) = theme_view s.
Proof. done. Qed.

Lemma theme_view_toggleCollapse e s :
  theme_view (toggleCollapse e s) = theme_view s.
Proof.
  unfold toggleCollapse. destruct (nodes s !! e) as [nd|]; [|done].
  by destruct (orb _ _).
Qed.

Lemma theme_view_closeAllDropdowns s :
  theme_view (closeAllDropdowns s) = theme_view s.
Proof. done. Qed.

Lemma theme_view_toggleDropdown dd s :
  theme_view (toggleDropdown dd s) = theme_view s.
Proof. unfold toggleDropdown. by destruct (from_option _ _ _). Qed.

Lemma theme_view_switchTab tab s :
  theme_view (switchTab tab s) = theme_view s.
Proof.
  unfold switchTab. destruct (closest _ _ _); [|done].
  by destruct (getElementById _ _).
Qed.

Lemma theme_view_on_click_alert t s :
  theme_view (on_click_alert t s) = theme_view s.
Proof.
  unfold on_click_alert. destruct (closest _ _ _); [|done].
  by destruct (closest _ _ _).
Qed.

Lemma theme_view_on_click_collapse t s :
  theme_view (on_click_collapse t s) = theme_view s.
Proof.
  unfold on_click_collapse. destruct (closest _ _ _); [|done].
  destruct (getElementById _ _); [|done]. apply theme_view_toggleCollapse.
Qed.

Lemma theme_view_on_click_dropdown t s :
  theme_view (on_click_dropdown t s) = theme_view s.
Proof.
  unfold on_click_dropdown. destruct (closest _ _ _); [|done].
  apply theme_view_toggleDropdown.
Qed.

Lemma theme_view_on_click_tab t s :
  theme_view (on_click_tab t s) = theme_view s.
Proof.
  unfold on_click_tab. destruct (closest _ _ _); [|done].
  apply theme_view_switchTab.
Qed.

Lemma theme_view_fire tk s : theme_view (fire tk s) = theme_view s.
Proof.
  destruct tk as [| | | | el | |? cb|? cb|? cb|? cb]; simpl; try done;
    try (by destruct cb).
  by destruct (nodes s !! el ≫= parentNode).
Qed.

Lemma theme_view_run fuel t s : theme_view (run fuel t s) = theme_view s.
Proof.
  revert s. induction fuel as [|fuel IH]; intros s; [done|]. simpl.
  destruct (pick (timers s)) as [[[due tk] rest]|]; [|done].
  destruct (due <=? t); [|done]. rewrite IH, theme_view_fire. done.
Qed.










End theme_frame.




(* ===================================================================== *)
(** ** Dropdowns *)
(* ===================================================================== *)

Section dropdowns.
Implicit Types (s : state) (d : dom).

Let close_one : node → node :=
  λ dropdown,
    setAttribute "aria-expanded" "false" (class_remove "open" dropdown).

Lemma matches_open_dropdown nd :
  matches sel_open_dropdown nd
  = has_attr "data-dropdown" nd && contains "open" nd.
Proof. unfold matches. simpl. by rewrite !andb_true_r. Qed.

Lemma matches_dropdown nd :
  matches sel_dropdown nd = has_attr "data-dropdown" nd.
Proof. unfold matches. simpl. by rewrite !andb_true_r. Qed.

Lemma closeAllDropdowns_same_tree s :
  same_tree (nodes (closeAllDropdowns s)) (nodes s).
Proof. apply same_tree_forEach. done. Qed.

Lemma closeAllDropdowns_lookup s i :
  nodes (closeAllDropdowns s) !! i
  = if bool_decide (i ∈ open_dropdowns s)
    then close_one <$> nodes s !! i else nodes s !! i.
Proof.
  unfold closeAllDropdowns. simpl. case_bool_decide as Hi.
  - apply forEach_lookup_in; [apply NoDup_querySelectorAll|done].
  - by apply forEach_lookup_notin.
Qed.

(** After [closeAllDropdowns] no dropdown of the document is open. *)
Lemma closeAllDropdowns_closed s i :
  connected (nodes (closeAllDropdowns s)) i
  && node_matches sel_open_dropdown (nodes (closeAllDropdowns s)) i = false.
Proof.
  rewrite (same_tree_connected _ _ _ (closeAllDropdowns_same_tree s)).
  unfold node_matches. rewrite closeAllDropdowns_lookup.
  case_bool_decide as Hi.
  - destruct (nodes s !! i) as [nd|]; simpl; [|apply andb_false_r].
    rewrite matches_open_dropdown.
    unfold close_one.
    change (contains "open" (setAttribute "aria-expanded" "false"
                               (class_remove "open" nd)))
      with (contains "open" (class_remove "open" nd)).
    rewrite class_remove_absent. by rewrite !andb_false_r.
  - apply not_true_iff_false. intros H. apply Hi.
    apply elem_of_querySelectorAll. by apply andb_true_iff in H.
Qed.

Lemma closeAllDropdowns_none s : open_dropdowns (closeAllDropdowns s) = [].
Proof. apply filter_seq_none, closeAllDropdowns_closed. Qed.

(** A dropdown of the document that is not the one toggled is closed
    afterwards. *)
Lemma toggleDropdown_others dd s i :
  i ≠ dd →
  connected (nodes (toggleDropdown dd s)) i
  && node_matches sel_open_dropdown (nodes (toggleDropdown dd s)) i = false.
Proof.
  intros Hne. unfold toggleDropdown.
  destruct (from_option _ _ _); [apply closeAllDropdowns_closed|].
  rewrite <- (closeAllDropdowns_closed s i). f_equal.
  - apply same_tree_connected. unfold on_node. simpl.
    eapply same_tree_trans; by apply same_tree_alter.
  - unfold node_matches, on_node. simpl.
    by rewrite !list_lookup_alter_ne.
Qed.

Lemma toggleDropdown_at_most_one dd s :
  (length (open_dropdowns (toggleDropdown dd s)) ≤ 1)%nat.
Proof.
  apply (filter_seq_at_most_one _ dd). intros i Hi.
  destruct (decide (i = dd)) as [|Hne]; [done|].
  by rewrite toggleDropdown_others in Hi.
Qed.

Lemma toggleDropdown_same_tree dd s :
  same_tree (nodes (toggleDropdown dd s)) (nodes s).
Proof.
  unfold toggleDropdown.
  destruct (from_option _ _ _); [apply closeAllDropdowns_same_tree|].
  unfold on_node. simpl.
  eapply same_tree_trans; [by apply same_tree_alter|].
  eapply same_tree_trans; [by apply same_tree_alter|].
  apply closeAllDropdowns_same_tree.
Qed.

Lemma has_attr_close_one a nd : has_attr a nd = true → has_attr a (close_one nd) = true.
Proof.
  unfold has_attr, close_one. simpl. intros H%bool_decide_eq_true.
  apply bool_decide_eq_true.
  destruct (decide (a = "aria-expanded")) as [->|Hne].
  - rewrite lookup_insert_eq. by eexists.
  - by rewrite lookup_insert_ne.
Qed.

(** Toggling a closed dropdown of the document opens exactly it. *)
Lemma toggleDropdown_opens dd s :
  connected (nodes s) dd = true →
  node_matches sel_dropdown (nodes s) dd = true →
  node_matches sel_open_dropdown (nodes s) dd = false →
  open_dropdowns (toggleDropdown dd s) = [dd].
Proof.
  intros Hc Hm Hclosed. unfold node_matches in Hm, Hclosed.
  destruct (nodes s !! dd) as [nd|] eqn:End; [|done].
  rewrite matches_dropdown in Hm. rewrite matches_open_dropdown, Hm in Hclosed.
  simpl in Hclosed.
  apply filter_seq_single.
  - rewrite (same_tree_length _ _ (toggleDropdown_same_tree dd s)).
    by apply lookup_lt_Some in End.
  - rewrite (same_tree_connected _ _ _ (toggleDropdown_same_tree dd s)), Hc.
    simpl. unfold node_matches, toggleDropdown. rewrite End.
    cbn [from_option]. rewrite Hclosed. unfold on_node.
    cbn [nodes upd_nodes].
    rewrite !list_lookup_alter_eq, closeAllDropdowns_lookup, End.
    rewrite bool_decide_eq_false_2.
    + simpl. rewrite matches_open_dropdown.
      change (contains "open" (setAttribute "aria-expanded" "true"
                                 (class_add "open" nd)))
        with (contains "open" (class_add "open" nd)).
      rewrite class_add_present, andb_true_r.
      unfold has_attr in *. simpl. apply bool_decide_eq_true.
      apply bool_decide_eq_true in Hm.
      destruct (decide ("data-dropdown" = "aria-expanded")) as [?|Hne];
        [done|]. by rewrite lookup_insert_ne.
    + intros Hin. apply elem_of_querySelectorAll in Hin as [_ Hin].
      unfold node_matches in Hin. rewrite End, matches_open_dropdown in Hin.
      by rewrite Hm, Hclosed in Hin.
  - intros i Hi. destruct (decide (i = dd)) as [|Hne]; [done|].
    by rewrite toggleDropdown_others in Hi.
Qed.

(** What [toggleDropdown a] leaves of another dropdown [b] of the
    document: still there, still a dropdown, closed. *)
Lemma toggleDropdown_other_closed a b s :
  a ≠ b →
  connected (nodes s) b = true →
  node_matches sel_dropdown (nodes s) b = true →
  connected (nodes (toggleDropdown a s)) b = true
  ∧ node_matches sel_dropdown (nodes (toggleDropdown a s)) b = true
  ∧ node_matches sel_open_dropdown (nodes (toggleDropdown a s)) b = false.
Proof.
  intros Hne Hc Hm.
  assert (Hc' : connected (nodes (toggleDropdown a s)) b = true)
    by by rewrite (same_tree_connected _ _ _ (toggleDropdown_same_tree a s)).
  split; [done|]. split.
  - assert (Hl : node_matches sel_dropdown (nodes (closeAllDropdowns s)) b
                 = true).
    { unfold node_matches in *. rewrite closeAllDropdowns_lookup.
      destruct (nodes s !! b) as [nd|]; [|done].
      rewrite matches_dropdown in Hm.
      case_bool_decide; simpl; rewrite matches_dropdown; [|done].
      by apply has_attr_close_one. }
    unfold toggleDropdown. destruct (from_option _ _ _); [done|].
    unfold node_matches, on_node in *. simpl.
    by rewrite !list_lookup_alter_ne.
  - pose proof (toggleDropdown_others a s b (not_eq_sym Hne)) as H.
    by rewrite Hc' in H.
Qed.

End dropdowns.

(** X22. In every state of the document, after a call of [toggleDropdown]
    (and after the click listener of [setupDropdowns] of one instance, on
    any target) at most one element of the document with the
    [data-dropdown] attribute has the [open] class.  A call on a closed
    dropdown A leaves exactly A open, and a call on another dropdown B of
    the document then leaves exactly B open. *)
Theorem at_most_one_dropdown_open (s : state) :
  (∀ dropdown,
     (length (open_dropdowns (toggleDropdown dropdown s)) ≤ 1)%nat)
  ∧ (∀ target,
       (length (open_dropdowns (on_click_dropdown target s)) ≤ 1)%nat)
  ∧ (∀ A B,
       A ≠ B →
       connected (nodes s) A = true →
       node_matches sel_dropdown (nodes s) A = true →
       node_matches sel_open_dropdown (nodes s) A = false →
       connected (nodes s) B = true →
       node_matches sel_dropdown (nodes s) B = true →
       open_dropdowns (toggleDropdown A s) = [A]
       ∧ open_dropdowns (toggleDropdown B (toggleDropdown A s)) = [B]).
Proof.
  split; [|split].
  - intros dd. apply toggleDropdown_at_most_one.
  - intros target. unfold on_click_dropdown.
    destruct (closest _ _ _); [apply toggleDropdown_at_most_one|].
    rewrite closeAllDropdowns_none. simpl. lia.
  - intros A B Hne HcA HmA HoA HcB HmB. split.
    + by apply toggleDropdown_opens.
    + destruct (toggleDropdown_other_closed A B s Hne HcB HmB)
        as (Hc & Hm & Ho).
      by apply toggleDropdown_opens.
Qed.

(** A page with two dropdown triggers, rows 2 and 3. *)
Lemma at_most_one_dropdown_open_witness :
  let page := world [elem None [] [] []; elem (Some 0%nat) [] [] [];
                     elem (Some 1%nat) [("data-dropdown", "")] [] [];
                     elem (Some 1%nat) [("data-dropdown", "")] [] []] in
  open_dropdowns (toggleDropdown 2 page) = [2%nat]
  ∧ open_dropdowns (toggleDropdown 3 (toggleDropdown 2 page)) = [3%nat].
Proof.
  intros page.
  apply (proj2 (proj2 (at_most_one_dropdown_open page)) 2%nat 3%nat);
    [lia | reflexivity..].
Defined.

(** C4.  The page as the bundle loads it has the dropdown listener twice,
    once for each of the two instances.  A click on a closed dropdown B
    while A is open therefore calls [toggleDropdown(B)] twice: the first
    call closes A and opens B, as the claim says, and the second finds B
    open and closes it.  No dropdown is open afterwards. *)
Theorem dropdown_click_runs_twice :
  let page := world [elem None [] [] []; elem (Some 0%nat) [] [] [];
                     elem (Some 1%nat) [("data-dropdown", "")] ["open"] [];
                     elem (Some 1%nat) [("data-dropdown", "")] [] []] in
  open_dropdowns page = [2%nat]
  ∧ open_dropdowns (toggleDropdown 3 page) = [3%nat]
  ∧ open_dropdowns (on_click_dropdown 3 page) = [3%nat]
  ∧ document_click 3 page = toggleDropdown 3 (toggleDropdown 3 page)
  ∧ open_dropdowns (document_click 3 page) = [].
Proof. by vm_compute. Qed.

(* ===================================================================== *)
(** ** Tabs *)
(* ===================================================================== *)

Section queries_ext.
Implicit Types (d : dom).

Lemma querySelectorAll_ext sel d d' :
same_tree d' d →
(∀ i, node_matches sel d' i = node_matches sel d i) →
querySelectorAll sel d' = querySelectorAll sel d.
Proof.
intros Ht Hm. unfold querySelectorAll.
rewrite (same_tree_length _ _ Ht). apply List.filter_ext. intros i.
by rewrite Hm, (same_tree_connected _ _ _ Ht).
Qed.

Lemma find_ext {A} (f g : A → bool) l :
(∀ x, f x = g x) → List.find f l = List.find g l.
Proof. intros H. induction l as [|x l IH]; simpl; [done|]. by rewrite H, IH. Qed.

Lemma getElementById_ext id d d' :
same_tree d' d →
(∀ i, has_id id d' i = has_id id d i) →
getElementById id d' = getElementById id d.
Proof.
intros Ht Hm. unfold getElementById. case_bool_decide; [done|].
rewrite (same_tree_length _ _ Ht). apply find_ext. intros i.
by rewrite Hm, (same_tree_connected _ _ _ Ht).
Qed.

Lemma node_matches_fmap sel d d' i F :
d' !! i = F <$> d !! i →
(∀ nd, matches sel (F nd) = matches sel nd) →
node_matches sel d' i = node_matches sel d i.
Proof.
intros Hl HF. unfold node_matches. rewrite Hl.
destruct (d !! i); simpl; [apply HF|done].
Qed.

Lemma has_id_fmap id d d' i F :
d' !! i = F <$> d !! i →
(∀ nd, attrs (F nd) !! "id" = attrs nd !! "id") →
has_id id d' i = has_id id d i.
Proof.
intros Hl HF. unfold has_id. rewrite Hl.
destruct (d !! i); simpl; [by rewrite HF|done].
Qed.

Lemma same_tree_fmap d d' :
(∀ i, ∃ F, keeps_parent F ∧ d' !! i = F <$> d !! i) → same_tree d' d.
Proof.
intros H i. destruct (H i) as (F & HF & ->).
destruct (d !! i); simpl; [by rewrite HF|done].
Qed.

Lemma getElementById_Some id d p :
getElementById id d = Some p → connected d p = true ∧ has_id id d p = true.
Proof.
unfold getElementById. case_bool_decide; [done|].
intros Hf%find_some. by apply andb_true_iff, Hf.
Qed.

Lemma closest_Some_lookup sel d n g :
closest sel d n = Some g → is_Some (d !! n).
Proof.
unfold closest, ancestors. destruct (length d) as [|k]; [done|]. simpl.
by destruct (d !! n).
Qed.

End queries_ext.

Section node_updates.
Implicit Types (nd : node).

Lemma has_attr_setAttribute_ne a b v nd :
  a ≠ b → has_attr a (setAttribute b v nd) = has_attr a nd.
Proof. intros H. unfold has_attr. simpl. by rewrite lookup_insert_ne. Qed.

Lemma keeps_parent_when b f : keeps_parent f → keeps_parent (when b f).
Proof. by destruct b. Qed.

Lemma keeps_parent_deactivate : keeps_parent deactivate.
Proof. done. Qed.
Lemma keeps_parent_activate : keeps_parent activate.
Proof. done. Qed.
Lemma keeps_parent_hide_panel : keeps_parent hide_panel.
Proof. done. Qed.
Lemma keeps_parent_show_panel : keeps_parent show_panel.
Proof. done. Qed.

(** The updates of [switchTab] touch the attributes [aria-selected] and
    [aria-hidden] only. *)
Lemma attrs_when_tab_update b f a nd :
  f = deactivate ∨ f = activate ∨ f = hide_panel ∨ f = show_panel →
  a ≠ "aria-selected" → a ≠ "aria-hidden" →
  attrs (when b f nd) !! a = attrs nd !! a.
Proof.
  intros Hf H1 H2. destruct b; [|done]. simpl.
  destruct Hf as [-> | [-> | [-> | ->]]]; simpl; by rewrite lookup_insert_ne.
Qed.

End node_updates.

Section tabs.
Context (s : state) (tab g : nat).
Hypothesis Hgroup : closest sel_tab_group (nodes s) tab = Some g.

Let tid := to_DOMString (getAttribute "data-tab" (nodes s) tab).
Let tabs := querySelectorAll_in g sel_tab (nodes s).
Let panels := querySelectorAll sel_tab_panel (nodes s).
Let target := getElementById tid (nodes s).

Lemma switchTab_lookup i :
  nodes (switchTab tab s) !! i
  = (when (bool_decide (target = Some i)) show_panel
     ∘ when (bool_decide (i ∈ panels)) hide_panel
     ∘ when (bool_decide (i = tab)) activate
     ∘ when (bool_decide (i ∈ tabs)) deactivate) <$> nodes s !! i.
Proof.
  unfold switchTab. rewrite Hgroup. cbv zeta.
  fold tid. fold tabs.
  set (s2 := on_node tab (setAttribute "aria-selected" "true") _).
  assert (L2 : ∀ j, nodes s2 !! j
                    = (when (bool_decide (j = tab)) activate
                       ∘ when (bool_decide (j ∈ tabs)) deactivate)
                      <$> nodes s !! j).
  { intros j. subst s2. unfold on_node. cbn [nodes upd_nodes].
    change (λ t : node, setAttribute "aria-selected" "false"
                          (class_remove "active" t)) with deactivate.
    assert (L1 : forEach tabs deactivate (nodes s) !! j
                 = when (bool_decide (j ∈ tabs)) deactivate <$> nodes s !! j).
    { case_bool_decide as Hj.
      - apply forEach_lookup_in; [apply NoDup_querySelectorAll_in|done].
      - rewrite forEach_lookup_notin by done. by destruct (nodes s !! j). }
    destruct (decide (j = tab)) as [->|Hj].
    - rewrite !list_lookup_alter_eq, L1.
      rewrite (bool_decide_eq_true_2 (tab = tab)) by done.
      by destruct (nodes s !! tab).
    - rewrite !list_lookup_alter_ne, L1 by done.
      rewrite (bool_decide_eq_false_2 (j = tab)) by done.
      by destruct (nodes s !! j). }
  assert (Ht2 : same_tree (nodes s2) (nodes s)).
  { apply same_tree_fmap. intros j. eexists. split; [|apply L2].
    intros nd. unfold compose.
    by rewrite !keeps_parent_when. }
  assert (Hp : querySelectorAll sel_tab_panel (nodes s2) = panels).
  { apply querySelectorAll_ext; [done|]. intros j.
    eapply node_matches_fmap; [apply L2|]. intros nd.
    unfold matches, has_attr, compose. simpl.
    rewrite !attrs_when_tab_update by (done || auto). done. }
  rewrite Hp.
  set (s3 := upd_nodes (forEach panels _) s2).
  assert (L3 : ∀ j, nodes s3 !! j
                    = (when (bool_decide (j ∈ panels)) hide_panel
                       ∘ when (bool_decide (j = tab)) activate
                       ∘ when (bool_decide (j ∈ tabs)) deactivate)
                      <$> nodes s !! j).
  { intros j. subst s3. cbn [nodes upd_nodes].
    change (λ panel : node, setAttribute "aria-hidden" "true"
                              (set_style "display" "none" panel))
      with hide_panel.
    destruct (decide (j ∈ panels)) as [Hj|Hj].
    - rewrite forEach_lookup_in, L2;
        [|apply NoDup_querySelectorAll|done].
      rewrite (bool_decide_eq_true_2 (j ∈ panels)) by done.
      by destruct (nodes s !! j).
    - rewrite forEach_lookup_notin, L2 by done.
      rewrite (bool_decide_eq_false_2 (j ∈ panels)) by done.
      by destruct (nodes s !! j). }
  assert (Ht3 : same_tree (nodes s3) (nodes s)).
  { apply same_tree_fmap. intros j. eexists. split; [|apply L3].
    intros nd. unfold compose.
    by rewrite !keeps_parent_when. }
  assert (Hid : getElementById tid (nodes s3) = target).
  { apply getElementById_ext; [done|]. intros j.
    eapply has_id_fmap; [apply L3|]. intros nd. unfold compose.
    rewrite !attrs_when_tab_update by (done || auto). done. }
  rewrite Hid. unfold target.
  destruct (getElementById tid (nodes s)) as [p|] eqn:Et.
  - unfold on_node. cbn [nodes upd_nodes].
    destruct (decide (p = i)) as [->|Hi].
    + rewrite !list_lookup_alter_eq, L3.
      rewrite (bool_decide_eq_true_2 (Some i = Some i)) by done.
      by destruct (nodes s !! i).
    + rewrite !list_lookup_alter_ne, L3 by done.
      rewrite (bool_decide_eq_false_2 (Some p = Some i)) by congruence.
      by destruct (nodes s !! i).
  - rewrite L3. rewrite (bool_decide_eq_false_2 (None = Some i)) by done.
    by destruct (nodes s !! i).
Qed.

End tabs.

(** C5, as stated, fails: [switchTab] hides every tab panel of the
    document.  On a page with two groups, switching to the tab of group
    one hides the visible panel of group two, which lies outside group
    one, while the tab of group two stays active. *)
Lemma switchTab_other_group_counterexample :
  let s := world two_groups in
  let s' := switchTab 3 s in
  closest sel_tab_group (nodes s) 3 = Some 2%nat
  ∧ descendant (nodes s) 2 7 = false
  ∧ (nodes s !! 7%nat ≫= λ nd, style nd !! "display") = Some "block"
  ∧ (nodes s' !! 7%nat ≫= λ nd, style nd !! "display") = Some "none"
  ∧ (nodes s' !! 7%nat ≫= λ nd, attrs nd !! "aria-hidden") = Some "true"
  ∧ (contains "active" <$> nodes s' !! 6%nat) = Some true
  ∧ nodes s' !! 7%nat ≠ nodes s !! 7%nat.
Proof.
  intros s s'. repeat split; try (vm_compute; reflexivity).
  intros H.
  apply (f_equal (λ o : option node, o ≫= λ nd, style nd !! "display")) in H.
  vm_compute in H. discriminate H.
Qed.

(** C5, amended.  For a tab with an enclosing tab group, [switchTab]
    removes the [active] class from every other tab of that group
    ([aria-selected] false), gives it to the clicked tab ([aria-selected]
    true), hides every tab panel of the document, of whatever group
    ([display] none, [aria-hidden] true), and shows the element whose id
    is the tab's [data-tab] value when there is one ([display] block,
    [aria-hidden] false).  Every other element, hence every tab outside
    the group that is no panel, is unchanged. *)
Theorem switchTab_effect (s : state) (tab g : nat) :
  closest sel_tab_group (nodes s) tab = Some g →
  let tabs := querySelectorAll_in g sel_tab (nodes s) in
  let panels := querySelectorAll sel_tab_panel (nodes s) in
  let target :=
    getElementById (to_DOMString (getAttribute "data-tab" (nodes s) tab))
                   (nodes s) in
  let s' := switchTab tab s in
  (∀ t, t ∈ tabs → t ≠ tab →
        ∃ nd, nodes s' !! t = Some nd
              ∧ contains "active" nd = false
              ∧ attrs nd !! "aria-selected" = Some "false")
  ∧ (∃ nd, nodes s' !! tab = Some nd
           ∧ contains "active" nd = true
           ∧ attrs nd !! "aria-selected" = Some "true")
  ∧ (∀ p, p ∈ panels → target ≠ Some p →
          ∃ nd, nodes s' !! p = Some nd
                ∧ style nd !! "display" = Some "none"
                ∧ attrs nd !! "aria-hidden" = Some "true")
  ∧ (∀ p, target = Some p →
          ∃ nd, nodes s' !! p = Some nd
                ∧ style nd !! "display" = Some "block"
                ∧ attrs nd !! "aria-hidden" = Some "false")
  ∧ (∀ i, i ∉ tabs → i ≠ tab → i ∉ panels → target ≠ Some i →
          nodes s' !! i = nodes s !! i).
Proof.
  intros Hg tabs panels target s'.
  pose proof (switchTab_lookup s tab g Hg) as L. fold tabs panels target s' in L.
  split; [|split; [|split; [|split]]].
  - intros t Ht Hne.
    apply elem_of_querySelectorAll_in in Ht as Hm. destruct Hm as [_ Hm].
    unfold node_matches in Hm.
    destruct (nodes s !! t) as [nd|] eqn:E; [|done].
    rewrite L, E. eexists. split; [done|].
    rewrite (bool_decide_eq_true_2 (t ∈ tabs)) by done.
    rewrite (bool_decide_eq_false_2 (t = tab)) by done.
    destruct (bool_decide (target = Some t)), (bool_decide (t ∈ panels));
      simpl; (split; [apply class_remove_absent|]);
      rewrite ?(lookup_insert_ne _ "aria-hidden") by done;
      apply lookup_insert_eq.
  - destruct (closest_Some_lookup _ _ _ _ Hg) as [nd E].
    rewrite L, E. eexists. split; [done|].
    rewrite (bool_decide_eq_true_2 (tab = tab)) by done.
    destruct (bool_decide (target = Some tab)), (bool_decide (tab ∈ panels)),
      (bool_decide (tab ∈ tabs));
      simpl; (split; [apply class_add_present|]);
      rewrite ?(lookup_insert_ne _ "aria-hidden") by done;
      apply lookup_insert_eq.
  - intros p Hp Hne.
    apply elem_of_querySelectorAll in Hp as Hm. destruct Hm as [_ Hm].
    unfold node_matches in Hm.
    destruct (nodes s !! p) as [nd|] eqn:E; [|done].
    rewrite L, E. eexists. split; [done|].
    rewrite (bool_decide_eq_true_2 (p ∈ panels)) by done.
    rewrite (bool_decide_eq_false_2 (target = Some p)) by done.
    simpl. split; apply lookup_insert_eq.
  - intros p Hp.
    apply getElementById_Some in Hp as Hm. destruct Hm as [_ Hm].
    unfold has_id in Hm.
    destruct (nodes s !! p) as [nd|] eqn:E; [|done].
    rewrite L, E. eexists. split; [done|].
    rewrite (bool_decide_eq_true_2 (target = Some p)) by done.
    simpl. split; apply lookup_insert_eq.
  - intros i H1 H2 H3 H4. rewrite L.
    rewrite (bool_decide_eq_false_2 (target = Some i)) by done.
    rewrite (bool_decide_eq_false_2 (i ∈ panels)) by done.
    rewrite (bool_decide_eq_false_2 (i = tab)) by done.
    rewrite (bool_decide_eq_false_2 (i ∈ tabs)) by done.
    by destruct (nodes s !! i).
Qed.

Lemma switchTab_effect_witness :
  let s' := switchTab 3 (world two_groups) in
  ∃ nd, nodes s' !! 3%nat = Some nd
        ∧ contains "active" nd = true
        ∧ attrs nd !! "aria-selected" = Some "true".
Proof.
  intros s'.
  apply (switchTab_effect (world two_groups) 3%nat 2%nat).
  reflexivity.
Defined.

(* ===================================================================== *)
(** ** Unresolved targets *)
(* ===================================================================== *)

(** C9, as stated, fails for a tab whose panel id is unknown: the lookup
    of the panel comes last, after the tabs of the group and the panels of
    the document have been updated. *)
Lemma unknown_panel_counterexample :
  let s := world dangling_tab in
  let s' := on_click_tab 3 s in
  closest sel_tab (nodes s) 3 = Some 3%nat
  ∧ getElementById "nowhere" (nodes s) = None
  ∧ (contains "active" <$> nodes s !! 3%nat) = Some false
  ∧ (contains "active" <$> nodes s' !! 3%nat) = Some true
  ∧ (contains "active" <$> nodes s' !! 4%nat) = Some false
  ∧ (nodes s' !! 5%nat ≫= λ nd, style nd !! "display") = Some "none"
  ∧ s' ≠ s.
Proof.
  intros s s'. repeat split; try (vm_compute; reflexivity).
  intros H.
  apply (f_equal (λ w, contains "active" <$> nodes w !! 3%nat)) in H.
  vm_compute in H. discriminate H.
Qed.

(** C9, amended.  The click listener of the collapse toggles is a no-op
    when the target id of the toggle resolves to no element, and
    [switchTab] (hence the click listener of the tabs) is a no-op on a tab
    with no enclosing tab group: the world is returned unchanged, and the
    listeners, being total, raise nothing.  A tab with a group but an
    unknown panel id is not a no-op: the tabs of the group are
    deactivated, the clicked tab is activated and every tab panel of the
    document is hidden; only the final step that shows a panel is
    skipped. *)
Theorem unresolved_targets (s : state) :
  (∀ target toggle,
     closest sel_collapse_toggle (nodes s) target = Some toggle →
     getElementById
       (to_DOMString (getAttribute "data-collapse-toggle" (nodes s) toggle))
       (nodes s) = None →
     on_click_collapse target s = s)
  ∧ (∀ tab, closest sel_tab_group (nodes s) tab = None → switchTab tab s = s)
  ∧ (∀ target tab,
       closest sel_tab (nodes s) target = Some tab →
       closest sel_tab_group (nodes s) tab = None →
       on_click_tab target s = s)
  ∧ (∀ tab g,
       closest sel_tab_group (nodes s) tab = Some g →
       getElementById (to_DOMString (getAttribute "data-tab" (nodes s) tab))
                      (nodes s) = None →
       ∀ i, nodes (switchTab tab s) !! i
            = (when (bool_decide
                       (i ∈ querySelectorAll sel_tab_panel (nodes s)))
                    hide_panel
               ∘ when (bool_decide (i = tab)) activate
               ∘ when (bool_decide
                         (i ∈ querySelectorAll_in g sel_tab (nodes s)))
                      deactivate) <$> nodes s !! i).
Proof.
  split; [|split; [|split]].
  - intros target toggle Hc Hid. unfold on_click_collapse. by rewrite Hc, Hid.
  - intros tab Hg. unfold switchTab. by rewrite Hg.
  - intros target tab Ht Hg. unfold on_click_tab, switchTab. by rewrite Ht, Hg.
  - intros tab g Hg Hid i. rewrite (switchTab_lookup s tab g Hg), Hid.
    rewrite (bool_decide_eq_false_2 (None = Some i)) by done.
    by destruct (nodes s !! i).
Qed.

Lemma unresolved_targets_witness :
  on_click_collapse 2 (world orphans) = world orphans
  ∧ on_click_tab 3 (world orphans) = world orphans.
Proof.
  split.
  - apply (proj1 (unresolved_targets (world orphans)) 2%nat 2%nat);
      reflexivity.
  - apply (proj1 (proj2 (proj2 (unresolved_targets (world orphans))))
             3%nat 3%nat); reflexivity.
Defined.

(* ===================================================================== *)
(** ** animate *)
(* ===================================================================== *)

(** C8. For an animation name that is none of the cases of the [switch],
    [animate] writes one warning to the console and calls the callback,
    when there is one, within the call itself; no element is touched, no
    timer is set and no animation is started. *)
Theorem animate_unknown (element : nat) (animation : string)
    (duration : option Z) (cb : option callback) (s : state) :
  animation ∉ recognized →
  let s' := animate element animation duration cb s in
  console s' = console s ++ [not_found animation]
  ∧ invoked s' = invoked s ++ match cb with Some c => [c] | None => [] end
  ∧ nodes s' = nodes s
  ∧ timers s' = timers s
  ∧ animations s' = animations s
  ∧ s' = call_if cb (warn (not_found animation) s).
Proof.
  intros Hn s'.
  assert (Hs : s' = call_if cb (warn (not_found animation) s)).
  { subst s'. unfold animate, recognized in *.
    repeat (case_bool_decide;
            [exfalso; apply Hn; subst animation; repeat constructor|]).
    done. }
  rewrite Hs. destruct cb; simpl; rewrite ?app_nil_r; done.
Qed.

Lemma animate_unknown_witness :
  console (animate 1 "pulse" None (Some 7%nat) (world empty_page))
  = [not_found "pulse"].
Proof.
  apply (animate_unknown 1%nat "pulse" None (Some 7%nat) (world empty_page)).
  vm_compute. intros H.
  repeat (apply elem_of_cons in H as [H|H]; [discriminate H|]).
  by apply elem_of_nil in H.
Defined.

(* ===================================================================== *)
(** ** Tables that grow *)
(* ===================================================================== *)

Section growth.
Implicit Types (d D : dom) (P : nat → bool).

Lemma find_seq_Some P a n c :
  List.find P (seq a n) = Some c ↔
  (a ≤ c < a + n)%nat ∧ P c = true ∧ ∀ i, (a ≤ i < c)%nat → P i = false.
Proof.
  revert a. induction n as [|n IH]; intros a; simpl.
  - split; [done|]. intros [? _]. lia.
  - destruct (P a) eqn:Ea.
    + split.
      * intros [= <-]. split; [lia|]. split; [done|]. intros i ?. lia.
      * intros (Hc & Hp & Hlt). f_equal.
        destruct (decide (a = c)) as [|Hne]; [done|].
        rewrite Hlt in Ea by lia. done.
    + rewrite IH. split.
      * intros (Hc & Hp & Hlt). split; [lia|]. split; [done|].
        intros i Hi. destruct (decide (i = a)) as [->|]; [done|].
        apply Hlt. lia.
      * intros (Hc & Hp & Hlt).
        assert (a ≠ c) by congruence.
        split; [lia|]. split; [done|]. intros i Hi. apply Hlt. lia.
Qed.

Lemma find_seq_None P a n :
  List.find P (seq a n) = None ↔ ∀ i, (a ≤ i < a + n)%nat → P i = false.
Proof.
  split.
  - intros H i Hi. apply (find_none _ _ H). apply in_seq. lia.
  - intros H. destruct (List.find P (seq a n)) as [c|] eqn:E; [|done].
    apply find_seq_Some in E as (Hc & Hp & _). rewrite H in Hp; done.
Qed.

Lemma forest_rooted d n :
  forest d = true → (n < length d)%nat → rooted_aux (length d) d n = true.
Proof.
  unfold forest. rewrite forallb_forall. intros H Hn. apply H, in_seq. lia.
Qed.

(** The chain of an old row is the same in every extension, whatever the
    fuel beyond what the old table needed. *)
Lemma ancestors_aux_prefix d0 D f f' n :
  d0 `prefix_of` D → rooted_aux f d0 n = true → (f ≤ f')%nat →
  ancestors_aux f' D n = ancestors_aux f d0 n.
Proof.
  intros Hpre. revert f' n. induction f as [|f IH]; intros f' n Hr Hf; [done|].
  destruct f' as [|f']; [lia|]. simpl in *.
  destruct (d0 !! n) as [nd|] eqn:E; [|done].
  rewrite (prefix_lookup_Some _ _ _ _ E Hpre).
  destruct (parentNode nd) as [p|]; [|done].
  f_equal. apply IH; [done|lia].
Qed.

Lemma ancestors_prefix d0 D n :
  forest d0 = true → d0 `prefix_of` D → (n < length d0)%nat →
  ancestors D n = ancestors d0 n.
Proof.
  intros Hf Hpre Hn. unfold ancestors.
  apply ancestors_aux_prefix; [done|by apply forest_rooted|].
  by apply prefix_length.
Qed.

Lemma connected_prefix d0 D n :
  forest d0 = true → d0 `prefix_of` D → (n < length d0)%nat →
  connected D n = connected d0 n.
Proof. intros. unfold connected. by rewrite (ancestors_prefix d0). Qed.

Lemma has_id_prefix id d0 D n :
  d0 `prefix_of` D → (n < length d0)%nat → has_id id D n = has_id id d0 n.
Proof.
  intros Hpre Hn. unfold has_id.
  destruct (lookup_lt_is_Some_2 d0 n Hn) as [nd E].
  by rewrite E, (prefix_lookup_Some _ _ _ _ E Hpre).
Qed.

Lemma document_body_Some d b :
  document_body d = Some b →
  b = body ∧ ∃ nd, d !! body = Some nd ∧ parentNode nd = Some documentElement.
Proof.
  unfold document_body. destruct (d !! body) as [nd|]; [|done].
  case_bool_decide; [|done]. intros [= <-]. split; [done|]. by exists nd.
Qed.

Lemma page_ok_connected_body d : page_ok d → connected d body = true.
Proof.
  intros [_ (_ & nd & E & Hp)%document_body_Some].
  unfold connected, ancestors.
  assert (Hlen : (body < length d)%nat) by by apply lookup_lt_Some in E.
  destruct (length d) as [|[|k]] eqn:El; [unfold body in Hlen; lia..|].
  simpl. rewrite E, Hp.
  destruct (lookup_lt_is_Some_2 d documentElement) as [r Er];
    [unfold documentElement; lia|].
  rewrite Er. apply bool_decide_eq_true.
  apply list_elem_of_further, list_elem_of_here.
Qed.

(** A row appended under the body is in the document. *)
Lemma connected_under_body d0 D c nd :
  page_ok d0 → d0 `prefix_of` D → (length d0 ≤ c)%nat →
  D !! c = Some nd → parentNode nd = Some body →
  connected D c = true.
Proof.
  intros Hok Hpre Hc E Hp.
  pose proof (page_ok_connected_body d0 Hok) as Hb.
  destruct Hok as [Hf _]. unfold connected, ancestors.
  assert (Hlen : (c < length D)%nat) by by apply lookup_lt_Some in E.
  destruct (length D) as [|k] eqn:El; [lia|]. simpl. rewrite E, Hp.
  assert (Hbody : (body < length d0)%nat).
  { unfold connected, ancestors in Hb. apply bool_decide_eq_true in Hb.
    destruct (length d0) as [|l] eqn:El0; [by apply elem_of_nil in Hb|].
    simpl in Hb. destruct (d0 !! body) eqn:Eb; [|by apply elem_of_nil in Hb].
    apply lookup_lt_Some in Eb. lia. }
  rewrite (ancestors_aux_prefix d0 D (length d0) k body Hpre);
    [|by apply forest_rooted|lia].
  apply bool_decide_eq_true. apply list_elem_of_further.
  unfold connected, ancestors in Hb. by apply bool_decide_eq_true in Hb.
Qed.

Lemma container_id_nonempty position : container_id position ≠ "".
Proof. done. Qed.

(** In a table that holds the container, [getElementById] finds it. *)
Lemma holds_container_lookup d0 id c D :
  id ≠ "" → page_ok d0 → holds_container d0 id c D →
  getElementById id D = Some c.
Proof.
  intros Hid Hok (Hpre & Hc & Hanon & Hold & Hnew).
  pose proof Hok as [Hf Hb].
  unfold getElementById. rewrite bool_decide_eq_false_2 by done.
  apply find_seq_Some. split; [lia|].
  assert (Hsame : ∀ i, (i < length d0)%nat →
            connected D i && has_id id D i
            = connected d0 i && has_id id d0 i).
  { intros i Hi.
    by rewrite (connected_prefix d0 D i), (has_id_prefix id d0 D i). }
  assert (Hanon' : ∀ i, (length d0 ≤ i)%nat → i ≠ c →
            connected D i && has_id id D i = false).
  { intros i Hi Hne. unfold has_id.
    destruct (D !! i) as [nd|] eqn:E; [|apply andb_false_r].
    rewrite (Hanon i nd Hi Hne E).
    rewrite bool_decide_eq_false_2 by done. apply andb_false_r. }
  destruct (decide (c < length d0)%nat) as [Hlt|Hge].
  - specialize (Hold Hlt). unfold getElementById in Hold.
    rewrite bool_decide_eq_false_2 in Hold by done.
    apply find_seq_Some in Hold as (_ & Hp & Hbefore).
    split; [by rewrite Hsame|].
    intros i Hi. rewrite Hsame by lia. apply Hbefore. lia.
  - destruct (Hnew ltac:(lia)) as (Hnone & nd & E & Hidc & Hpar).
    unfold getElementById in Hnone.
    rewrite bool_decide_eq_false_2 in Hnone by done.
    split.
    + rewrite (connected_under_body d0 D c nd) by (done || lia).
      unfold has_id. rewrite E. by apply bool_decide_eq_true.
    + intros i Hi. destruct (decide (i < length d0)%nat) as [Hi0|Hi0].
      * rewrite Hsame by done.
        apply (proj1 (find_seq_None _ _ _) Hnone). lia.
      * apply Hanon'; lia.
Qed.

End growth.

Section stability.
Implicit Types (d D : dom) (Q : dom → Prop).

Lemma prefix_alter d D f i :
  d `prefix_of` D → (length d ≤ i)%nat → d `prefix_of` alter f i D.
Proof.
  intros [E ->] Hi. rewrite alter_app_r_alt by done. by eexists.
Qed.

Lemma lookup_snoc_blank D i nd :
  (D ++ [blank]) !! i = Some nd → D !! i = Some nd ∨ nd = blank.
Proof.
  intros [H|[_ H]]%lookup_app_Some; [by left|right].
  destruct (i - length D)%nat; simpl in H; [congruence|done].
Qed.

Lemma prefix_stable d : stable_from (length d) (λ D, d `prefix_of` D).
Proof.
  split; [|split].
  - intros D. apply prefix_length.
  - intros D H. by apply prefix_app_r.
  - intros D f i H Hi _. by apply prefix_alter.
Qed.

Lemma fresh_rows_stable d : stable_from (length d) (fresh_rows d).
Proof.
  split; [|split].
  - intros D [H _]. by apply prefix_length.
  - intros D [Hpre Han]. split; [by apply prefix_app_r|].
    intros i nd Hi [E| ->]%lookup_snoc_blank; [by eapply Han|done].
  - intros D f i [Hpre Han] Hi Hf. split; [by apply prefix_alter|].
    intros j nd Hj E. destruct (decide (i = j)) as [->|Hne].
    + rewrite list_lookup_alter_eq in E.
      destruct (D !! j) as [nd0|] eqn:E0; [|done].
      injection E as <-. rewrite Hf. by eapply Han.
    + rewrite list_lookup_alter_ne in E by done. by eapply Han.
Qed.


Lemma stable_from_and M Q1 Q2 :
  stable_from M Q1 → stable_from M Q2 → stable_from M (λ D, Q1 D ∧ Q2 D).
Proof.
  intros (A1 & B1 & C1) (A2 & B2 & C2). split; [|split].
  - intros D [H _]. by apply A1.
  - intros D [H1 H2]. split; [by apply B1|by apply B2].
  - intros D f i [H1 H2] Hi Hf. split; [by apply C1|by apply C2].
Qed.

Lemma keeps_id_set_classes g : keeps_id (set_classes g).
Proof. done. Qed.
Lemma keeps_id_set_text t : keeps_id (set_text t).
Proof. done. Qed.
Lemma keeps_id_set_parent p : keeps_id (set_parent p).
Proof. done. Qed.
Lemma keeps_id_aria_label v : keeps_id (setAttribute "aria-label" v).
Proof. intros nd. simpl. by rewrite lookup_insert_ne. Qed.

(** What [notify_build] does to the world: it allocates the notification
    at the end of the table, keeps every stable property of the table,
    leaves the rows that existed and everything but the table alone. *)
Lemma notify_build_spec M Q message config s :
  stable_from M Q → Q (nodes s) →
  let r := notify_build message config s in
  r.1 = length (nodes s)
  ∧ Q (nodes r.2)
  ∧ (r.1 < length (nodes r.2))%nat
  ∧ nodes s `prefix_of` nodes r.2
  ∧ timers r.2 = timers s ∧ clock r.2 = clock s.
Proof.
  intros HQ H0 r.
  assert (HM : (M ≤ length (nodes s))%nat) by by apply HQ.
  assert (HS : stable_from (length (nodes s))
                 (λ D, Q D ∧ nodes s `prefix_of` D)).
  { destruct HQ as (A1 & B1 & C1).
    destruct (prefix_stable (nodes s)) as (A2 & B2 & C2).
    split; [|split].
    - intros D [_ H]. by apply A2.
    - intros D [H1 H2]. split; [by apply B1|by apply B2].
    - intros D f i [H1 H2] Hi Hf. split; [apply C1; [done|lia|done]|].
      by apply C2. }
  destruct HS as (A & B & C).
  assert (H1 : Q (nodes s) ∧ nodes s `prefix_of` nodes s) by done.
  subst r. unfold notify_build, create, createElement, on_node, appendChild.
  destruct (cfg_dismissible config);
    cbn [nodes upd_nodes snd fst timers clock];
    set (n := length (nodes s));
    set (D1 := alter _ n (nodes s ++ [blank]));
    (assert (Q1 : Q D1 ∧ nodes s `prefix_of` D1)
      by (apply C; [by apply B|done|done]));
    set (D2 := alter _ (length D1) (alter _ (length D1) (D1 ++ [blank])));
    (assert (Q2 : Q D2 ∧ nodes s `prefix_of` D2)
      by (pose proof (A _ Q1); apply C; [|lia|done];
          apply C; [by apply B|lia|done]));
    (assert (Hn : (n < length D1)%nat)
      by (subst D1; rewrite length_alter, length_app; simpl; lia)).
  - set (D3 := alter _ n (alter _ (length D2) (alter _ (length D2)
                 (alter _ (length D2) (alter _ (length D2) (D2 ++ [blank])))))).
    assert (Q3 : Q D3 ∧ nodes s `prefix_of` D3).
    { pose proof (A _ Q2). apply C; [|done|done].
      apply C; [|lia|done]. apply C; [|lia|done].
      apply C; [|lia|apply keeps_id_aria_label].
      apply C; [by apply B|lia|done]. }
    split; [done|]. split; [apply Q3|]. split; [|split; [apply Q3|done]].
    subst D3 D2. repeat (rewrite length_alter || rewrite length_app).
    simpl. lia.
  - set (D3 := alter _ n D2).
    assert (Q3 : Q D3 ∧ nodes s `prefix_of` D3).
    { apply C; [done|done|done]. }
    split; [done|]. split; [apply Q3|]. split; [|split; [apply Q3|done]].
    subst D3 D2. repeat (rewrite length_alter || rewrite length_app).
    simpl. lia.
Qed.

End stability.

Section notify_facts.
Implicit Types (d D : dom) (s : state).

Lemma detach_children_childless el d :
  childless el d → detach_children el d = d.
Proof.
  intros H. unfold detach_children. apply list_eq. intros i.
  rewrite list_lookup_fmap. destruct (d !! i) as [nd|] eqn:E; [|done].
  simpl. by rewrite bool_decide_eq_false_2 by by eapply H.
Qed.

Lemma set_textContent_childless el t d :
  childless el d → set_textContent el t d = alter (set_text t) el d.
Proof. intros H. unfold set_textContent. by rewrite detach_children_childless. Qed.

Lemma closed_childless d el : closed d → (length d ≤ el)%nat → childless el d.
Proof. intros Hc Hel i nd E [= Hp]. pose proof (Hc i nd el E Hp). lia. Qed.

Lemma childless_snoc el d nd :
  childless el d → parentNode nd ≠ Some el → childless el (d ++ [nd]).
Proof.
  intros H Hnd i x [E|[_ E]]%lookup_app_Some; [by eapply H|].
  destruct (i - length d)%nat; simpl in E; [by injection E as <-|done].
Qed.

Lemma childless_alter el d f i :
  childless el d →
  (∀ nd, parentNode nd ≠ Some el → parentNode (f nd) ≠ Some el) →
  childless el (alter f i d).
Proof.
  intros H Hf j x E. destruct (decide (i = j)) as [->|Hne].
  - rewrite list_lookup_alter_eq in E.
    destruct (d !! j) as [nd|] eqn:Ej; [|done]. injection E as <-.
    apply Hf. by eapply H.
  - rewrite list_lookup_alter_ne in E by done. by eapply H.
Qed.

Lemma forest_closed d : forest d = true → closed d.
Proof.
  intros Hf i nd p E Hp.
  pose proof (lookup_lt_Some _ _ _ E) as Hi.
  unfold forest in Hf. rewrite forallb_forall in Hf.
  assert (Hin : In i (seq 0 (length d))) by (apply in_seq; lia).
  specialize (Hf i Hin). clear Hin.
  destruct (length d) as [|k] eqn:El; [lia|]. simpl in Hf.
  rewrite E, Hp in Hf.
  destruct (decide (p < S k)%nat) as [|Hge]; [done|].
  rewrite <- El in Hge.
  assert (d !! p = None) as Hnone by (apply lookup_ge_None; lia).
  destruct k; simpl in Hf; [done|]. by rewrite Hnone in Hf.
Qed.

Lemma closed_snoc d nd :
  closed d → (∀ p, parentNode nd = Some p → (p ≤ length d)%nat) →
  closed (d ++ [nd]).
Proof.
  intros H Hnd i x p [E|[_ E]]%lookup_app_Some Hp; rewrite length_app; simpl.
  - pose proof (H i x p E Hp). lia.
  - destruct (i - length d)%nat; simpl in E; [|done]. injection E as <-.
    pose proof (Hnd p Hp). lia.
Qed.

Lemma closed_alter d f i :
  closed d →
  (∀ nd p, parentNode (f nd) = Some p →
           parentNode nd = Some p ∨ (p < length d)%nat) →
  closed (alter f i d).
Proof.
  intros H Hf j x p E Hp. rewrite length_alter.
  destruct (decide (i = j)) as [->|Hne].
  - rewrite list_lookup_alter_eq in E.
    destruct (d !! j) as [nd|] eqn:Ej; [|done]. injection E as <-.
    destruct (Hf nd p Hp) as [Hp'|]; [by eapply H|done].
  - rewrite list_lookup_alter_ne in E by done. by eapply H.
Qed.

Lemma upd_nodes_textContent el t s :
  childless el (nodes s) →
  upd_nodes (set_textContent el t) s = upd_nodes (alter (set_text t) el) s.
Proof. intros H. unfold upd_nodes. by rewrite set_textContent_childless. Qed.

(** On a closed table, [notify] is [notify_build] followed by the class
    token test, the container and the timer. *)
Lemma notify_unfold message opts s :
  closed (nodes s) →
  notify message opts s
  = let config := notify_merge opts in
    let r := notify_build message config s in
    if valid_token ("notification-" +:+ cfg_position config) then
      match getNotificationContainer (cfg_position config) r.2 with
      | None => None
      | Some (container, s1) =>
          let s2 := upd_nodes (appendChild container r.1) s1 in
          Some (r.1,
                if 0 <? cfg_duration config
                then setTimeout (NotifyExpire r.1) (cfg_duration config) s2
                else s2)
      end
    else None.
Proof.
  intros Hc. unfold notify, notify_build, create, createElement, on_node.
  cbn [nodes upd_nodes fst snd].
  set (n := length (nodes s)).
  set (D1 := alter _ n (nodes s ++ [blank])).
  assert (H1 : childless (length D1) (D1 ++ [blank])).
  { apply childless_snoc; [|done]. apply childless_alter; [|done].
    apply childless_snoc; [|done]. apply closed_childless; [done|].
    subst D1. rewrite length_alter, length_app. lia. }
  rewrite ?(set_textContent_childless _ _ _ H1).
  rewrite (upd_nodes_textContent (length D1) message) by exact H1.
  destruct (cfg_dismissible (notify_merge opts)); [|done].
  set (D2 := appendChild n (length D1) _).
  rewrite (upd_nodes_textContent (length D2) times_sign); [done|].
  cbn [nodes upd_nodes]. fold D1. fold D2.
  assert (Hn : (n < length D2)%nat).
  { subst D2 D1 n. unfold appendChild.
    repeat (rewrite length_alter || rewrite length_app). simpl. lia. }
  do 2 (apply childless_alter; [|done]).
  apply childless_snoc; [|done]. subst D2. unfold appendChild in *.
  apply childless_alter; [|simpl; intros nd _ [= E]; lia].
  apply childless_alter; [|done].
  apply childless_snoc; [|done]. apply childless_alter; [|done].
  apply childless_snoc; [|done]. apply closed_childless; [done|].
  subst D1 n. repeat (rewrite length_alter || rewrite length_app). simpl. lia.
Qed.

Lemma document_body_prefix d D :
  document_body d = Some body → d `prefix_of` D →
  document_body D = Some body.
Proof.
  intros (_ & nd & E & Hp)%document_body_Some Hpre. unfold document_body.
  rewrite (prefix_lookup_Some _ _ _ _ E Hpre).
  by rewrite bool_decide_eq_true_2.
Qed.

(** Rows without an [id] do not change what [getElementById] finds. *)
Lemma getElementById_fresh d D id :
  forest d = true → fresh_rows d D →
  getElementById id D = getElementById id d.
Proof.
  intros Hf [Hpre Han]. unfold getElementById. case_bool_decide; [done|].
  assert (Hsame : ∀ i, (i < length d)%nat →
            connected D i && has_id id D i = connected d i && has_id id d i).
  { intros i Hi.
    by rewrite (connected_prefix d D i), (has_id_prefix id d D i). }
  assert (Hnew : ∀ i, (length d ≤ i)%nat →
            connected D i && has_id id D i = false).
  { intros i Hi. unfold has_id.
    destruct (D !! i) as [nd|] eqn:E; [|apply andb_false_r].
    rewrite (Han i nd Hi E), bool_decide_eq_false_2 by done.
    apply andb_false_r. }
  pose proof (prefix_length _ _ Hpre) as Hlen.
  destruct (List.find _ (seq 0 (length d))) as [c|] eqn:E.
  - apply find_seq_Some in E as (Hc & Hp & Hb). apply find_seq_Some.
    split; [lia|]. split; [by rewrite Hsame by lia|].
    intros i Hi. rewrite Hsame by lia. by apply Hb.
  - apply find_seq_None. intros i Hi.
    destruct (decide (i < length d)%nat).
    + rewrite Hsame by done. apply (proj1 (find_seq_None _ _ _) E). lia.
    + apply Hnew. lia.
Qed.

Lemma getElementById_lt id d c :
  getElementById id d = Some c → (c < length d)%nat.
Proof.
  unfold getElementById. case_bool_decide; [done|].
  intros Hc%find_seq_Some. lia.
Qed.

Lemma holds_container_alter d id c D f i :
  holds_container d id c D → (length d ≤ i)%nat → i ≠ c → keeps_id f →
  holds_container d id c (alter f i D).
Proof.
  intros (Hpre & Hlen & Han & Hold & Hnew) Hi Hic Hf.
  split; [by apply prefix_alter|].
  split; [by rewrite length_alter|]. split; [|split; [done|]].
  - intros j nd Hj Hne E. destruct (decide (i = j)) as [->|Hij].
    + rewrite list_lookup_alter_eq in E.
      destruct (D !! j) as [nd0|] eqn:E0; [|done].
      injection E as <-. rewrite Hf. by eapply Han.
    + rewrite list_lookup_alter_ne in E by done. by eapply Han.
  - intros Hge. destruct (Hnew Hge) as (Hnone & nd & E & Hid & Hp).
    split; [done|]. exists nd. split; [|done].
    by rewrite list_lookup_alter_ne.
Qed.

Lemma getNotificationContainer_found position s c :
  getElementById (container_id position) (nodes s) = Some c →
  getNotificationContainer position s = Some (c, s).
Proof. intros H. unfold getNotificationContainer. fold (container_id position). by rewrite H. Qed.

(** On a page extended by rows without ids, the container is found or
    created, and afterwards the table holds it. *)
Lemma getNotificationContainer_spec d position s :
  page_ok d → fresh_rows d (nodes s) →
  ∃ c s', getNotificationContainer position s = Some (c, s')
          ∧ holds_container d (container_id position) c (nodes s')
          ∧ nodes s `prefix_of` nodes s'
          ∧ ((c < length d)%nat ∨ c = length (nodes s))
          ∧ timers s' = timers s ∧ clock s' = clock s.
Proof.
  intros [Hf Hb] Hfresh. pose proof Hfresh as [Hpre Han].
  pose proof (getElementById_fresh d (nodes s) (container_id position) Hf Hfresh)
    as Hget.
  destruct (getElementById (container_id position) (nodes s)) as [c|] eqn:E.
  - exists c, s. split; [by apply getNotificationContainer_found|].
    pose proof (getElementById_lt _ _ _ (eq_sym Hget)) as Hc.
    split; [|split; [done|split; [by left|done]]].
    split; [done|]. split; [by apply prefix_length in Hpre; lia|].
    split; [|split; [done|lia]].
    intros i nd Hi _ Ei. by eapply Han.
  - unfold getNotificationContainer. fold (container_id position).
    rewrite E. unfold create, createElement, on_node, appendChild.
    cbn [nodes upd_nodes snd fst].
    set (c := length (nodes s)).
    set (D1 := alter _ c (alter _ c (nodes s ++ [blank]))).
    assert (Hpre1 : d `prefix_of` D1).
    { pose proof (prefix_length _ _ Hpre).
      do 2 (apply prefix_alter; [|subst c; lia]). by apply prefix_app_r. }
    rewrite (document_body_prefix d D1 Hb Hpre1).
    eexists c, _. split; [done|]. cbn [nodes upd_nodes timers clock].
    assert (Hrow : alter (set_parent (Some body)) c D1 !! c
                   = Some (set_parent (Some body)
                             (set_className
                                ("notifications notifications-" +:+ position)
                                (setAttribute "id" (container_id position)
                                   blank)))).
    { subst D1. rewrite !list_lookup_alter_eq.
      subst c. by rewrite list_lookup_middle. }
    assert (Hother : ∀ i, i ≠ c →
              alter (set_parent (Some body)) c D1 !! i
              = (nodes s ++ [blank]) !! i).
    { intros i Hi. subst D1. by rewrite !list_lookup_alter_ne. }
    split; [|split; [|split; [by right|done]]].
    + split.
      { pose proof (prefix_length _ _ Hpre).
        apply prefix_alter; [done|subst c; lia]. }
      split.
      { subst D1. rewrite !length_alter, length_app. simpl. subst c. lia. }
      split; [|split].
      * intros i nd Hi Hne Ei. rewrite Hother in Ei by done.
        apply lookup_snoc_blank in Ei as [Ei| ->]; [by eapply Han|done].
      * intros Hlt. apply prefix_length in Hpre. subst c. lia.
      * intros _. split; [by rewrite <- Hget|].
        eexists. split; [exact Hrow|]. split; [|done].
        simpl. apply lookup_insert_eq.
    + pose proof (prefix_stable (nodes s)) as (_ & PB & _).
      do 3 (apply prefix_alter; [|subst c; lia]). by apply prefix_app_r.
Qed.

End notify_facts.

Section notify_calls.
Implicit Types (d D : dom) (s : state).

Lemma alter_at_length (f : node → node) d k :
  alter f (length d) (d ++ k) = d ++ alter f 0%nat k.
Proof. by rewrite <- (Nat.add_0_r (length d)), alter_app_r. Qed.

Lemma notify_build_rows message config s :
  nodes (notify_build message config s).2
  = nodes s ++ built (length (nodes s)) message config.
Proof.
  unfold notify_build, built, create, createElement, on_node, appendChild.
  destruct (cfg_dismissible config); cbn [nodes upd_nodes snd fst];
    repeat first
      [ rewrite length_alter | rewrite length_app | rewrite <- Nat.add_assoc
      | rewrite <- app_assoc | rewrite alter_at_length | rewrite alter_app_r
      | progress cbn [length app alter list_alter Nat.add] ];
    done.
Qed.

Lemma built_lookup message config s i :
  (nodes s ++ built (length (nodes s)) message config)
    !! (length (nodes s) + i)%nat
  = built (length (nodes s)) message config !! i.
Proof. rewrite lookup_app_r by lia. f_equal. lia. Qed.

Lemma built_length n message config :
  length (built n message config)
  = if cfg_dismissible config then 3%nat else 2%nat.
Proof. unfold built. by destruct (cfg_dismissible config). Qed.

Lemma getNotificationContainer_length position s c s' :
  getNotificationContainer position s = Some (c, s') →
  (length (nodes s') ≤ S (length (nodes s)))%nat
  ∧ (length (nodes s') = S (length (nodes s)) → c = length (nodes s)).
Proof.
  unfold getNotificationContainer, create, createElement, on_node, appendChild.
  destruct (getElementById _ _).
  - intros [= -> ->]. split; lia.
  - cbn [nodes upd_nodes snd fst]. destruct (document_body _); [|done].
    intros [= <- <-]. cbn [nodes upd_nodes].
    rewrite !length_alter, length_app. simpl. split; [lia|done].
Qed.

Lemma built_closed d message config :
  closed d → closed (d ++ built (length d) message config).
Proof.
  intros Hc. unfold built.
  assert (H2 : closed ((d ++ [notification_el config])
                       ++ [message_el (length d) message])).
  { apply closed_snoc; [by apply closed_snoc|].
    simpl. intros p [= <-]. rewrite length_app. lia. }
  destruct (cfg_dismissible config).
  - replace (d ++ [notification_el config; message_el (length d) message;
                   close_el (length d)])
      with (((d ++ [notification_el config])
             ++ [message_el (length d) message]) ++ [close_el (length d)])
      by by rewrite <- !app_assoc.
    apply closed_snoc; [done|].
    simpl. intros p [= <-]. rewrite !length_app. lia.
  - by rewrite <- app_assoc in H2.
Qed.

Lemma getNotificationContainer_closed position s c s' :
  closed (nodes s) → (body < length (nodes s))%nat →
  getNotificationContainer position s = Some (c, s') →
  closed (nodes s').
Proof.
  intros Hc Hb.
  unfold getNotificationContainer, create, createElement, on_node, appendChild.
  destruct (getElementById _ _).
  - by intros [= _ <-].
  - cbn [nodes upd_nodes snd fst]. destruct (document_body _) as [b|] eqn:Eb;
      [|done].
    intros [= _ <-]. cbn [nodes upd_nodes].
    assert (b = body) as ->.
    { unfold document_body in Eb. destruct (_ !! body); [|done].
      destruct (bool_decide _); by simplify_eq. }
    apply closed_alter.
    2:{ simpl. intros nd p [= <-]. right.
        rewrite !length_alter, length_app. lia. }
    do 2 (apply closed_alter; [|by left]).
    by apply closed_snoc.
Qed.

(** The timers after a [notify] with resolved duration [dur]. *)
Let expiry (dur : Z) (n : nat) (s : state) : list (Z * task) :=
  timers s ++ (if 0 <? dur
               then [(clock s + timeout_ms dur, NotifyExpire n)] else []).

Lemma notify_tail d id c n dur sb sc :
  holds_container d id c (nodes sc) →
  nodes sb `prefix_of` nodes sc →
  (length d ≤ n)%nat → n ≠ c → (n < length (nodes sb))%nat →
  let s2 := upd_nodes (appendChild c n) sc in
  let s' := if 0 <? dur then setTimeout (NotifyExpire n) dur s2 else s2 in
  holds_container d id c (nodes s')
  ∧ parent_of n s' = Some c
  ∧ nodes s' = alter (set_parent (Some c)) n (nodes sc)
  ∧ timers s' = expiry dur n sc
  ∧ clock s' = clock sc.
Proof.
  intros Hh Hpre Hn Hnc Hlt s2 s'.
  assert (Hnodes : nodes s' = alter (set_parent (Some c)) n (nodes sc)).
  { subst s' s2. by destruct (0 <? dur). }
  split; [|split; [|split; [done|split]]].
  - rewrite Hnodes. by apply holds_container_alter.
  - unfold parent_of. rewrite Hnodes, list_lookup_alter_eq.
    apply prefix_length in Hpre.
    destruct (lookup_lt_is_Some_2 (nodes sc) n) as [nd ->]; [lia|done].
  - subst s' s2. unfold expiry. destruct (0 <? dur); simpl; [done|].
    by rewrite app_nil_r.
  - subst s' s2. by destruct (0 <? dur).
Qed.

(** What a [notify] leaves, given the container that
    [getNotificationContainer] returns for the table that [notify_build]
    made. *)
Lemma notify_given d message opts s c sc :
  closed (nodes s) → (body < length (nodes s))%nat →
  (length d ≤ length (nodes s))%nat →
  let config := notify_merge opts in
  let position := cfg_position config in
  let r := notify_build message config s in
  valid_token ("notification-" +:+ position) = true →
  getNotificationContainer position r.2 = Some (c, sc) →
  holds_container d (container_id position) c (nodes sc) →
  nodes r.2 `prefix_of` nodes sc →
  c ≠ length (nodes s) →
  timers sc = timers r.2 → clock sc = clock r.2 →
  ∃ s',
    notify message opts s = Some (length (nodes s), s')
    ∧ holds_container d (container_id position) c (nodes s')
    ∧ parent_of (length (nodes s)) s' = Some c
    ∧ nodes s `prefix_of` nodes s'
    ∧ timers s' = expiry (cfg_duration config) (length (nodes s)) s
    ∧ clock s' = clock s
    ∧ closed (nodes s')
    ∧ nodes s' = alter (set_parent (Some c)) (length (nodes s)) (nodes sc)
    ∧ nodes s' !! length (nodes s)
      = Some (set_parent (Some c) (notification_el config)).
Proof.
  intros Hcl Hb Hd config position r Hv Hg Hh Hpre' Hne Ht' Hc'.
  rewrite notify_unfold by done. cbv zeta. fold config position.
  rewrite Hv. fold r. rewrite Hg.
  pose proof (notify_build_rows message config s) as Hrows. fold r in Hrows.
  destruct (notify_build_spec (length (nodes s))
              (λ D, nodes s `prefix_of` D) message config s
              (prefix_stable _)) as (Hn & Hpre & Hlt & _ & Ht & Hc); [done|].
  fold r in Hn, Hpre, Hlt, Ht, Hc.
  destruct (notify_tail d (container_id position) c r.1
              (cfg_duration config) r.2 sc)
    as (H1 & H2 & H3 & H4 & H5); [done|done|lia|lia|done|].
  rewrite Hn in *.
  eexists. split; [done|]. split; [exact H1|]. split; [exact H2|].
  assert (Hclosed : closed (nodes sc)).
  { apply (getNotificationContainer_closed position r.2 c sc); [|..|done].
    - rewrite Hrows. by apply built_closed.
    - apply prefix_length in Hpre. lia. }
  assert (Hcl' : (c < length (nodes sc))%nat) by apply Hh.
  split; [|split; [|split; [congruence|split; [|split; [done|]]]]].
  - rewrite H3. apply prefix_alter; [by etrans|lia].
  - rewrite H4. unfold expiry. by rewrite Ht', Ht, Hc', Hc.
  - rewrite H3. apply closed_alter; [done|].
    simpl. intros nd p [= <-]. by right.
  - rewrite H3, list_lookup_alter_eq.
    rewrite (prefix_lookup_Some (nodes r.2) _ _ (notification_el config));
      [done| |done].
    rewrite Hrows.
    pose proof (built_lookup message config s 0) as E.
    rewrite Nat.add_0_r in E. by rewrite E.
Qed.

(** A first [notify] on a page. *)
Lemma notify_first message opts s :
  page_ok (nodes s) →
  let config := notify_merge opts in
  let position := cfg_position config in
  valid_token ("notification-" +:+ position) = true →
  ∃ n s' c,
    notify message opts s = Some (n, s')
    ∧ n = length (nodes s)
    ∧ holds_container (nodes s) (container_id position) c (nodes s')
    ∧ parent_of n s' = Some c
    ∧ nodes s `prefix_of` nodes s'
    ∧ timers s' = expiry (cfg_duration config) n s
    ∧ clock s' = clock s
    ∧ closed (nodes s')
    ∧ nodes s' !! n = Some (set_parent (Some c) (notification_el config)).
Proof.
  intros Hok config position Hv.
  assert (Hcl : closed (nodes s)) by apply forest_closed, Hok.
  assert (Hb : (body < length (nodes s))%nat).
  { destruct Hok as [_ (_ & nd & E & _)%document_body_Some].
    by apply lookup_lt_Some in E. }
  destruct (notify_build_spec (length (nodes s)) (fresh_rows (nodes s))
              message config s (fresh_rows_stable _))
    as (Hn & Hfresh & Hlt & Hpre & Ht & Hc).
  { split; [done|]. intros i nd Hi E. apply lookup_lt_Some in E. lia. }
  set (r := notify_build message config s) in *.
  destruct (getNotificationContainer_spec (nodes s) position r.2 Hok Hfresh)
    as (c & sc & Hg & Hh & Hpre' & Hcase & Ht' & Hc').
  destruct (notify_given (nodes s) message opts s c sc)
    as (s' & G1 & G2 & G3 & G4 & G5 & G6 & G7 & _ & G9);
    try done.
  { apply prefix_length in Hpre. lia. }
  by exists (length (nodes s)), s', c.
Qed.



End notify_calls.



(* ===================================================================== *)
(** ** Timers *)
(* ===================================================================== *)

Section timers.
Implicit Types (s : state) (q : list (Z * task)) (tk : task).

Lemma pick_None q : pick q = None → q = [].
Proof.
  destruct q as [|x r]; [done|]. simpl.
  destruct (pick r) as [[y r']|]; [|done]. by destruct (y.1 <? x.1).
Qed.

Lemma pick_Some q x rest :
  pick q = Some (x, rest) →
  (∀ y, y ∈ q ↔ y = x ∨ y ∈ rest)
  ∧ (∀ y, y ∈ q → x.1 ≤ y.1)
  ∧ budget q = (weight x.2 + budget rest)%nat.
Proof.
  revert x rest. induction q as [|a r IH]; intros x rest; [done|]. simpl.
  destruct (pick r) as [[y r']|] eqn:E.
  - destruct (IH y r' eq_refl) as (Hmem & Hmin & Hb).
    destruct (y.1 <? a.1) eqn:Hlt; intros [= <- <-].
    + apply Z.ltb_lt in Hlt. split; [|split].
      * intros z. rewrite !elem_of_cons, Hmem. tauto.
      * intros z [->|Hz]%elem_of_cons; [lia|by apply Hmin].
      * simpl. rewrite Hb. lia.
    + apply Z.ltb_ge in Hlt. split; [|split].
      * intros z. by rewrite !elem_of_cons.
      * intros z [->|Hz]%elem_of_cons; [lia|].
        pose proof (Hmin z Hz). lia.
      * done.
  - apply pick_None in E as ->. intros [= <- <-]. split; [|split].
    + intros z. by rewrite !elem_of_cons.
    + intros z [->|Hz]%elem_of_cons; [lia|by apply elem_of_nil in Hz].
    + done.
Qed.

Lemma fire_timers tk s : timers (fire tk s) = timers s ++ spawned tk s.
Proof.
  destruct tk as [| | | | el | |? cb|? cb|? cb|? cb]; simpl;
    rewrite ?app_nil_r; try done; try (by destruct cb).
  unfold parent_of. destruct (nodes s !! el ≫= parentNode); simpl; [done|].
  by rewrite app_nil_r.
Qed.

Lemma fire_clock tk s : clock (fire tk s) = clock s.
Proof.
  destruct tk as [| | | | el | |? cb|? cb|? cb|? cb]; simpl;
    try done; try (by destruct cb).
  by destruct (nodes s !! el ≫= parentNode).
Qed.

Lemma fire_other tk s n :
  task_target tk ≠ Some n → nodes (fire tk s) !! n = nodes s !! n.
Proof.
  intros Hn.
  assert (Hne : ∀ el, task_target tk = Some el → el ≠ n) by congruence.
  destruct tk as [el|el|el|el c|el|cb|el cb|el cb|el cb|el cb]; simpl in *;
    try specialize (Hne el eq_refl);
    try (destruct cb); unfold remove, on_node; simpl;
    rewrite ?list_lookup_alter_ne by done; try done.
  destruct (nodes s !! el ≫= parentNode); simpl;
    rewrite ?list_lookup_alter_ne by done; done.
Qed.

Lemma parent_of_alter_keeps f i n s :
  keeps_parent f → parent_of n (on_node i f s) = parent_of n s.
Proof.
  intros Hf. unfold parent_of, on_node. simpl.
  destruct (decide (i = n)) as [->|Hne].
  - rewrite list_lookup_alter_eq. destruct (nodes s !! n); simpl; [|done].
    by rewrite Hf.
  - by rewrite list_lookup_alter_ne.
Qed.

Lemma parent_of_call_if cb n s : parent_of n (call_if cb s) = parent_of n s.
Proof. by destruct cb. Qed.

(** Only [AlertRemove] changes a parent, and it clears it. *)
Lemma fire_parent tk s n :
  tk ≠ AlertRemove n → parent_of n (fire tk s) = parent_of n s.
Proof.
  intros Hn.
  destruct tk as [el|el|el|el c|el|cb|el cb|el cb|el cb|el cb]; simpl;
    rewrite ?parent_of_call_if, ?parent_of_alter_keeps by done; try done.
  - unfold parent_of, remove. simpl.
    rewrite list_lookup_alter_ne by congruence. done.
  - destruct (nodes s !! el ≫= parentNode); [|done].
    unfold dismissAlert, setTimeout.
    change (parent_of n (set_timers ?q ?x)) with (parent_of n x).
    by rewrite !parent_of_alter_keeps.
Qed.

Lemma fire_AlertRemove n s : parent_of n (fire (AlertRemove n) s) = None.
Proof.
  unfold parent_of. cbn [fire nodes upd_nodes]. unfold remove.
  rewrite list_lookup_alter_eq. by destruct (nodes s !! n).
Qed.

Lemma budget_app q1 q2 : budget (q1 ++ q2) = (budget q1 + budget q2)%nat.
Proof.
  induction q1 as [|x q1 IH]; simpl; [done|]. unfold budget in *. simpl.
  rewrite IH. lia.
Qed.

Lemma budget_spawned tk s : (budget (spawned tk s) + 1 ≤ weight tk)%nat.
Proof.
  destruct tk; simpl; try lia. destruct (parent_of _ _); simpl; lia.
Qed.

End timers.

Section scheduler.
Context (T : Z) (n : nat).
Implicit Types (s : state).

(** The state in which [run] fires the timer it picked. *)
Let before_fire (due : Z) (rest : list (Z * task)) (s : state) : state :=
  set_clock (Z.max (clock s) due) (set_timers rest s).

(** As long as no timer due by [T] works on [n], row [n] stays as it
    is. *)
Lemma run_keeps fuel s :
  (∀ due tk, (due, tk) ∈ timers s → task_target tk = Some n → T < due) →
  nodes (run fuel T s) !! n = nodes s !! n.
Proof.
  revert s. induction fuel as [|fuel IH]; intros s Hq; [done|]. simpl.
  destruct (pick (timers s)) as [[[due tk] rest]|] eqn:E; [|done].
  destruct (due <=? T) eqn:Hdue; [|done]. apply Z.leb_le in Hdue.
  destruct (pick_Some _ _ _ E) as (Hmem & _ & _).
  assert (Htk : task_target tk ≠ Some n).
  { intros Ht. pose proof (Hq due tk (proj2 (Hmem _) (or_introl eq_refl)) Ht).
    lia. }
  rewrite IH.
  - by rewrite fire_other.
  - intros due' tk' Hin Ht'. rewrite fire_timers in Hin.
    apply elem_of_app in Hin as [Hin|Hin].
    + apply (Hq due' tk'); [|done]. apply Hmem. by right.
    + exfalso. destruct tk; simpl in Hin; try (by apply elem_of_nil in Hin).
      destruct (parent_of _ _); [|by apply elem_of_nil in Hin].
      apply list_elem_of_singleton in Hin. injection Hin as -> ->.
      simpl in *. congruence.
Qed.

(** What makes the removal of [n] by time [T] certain: it is detached
    already, or its expiry is pending early enough, or its removal is
    pending. *)
Let doomed (s : state) : Prop :=
  parent_of n s = None
  ∨ (∃ due, (due, NotifyExpire n) ∈ timers s ∧ due + 300 ≤ T
            ∧ clock s ≤ due)
  ∨ (∃ due, (due, AlertRemove n) ∈ timers s ∧ due ≤ T).

Lemma doomed_fire due tk rest s :
  pick (timers s) = Some ((due, tk), rest) → due ≤ T →
  doomed s → doomed (fire tk (before_fire due rest s)).
Proof.
  intros E Hdue Hd. destruct (pick_Some _ _ _ E) as (Hmem & Hmin & _).
  set (s1 := before_fire due rest s).
  assert (Hrest : ∀ x, x ∈ rest → x ∈ timers (fire tk s1)).
  { intros x Hx. rewrite fire_timers. apply elem_of_app. by left. }
  destruct (decide (tk = AlertRemove n)) as [->|Hrm].
  { left. apply fire_AlertRemove. }
  destruct Hd as [Hnone|[(due' & Hin & Hle & Hck)|(due' & Hin & Hle)]].
  - left. by rewrite fire_parent.
  - pose proof (Hmin _ Hin) as Hmin'. simpl in Hmin'.
    destruct (decide (tk = NotifyExpire n)) as [->|Hex].
    + destruct (parent_of n s1) as [c|] eqn:Hp.
      * right. right. exists (clock s1 + 300). split.
        -- rewrite fire_timers. apply elem_of_app. right. simpl.
           rewrite Hp. by apply list_elem_of_singleton.
        -- subst s1. unfold before_fire. simpl. lia.
      * left. by rewrite fire_parent.
    + right. left. exists due'. split; [|split; [done|]].
      * apply Hrest. apply Hmem in Hin as [Heq|Hin]; [congruence|done].
      * rewrite fire_clock. subst s1. unfold before_fire. simpl. lia.
  - right. right. exists due'. split; [|done].
    apply Hrest. apply Hmem in Hin as [Heq|Hin]; [congruence|done].
Qed.

(** With fuel for every pending task, a doomed element is detached when
    the clock reaches [T]. *)
Lemma run_removes fuel s :
  (budget (timers s) < fuel)%nat → doomed s →
  parent_of n (run fuel T s) = None.
Proof.
  revert s. induction fuel as [|fuel IH]; intros s Hb Hd; [lia|]. simpl.
  assert (Hidle : (∀ due tk, (due, tk) ∈ timers s → T < due) →
                  parent_of n s = None).
  { intros Hlate.
    destruct Hd as [Hnone|[(due' & Hin & Hle & _)|(due' & Hin & Hle)]];
      [done|..]; pose proof (Hlate _ _ Hin); lia. }
  destruct (pick (timers s)) as [[[due tk] rest]|] eqn:E.
  - destruct (pick_Some _ _ _ E) as (Hmem & Hmin & Hbud).
    destruct (due <=? T) eqn:Hdue.
    + apply Z.leb_le in Hdue. apply IH.
      * rewrite fire_timers, budget_app. simpl.
        pose proof (budget_spawned tk
                      (set_clock (Z.max (clock s) due) (set_timers rest s))).
        simpl in Hbud. lia.
      * by apply (doomed_fire due tk rest s).
    + apply Z.leb_gt in Hdue. apply Hidle.
      intros due' tk' Hin. pose proof (Hmin _ Hin). simpl in *. lia.
  - apply pick_None in E. apply Hidle. intros due' tk' Hin.
    rewrite E in Hin. by apply elem_of_nil in Hin.
Qed.

End scheduler.


(* ===================================================================== *)
(** ** Sample runs *)
(* ===================================================================== *)

(** A page with one theme toggle button (row 2). *)
Example click_on_toggle_button :
  let page := world [elem None [] [] []; elem (Some 0%nat) [] [] [];
                     elem (Some 1%nat) [("data-theme-toggle", "")] [] []] in
  let s := new_UnifiedTheme default_options false page in
  getTheme s = "light"
  ∧ getTheme (click default_options 2 s) = "dark"
  ∧ getItem "unified-theme-mode" (click default_options 2 s) = Some "dark".
Proof. by vm_compute. Qed.

(** What the host keeps of class names, class tokens, inline lengths and
    timer delays. *)
Example host_conversions :
  classList (set_className "info  alert info" blank) = ["info"; "alert"]
  ∧ valid_token "notification-top-right" = true
  ∧ valid_token "top right" = false
  ∧ valid_token "" = false
  ∧ css_text "height" "0" = "0px"
  ∧ css_text "opacity" "0" = "0"
  ∧ timeout_ms 300 = 300
  ∧ timeout_ms (-5) = 0
  ∧ timeout_ms (2 ^ 31) = 0.
Proof. by vm_compute. Qed.

(** The default notification: the dismissal starts at 5000 ms, the node
    leaves its container (row 5) at 5300 ms. *)
Example notify_then_expire :
  ∃ s', notify "saved" no_options (world empty_page) = Some (2%nat, s')
        ∧ timers s' = [(5000, NotifyExpire 2)]
        ∧ timers (advance 5000 s') = [(5300, AlertRemove 2)]
        ∧ parent_of 2 (advance 5299 s') = Some 5%nat
        ∧ parent_of 2 (advance 5300 s') = None.
Proof. eexists. split; [by vm_compute|]. by vm_compute. Qed.

(* ===================================================================== *)
(** ** One timer on one element *)
(* ===================================================================== *)

Section one_timer.
Context (T : Z) (el : nat).
Implicit Types (s : state) (q : list (Z * task)) (tk : task).

Lemma pick_split q x rest :
  pick q = Some (x, rest) → ∃ a b, q = a ++ x :: b ∧ rest = a ++ b.
Proof.
  revert x rest. induction q as [|y r IH]; intros x rest; [done|]. simpl.
  destruct (pick r) as [[z r']|] eqn:E.
  - destruct (IH z r' eq_refl) as (a & b & -> & ->).
    destruct (z.1 <? y.1); intros [= <- <-].
    + by exists (y :: a), b.
    + by exists [], (a ++ z :: b).
  - apply pick_None in E as ->. intros [= <- <-]. by exists [], [].
Qed.

Lemma filter_none {A} (f : A → bool) (l : list A) :
  (∀ x, x ∈ l → f x = false) → List.filter f l = [].
Proof.
  induction l as [|x l IH]; intros H; [done|]. simpl.
  rewrite (H x) by apply list_elem_of_here. apply IH.
  intros y Hy. apply H. by apply list_elem_of_further.
Qed.

Lemma pick_filter q x rest :
  pick q = Some (x, rest) →
  ∃ a b, List.filter (targets el) q
         = List.filter (targets el) a
           ++ (if targets el x then [x] else [])
           ++ List.filter (targets el) b
         ∧ List.filter (targets el) rest
           = List.filter (targets el) a ++ List.filter (targets el) b.
Proof.
  intros (a & b & -> & ->)%pick_split. exists a, b.
  rewrite !List.filter_app. simpl. by destruct (targets el x).
Qed.

Lemma spawned_untargeted tk s x :
  task_target tk ≠ Some el → x ∈ spawned tk s → targets el x = false.
Proof.
  intros Htk Hx. destruct tk; simpl in *; try (by apply elem_of_nil in Hx).
  destruct (parent_of _ _); [|by apply elem_of_nil in Hx].
  apply list_elem_of_singleton in Hx as ->.
  apply bool_decide_eq_false. simpl. congruence.
Qed.

Lemma run_untimed fuel s :
  untimed el s →
  untimed el (run fuel T s) ∧ nodes (run fuel T s) !! el = nodes s !! el.
Proof.
  revert s. induction fuel as [|fuel IH]; intros s Hu; [done|]. simpl.
  destruct (pick (timers s)) as [[[due tk] rest]|] eqn:E; [|done].
  destruct (due <=? T); [|done].
  destruct (pick_Some _ _ _ E) as (Hmem & _ & _).
  assert (Htk : task_target tk ≠ Some el).
  { pose proof (Hu (due, tk) (proj2 (Hmem _) (or_introl eq_refl))) as H.
    by apply bool_decide_eq_false in H. }
  destruct (IH (fire tk (set_clock (Z.max (clock s) due) (set_timers rest s))))
    as [H1 H2].
  - intros x Hx. rewrite fire_timers in Hx.
    apply elem_of_app in Hx as [Hx|Hx].
    + apply Hu, Hmem. by right.
    + by eapply spawned_untargeted.
  - split; [done|]. by rewrite H2, fire_other.
Qed.

Lemma fire_invoked tk s :
  invoked (fire tk s)
  = invoked s ++ match task_callback tk with Some c => [c] | None => [] end.
Proof.
  destruct tk as [| | | | e | |? cb|? cb|? cb|? cb]; simpl;
    rewrite ?app_nil_r; try done; try (by destruct cb; simpl; rewrite ?app_nil_r).
  by destruct (nodes s !! e ≫= parentNode).
Qed.

Lemma run_invoked fuel s c : c ∈ invoked s → c ∈ invoked (run fuel T s).
Proof.
  revert s. induction fuel as [|fuel IH]; intros s Hc; [done|]. simpl.
  destruct (pick (timers s)) as [[[due tk] rest]|]; [|done].
  destruct (due <=? T); [|done]. apply IH. rewrite fire_invoked.
  apply elem_of_app. by left.
Qed.

Lemma run_clock fuel s :
  (budget (timers s) < fuel)%nat →
  clock (run fuel T s) = Z.max (clock s) T.
Proof.
  revert s. induction fuel as [|fuel IH]; intros s Hb; [lia|]. simpl.
  destruct (pick (timers s)) as [[[due tk] rest]|] eqn:E; [|done].
  destruct (pick_Some _ _ _ E) as (_ & _ & Hbud).
  destruct (due <=? T) eqn:Hdue; [|done]. apply Z.leb_le in Hdue.
  rewrite IH.
  - rewrite fire_clock. simpl. lia.
  - rewrite fire_timers, budget_app. simpl.
    pose proof (budget_spawned tk
                  (set_clock (Z.max (clock s) due) (set_timers rest s))).
    simpl in Hbud. lia.
Qed.

(** What a task other than [NotifyExpire] does to the row it works on. *)
Lemma fire_row tk s :
  task_target tk = Some el → (∀ e, tk ≠ NotifyExpire e) →
  nodes (fire tk s) !! el = task_effect tk <$> nodes s !! el
  ∧ spawned tk s = [].
Proof.
  intros Ht Hn.
  destruct tk as [e|e|e|e c|e|cb|e cb|e cb|e cb|e cb]; simpl in Ht;
    try discriminate Ht; injection Ht as ->;
    try (by destruct (Hn el));
    try (destruct cb); simpl; unfold remove, on_node; simpl;
    rewrite ?list_lookup_alter_eq, <- ?option_fmap_compose; done.
Qed.

(** The only pending timer on [el], due by [T], has fired when the clock
    reaches [T]: the row shows its effect, its callback has been called,
    and nothing is pending on [el] any more. *)
Lemma run_fires fuel s due tk :
  List.filter (targets el) (timers s) = [(due, tk)] →
  (∀ e, tk ≠ NotifyExpire e) → due ≤ T →
  (budget (timers s) < fuel)%nat →
  nodes (run fuel T s) !! el = task_effect tk <$> nodes s !! el
  ∧ untimed el (run fuel T s)
  ∧ ∀ c, task_callback tk = Some c → c ∈ invoked (run fuel T s).
Proof.
  intros Hf Hn Hdue. revert s Hf.
  induction fuel as [|fuel IH]; intros s Hf Hb; [lia|]. simpl.
  assert (Hin : (due, tk) ∈ timers s).
  { apply list_elem_of_In, (proj1 (filter_In (targets el) _ _)).
    rewrite Hf. by left. }
  assert (Htk : task_target tk = Some el).
  { assert (H : In (due, tk) (List.filter (targets el) (timers s)))
      by (rewrite Hf; by left).
    apply filter_In in H as [_ H]. by apply bool_decide_eq_true in H. }
  destruct (pick (timers s)) as [[[due' tk'] rest]|] eqn:E.
  2:{ apply pick_None in E. rewrite E in Hin. by apply elem_of_nil in Hin. }
  destruct (pick_Some _ _ _ E) as (Hmem & Hmin & Hbud).
  pose proof (Hmin _ Hin) as Hle. simpl in Hle.
  rewrite (proj2 (Z.leb_le due' T)) by lia.
  set (s1 := set_clock (Z.max (clock s) due') (set_timers rest s)).
  assert (Hb1 : (budget (timers (fire tk' s1)) < fuel)%nat).
  { rewrite fire_timers, budget_app.
    pose proof (budget_spawned tk' s1). simpl in Hbud. subst s1. simpl. lia. }
  destruct (pick_filter _ _ _ E) as (a & b & Hfl & Hfr).
  rewrite Hf in Hfl. destruct (targets el (due', tk')) eqn:Et.
  - assert (Ha : List.filter (targets el) a = []
                 ∧ List.filter (targets el) b = []
                 ∧ (due', tk') = (due, tk)).
    { destruct (List.filter (targets el) a) as [|y l]; simpl in Hfl.
      - injection Hfl as <- Hb'. by rewrite <- Hb'.
      - injection Hfl as _ Hl. by destruct l. }
    destruct Ha as (Ha & Hb' & [= -> ->]).
    destruct (fire_row tk s1 Htk Hn) as [Hrow Hsp].
    assert (Hu : untimed el (fire tk s1)).
    { intros x Hx. rewrite fire_timers, Hsp, app_nil_r in Hx.
      destruct (targets el x) eqn:Ex; [|done].
      assert (Hx' : In x (List.filter (targets el) rest)).
      { apply filter_In. split; [by apply list_elem_of_In|done]. }
      rewrite Hfr, Ha, Hb' in Hx'. done. }
    destruct (run_untimed fuel _ Hu) as [Hu' Hrow'].
    split; [by rewrite Hrow', Hrow|]. split; [done|].
    intros c Hc. apply run_invoked. rewrite fire_invoked, Hc.
    apply elem_of_app. right. by apply list_elem_of_singleton.
  - simpl in Hfl.
    assert (Ht' : task_target tk' ≠ Some el)
      by (by apply bool_decide_eq_false in Et).
    destruct (IH (fire tk' s1)) as (H1 & H2 & H3); [|done|].
    + rewrite fire_timers, List.filter_app. simpl.
      rewrite Hfr, <- Hfl.
      rewrite (filter_none _ (spawned tk' s1)), app_nil_r; [done|].
      intros x Hx. by apply (spawned_untargeted tk' s1 x).
    + split; [|done]. rewrite H1, fire_other by done. done.
Qed.

(** The only pending timer on [el], due by [T]: the run reaches a state
    in which the row is still as it was and nothing else is pending on
    [el], fires the task there, and goes on. *)
Lemma run_first fuel s due tk :
  List.filter (targets el) (timers s) = [(due, tk)] → due ≤ T →
  (budget (timers s) < fuel)%nat →
  ∃ s1 fuel1,
    run fuel T s = run fuel1 T (fire tk s1)
    ∧ nodes s1 !! el = nodes s !! el
    ∧ untimed el s1
    ∧ clock s1 = Z.max (clock s) due
    ∧ (budget (timers (fire tk s1)) < fuel1)%nat.
Proof.
  intros Hf Hdue. revert s Hf.
  induction fuel as [|fuel IH]; intros s Hf Hb; [lia|]. simpl.
  assert (Hin : (due, tk) ∈ timers s).
  { apply list_elem_of_In, (proj1 (filter_In (targets el) _ _)).
    rewrite Hf. by left. }
  destruct (pick (timers s)) as [[[due' tk'] rest]|] eqn:E.
  2:{ apply pick_None in E. rewrite E in Hin. by apply elem_of_nil in Hin. }
  destruct (pick_Some _ _ _ E) as (Hmem & Hmin & Hbud).
  pose proof (Hmin _ Hin) as Hle. simpl in Hle.
  rewrite (proj2 (Z.leb_le due' T)) by lia.
  set (s1 := set_clock (Z.max (clock s) due') (set_timers rest s)).
  assert (Hb1 : (budget (timers (fire tk' s1)) < fuel)%nat).
  { rewrite fire_timers, budget_app.
    pose proof (budget_spawned tk' s1). simpl in Hbud. subst s1. simpl. lia. }
  destruct (pick_filter _ _ _ E) as (a & b & Hfl & Hfr).
  rewrite Hf in Hfl. destruct (targets el (due', tk')) eqn:Et.
  - assert (Ha : List.filter (targets el) a = []
                 ∧ List.filter (targets el) b = []
                 ∧ (due', tk') = (due, tk)).
    { destruct (List.filter (targets el) a) as [|y l]; simpl in Hfl.
      - injection Hfl as <- Hb'. by rewrite <- Hb'.
      - injection Hfl as _ Hl. by destruct l. }
    destruct Ha as (Ha & Hb' & [= -> ->]).
    exists s1, fuel. split; [done|]. split; [done|]. split; [|done].
    intros x Hx. destruct (targets el x) eqn:Ex; [|done].
    assert (Hx' : In x (List.filter (targets el) rest)).
    { apply filter_In. split; [by apply list_elem_of_In|done]. }
    rewrite Hfr, Ha, Hb' in Hx'. done.
  - simpl in Hfl.
    assert (Ht' : task_target tk' ≠ Some el)
      by (by apply bool_decide_eq_false in Et).
    destruct (IH (fire tk' s1)) as (s2 & fuel2 & H1 & H2 & H3 & H4 & H5);
      [|done|].
    + rewrite fire_timers, List.filter_app. simpl.
      rewrite Hfr, <- Hfl.
      rewrite (filter_none _ (spawned tk' s1)), app_nil_r; [done|].
      intros x Hx. by apply (spawned_untargeted tk' s1 x).
    + exists s2, fuel2. split; [done|]. split.
      { by rewrite H2, fire_other. }
      split; [done|]. split; [|done].
      rewrite H4, fire_clock. subst s1. simpl. lia.
Qed.

End one_timer.

Section scheduled.
Implicit Types (s : state) (tk : task).

(** A delay within the signed 32-bit range is kept as it is, a negative
    one as zero. *)
Lemma timeout_ms_int32 z : int32 z → timeout_ms z = Z.max 0 z.
Proof.
  unfold int32, timeout_ms, to_int32. intros H. f_equal.
  rewrite Z.mod_small; lia.
Qed.

Lemma timeout_ms_wraps : timeout_ms (2 ^ 31) = 0.
Proof. reflexivity. Qed.

Lemma untimed_filter el s : untimed el s → List.filter (targets el) (timers s) = [].
Proof. intros H. by apply filter_none. Qed.

(** An operation that sets one timer on an element with nothing else
    pending on it: the row stays as the operation left it until the timer
    is due, and shows the effect of the task from then on. *)
Lemma scheduled_effect el tk delay s :
  untimed el s → task_target tk = Some el → (∀ e, tk ≠ NotifyExpire e) →
  let s' := setTimeout tk delay s in
  (∀ T, T < clock s + timeout_ms delay →
        nodes (advance T s') !! el = nodes s !! el)
  ∧ (∀ T, clock s + timeout_ms delay ≤ T →
          nodes (advance T s') !! el = task_effect tk <$> nodes s !! el
          ∧ untimed el (advance T s')
          ∧ clock (advance T s') = Z.max (clock s) T
          ∧ ∀ c, task_callback tk = Some c → c ∈ invoked (advance T s')).
Proof.
  intros Hu Ht Hn s'. split.
  - intros T HT. unfold advance.
    rewrite run_keeps; [done|]. intros due tk' Hin Ht'.
    subst s'. unfold setTimeout in Hin. simpl in Hin.
    apply elem_of_app in Hin as [Hin|Hin].
    + pose proof (Hu _ Hin) as H. apply bool_decide_eq_false in H. done.
    + apply list_elem_of_singleton in Hin. injection Hin as -> ->. lia.
  - intros T HT. unfold advance.
    destruct (run_fires T el (S (budget (timers s'))) s'
                (clock s + timeout_ms delay) tk) as (H1 & H2 & H3);
      [|done|done|lia|].
    + subst s'. unfold setTimeout. simpl.
      rewrite List.filter_app, untimed_filter by done. simpl.
      unfold targets. simpl. by rewrite bool_decide_eq_true_2.
    + split; [done|]. split; [done|]. split; [|done].
      by rewrite run_clock by lia.
Qed.

End scheduled.

(* ===================================================================== *)
(** ** The expiry of a notification *)
(* ===================================================================== *)

(** C6, as stated, fails in two ways.  A negative duration is not zero,
    yet the guard [config.duration > 0] sets no timer and the notification
    stays in its container for good.  And a duration of 2^31 ms is kept by
    the host as a delay of zero: the dismissal starts at once and the
    node is gone after 300 ms, not after some 24 days. *)
Lemma notify_duration_counterexample :
  (let opts := NotifyOptions None (Some (-1)) None None in
   cfg_duration (notify_merge opts) ≠ 0
   ∧ ∃ n s', notify "saved" opts (world empty_page) = Some (n, s')
             ∧ timers s' = []
             ∧ parent_of n s' = Some 5%nat
             ∧ parent_of n (advance 1000000 s') = Some 5%nat)
  ∧ (let opts := NotifyOptions None (Some (2 ^ 31)) None None in
     ∃ n s', notify "saved" opts (world empty_page) = Some (n, s')
             ∧ timers s' = [(0, NotifyExpire n)]
             ∧ parent_of n s' = Some 5%nat
             ∧ parent_of n (advance 300 s') = None).
Proof.
  split.
  - intros opts. split; [done|]. eexists _, _. split; [by vm_compute|].
    by vm_compute.
  - intros opts. eexists _, _. split; [by vm_compute|]. by vm_compute.
Qed.

(** C6, amended.  On a page whose pending timers work on existing
    elements, and for a position that makes a class token, [notify]
    returns a new notification attached to its container, and:
    - when the resolved duration is zero or negative, it sets no timer and
      the passing of time never changes the notification;
    - when the resolved duration is positive and below 2^31 ms, it sets
      one timer, due when the duration has passed.  Before that the
      notification is as [notify] left it.  When the timer fires the
      dismissal starts: for the next 300 ms the notification is still
      attached, with opacity ["0"] and moved up by 10px.  From then on it
      is detached. *)
Theorem notify_auto_dismiss (message : string) (opts : notify_options)
    (s : state) :
  page_ok (nodes s) →
  timers_fresh s →
  let config := notify_merge opts in
  let dur := cfg_duration config in
  valid_token ("notification-" +:+ cfg_position config) = true →
  ∃ n s' c,
    notify message opts s = Some (n, s')
    ∧ parent_of n s' = Some c
    ∧ (dur ≤ 0 →
       timers s' = timers s
       ∧ ∀ T, nodes (advance T s') !! n = nodes s' !! n)
    ∧ (0 < dur < 2 ^ 31 →
       timers s' = timers s ++ [(clock s + dur, NotifyExpire n)]
       ∧ (∀ T, T < clock s + dur →
               nodes (advance T s') !! n = nodes s' !! n)
       ∧ (∀ T, clock s + dur ≤ T < clock s + dur + 300 →
               ∃ r, nodes (advance T s') !! n = Some r
                    ∧ parentNode r = Some c
                    ∧ style r !! "opacity" = Some "0"
                    ∧ style r !! "transform" = Some "translateY(-10px)")
       ∧ (∀ T, clock s + dur + 300 ≤ T →
               parent_of n (advance T s') = None)).
Proof.
  intros Hok Hfresh config dur Hv.
  destruct (notify_first message opts s Hok Hv)
    as (n & s' & c & Hn & Hlen & _ & Hpar & _ & Htim & Hclk & _ & Hrow).
  fold config dur in Htim, Hrow.
  exists n, s', c. split; [done|]. split; [done|].
  assert (Hold : ∀ due tk, (due, tk) ∈ timers s → task_target tk ≠ Some n).
  { intros due tk Hin Ht. pose proof (Hfresh due tk n Hin Ht). lia. }
  split.
  - intros Hdur. rewrite (proj2 (Z.ltb_ge 0 dur)), app_nil_r in Htim by done.
    split; [done|]. intros T. unfold advance.
    rewrite run_keeps; [done|]. intros due tk Hin Ht. rewrite Htim in Hin.
    by destruct (Hold due tk Hin).
  - intros Hdur. rewrite (proj2 (Z.ltb_lt 0 dur)) in Htim by lia.
    rewrite timeout_ms_int32, Z.max_r in Htim by (unfold int32; lia).
    split; [done|].
    assert (Hfilter : List.filter (targets n) (timers s')
                      = [(clock s + dur, NotifyExpire n)]).
    { rewrite Htim, List.filter_app. simpl.
      rewrite (filter_none (targets n) (timers s)).
      - unfold targets. simpl. by rewrite bool_decide_eq_true_2.
      - intros [due tk] Hin. apply bool_decide_eq_false. simpl.
        by apply (Hold due). }
    split; [|split].
    + intros T HT. unfold advance.
      rewrite run_keeps; [done|]. intros due tk Hin Ht. rewrite Htim in Hin.
      apply elem_of_app in Hin as [Hin|Hin]; [by destruct (Hold due tk Hin)|].
      apply list_elem_of_singleton in Hin. injection Hin as -> ->. lia.
    + intros T [HT1 HT2]. unfold advance.
      destruct (run_first T n (S (budget (timers s'))) s' _ _ Hfilter)
        as (s1 & fuel1 & Hrun & Hrow1 & Hu1 & Hck1 & _); [lia|lia|].
      rewrite Hrun. rewrite Hrow in Hrow1.
      assert (Hfire : fire (NotifyExpire n) s1 = dismissAlert n s1).
      { simpl. by rewrite Hrow1. }
      rewrite Hfire, run_keeps.
      * unfold dismissAlert, on_node. simpl.
        rewrite !list_lookup_alter_eq, Hrow1. simpl.
        eexists. split; [done|]. simpl. split; [done|]. split.
        -- rewrite lookup_insert_ne by done. apply lookup_insert_eq.
        -- apply lookup_insert_eq.
      * intros due tk Hin Ht. unfold dismissAlert, setTimeout in Hin.
        simpl in Hin. change (timeout_ms 300) with 300 in Hin.
        apply elem_of_app in Hin as [Hin|Hin].
        -- pose proof (Hu1 _ Hin) as H. by apply bool_decide_eq_false in H.
        -- apply list_elem_of_singleton in Hin. injection Hin as -> ->. lia.
    + intros T HT. unfold advance. apply run_removes; [lia|].
      right. left. exists (clock s + dur). split; [|lia].
      rewrite Htim. apply elem_of_app. right.
      by apply list_elem_of_singleton.
Qed.

Lemma notify_auto_dismiss_witness :
  ∃ n s' c,
    notify "saved" no_options (world empty_page) = Some (n, s')
    ∧ parent_of n s' = Some c
    ∧ nodes (advance 4999 s') !! n = nodes s' !! n
    ∧ (∃ r, nodes (advance 5299 s') !! n = Some r
            ∧ parentNode r = Some c
            ∧ style r !! "opacity" = Some "0"
            ∧ style r !! "transform" = Some "translateY(-10px)")
    ∧ parent_of n (advance 5300 s') = None.
Proof.
  destruct (notify_auto_dismiss "saved" no_options (world empty_page))
    as (n & s' & c & Hn & Hp & _ & Hpos).
  - split; reflexivity.
  - intros due tk el Hin. by apply elem_of_nil in Hin.
  - reflexivity.
  - destruct Hpos as (_ & Hbefore & Hduring & Hafter);
      [split; reflexivity|].
    exists n, s', c. split; [exact Hn|]. split; [exact Hp|].
    split; [|split].
    + apply Hbefore. reflexivity.
    + apply Hduring. split; [discriminate|reflexivity].
    + apply Hafter. discriminate.
Defined.

(* ===================================================================== *)
(** ** Collapse *)
(* ===================================================================== *)

Section collapse.
Implicit Types (s : state) (nd : node).

Lemma contains_class_add_ne c c' nd :
  c ≠ c' → contains c (class_add c' nd) = contains c nd.
Proof.
  intros Hne. unfold contains, class_add, token_add. simpl.
  destruct (bool_decide (c' ∈ classList nd)); [done|]. apply bool_decide_ext.
  rewrite elem_of_app, list_elem_of_singleton.
  split; [intros [?|?]; [done|congruence]|by left].
Qed.

Lemma contains_class_remove_ne c c' nd :
  c ≠ c' → contains c (class_remove c' nd) = contains c nd.
Proof.
  intros Hne. unfold contains, class_remove, token_remove. simpl.
  apply bool_decide_ext. rewrite list_elem_of_filter.
  split; [by intros [_ ?]|intros ?; split; [congruence|done]].
Qed.

Lemma toggleCollapse_collapse_rows el nd s :
  nodes s !! el = Some nd → isCollapsed nd = false → untimed el s →
  let s' := toggleCollapse el s in
  nodes s' !! el = Some (collapsing_row nd)
  ∧ clock s' = clock s
  ∧ (∀ T, T < clock s + 300 →
          nodes (advance T s') !! el = Some (collapsing_row nd))
  ∧ (∀ T, clock s + 300 ≤ T →
          nodes (advance T s') !! el
          = Some (task_effect (CollapseHidden el) (collapsing_row nd))
          ∧ untimed el (advance T s')
          ∧ clock (advance T s') = Z.max (clock s) T).
Proof.
  intros E Hc Hu s'.
  set (s1 := on_node el (set_style "height" "0")
               (on_node el (class_add "collapsing")
                  (on_node el (set_style "height" (px (scrollHeight nd))) s))).
  assert (Hs' : s' = setTimeout (CollapseHidden el) 300 s1).
  { subst s' s1. unfold toggleCollapse, scrollHeight_of. rewrite E.
    unfold isCollapsed in Hc. by rewrite Hc. }
  assert (Hrow : nodes s1 !! el = Some (collapsing_row nd)).
  { subst s1. unfold on_node. simpl. by rewrite !list_lookup_alter_eq, E. }
  destruct (scheduled_effect el (CollapseHidden el) 300 s1)
    as [Hbefore Hafter]; [done|done|done|].
  rewrite <- Hs' in Hbefore, Hafter.
  split; [by rewrite Hs'|]. split; [by rewrite Hs'|]. split.
  - intros T HT. rewrite Hbefore; [done|].
    change (timeout_ms 300) with 300. simpl. lia.
  - intros T HT. destruct (Hafter T) as (H1 & H2 & H3 & _);
      [change (timeout_ms 300) with 300; simpl; lia|].
    by rewrite H1, Hrow.
Qed.

Lemma toggleCollapse_expand_rows el nd s :
  nodes s !! el = Some nd → isCollapsed nd = true → untimed el s →
  let s' := toggleCollapse el s in
  nodes s' !! el = Some (expanding_row nd)
  ∧ clock s' = clock s
  ∧ (∀ T, T < clock s + 300 →
          nodes (advance T s') !! el = Some (expanding_row nd))
  ∧ (∀ T, clock s + 300 ≤ T →
          nodes (advance T s') !! el
          = Some (task_effect (CollapseShown el) (expanding_row nd))
          ∧ untimed el (advance T s')
          ∧ clock (advance T s') = Z.max (clock s) T).
Proof.
  intros E Hc Hu s'.
  set (s1 := on_node el (set_style "height" (px (scrollHeight nd)))
               (on_node el (class_add "collapsing")
                  (on_node el (class_remove "collapsed")
                     (on_node el (set_style "display" "block") s)))).
  assert (Hs' : s' = setTimeout (CollapseShown el) 300 s1).
  { subst s' s1. unfold toggleCollapse, scrollHeight_of. rewrite E.
    unfold isCollapsed in Hc. rewrite Hc. unfold on_node. simpl.
    by rewrite !list_lookup_alter_eq, E. }
  assert (Hrow : nodes s1 !! el = Some (expanding_row nd)).
  { subst s1. unfold on_node. simpl. by rewrite !list_lookup_alter_eq, E. }
  destruct (scheduled_effect el (CollapseShown el) 300 s1)
    as [Hbefore Hafter]; [done|done|done|].
  rewrite <- Hs' in Hbefore, Hafter.
  split; [by rewrite Hs'|]. split; [by rewrite Hs'|]. split.
  - intros T HT. rewrite Hbefore; [done|].
    change (timeout_ms 300) with 300. simpl. lia.
  - intros T HT. destruct (Hafter T) as (H1 & H2 & H3 & _);
      [change (timeout_ms 300) with 300; simpl; lia|].
    by rewrite H1, Hrow.
Qed.

Lemma collapsed_row_facts el nd :
  let r := task_effect (CollapseHidden el) (collapsing_row nd) in
  style r !! "display" = Some "none"
  ∧ style r !! "height" = None
  ∧ contains "collapsed" r = true
  ∧ contains "collapsing" r = false
  ∧ isCollapsed r = true.
Proof.
  intros r.
  assert (H1 : style r !! "display" = Some "none").
  { subst r. simpl. rewrite lookup_delete_ne by done. apply lookup_insert_eq. }
  assert (H3 : contains "collapsed" r = true).
  { subst r. simpl.
    change (contains "collapsed" (clear_style "height" ?x))
      with (contains "collapsed" x). apply class_add_present. }
  split; [done|]. split; [subst r; simpl; apply lookup_delete_eq|].
  split; [done|]. split.
  - subst r. simpl.
    change (contains "collapsing" (clear_style "height" ?x))
      with (contains "collapsing" x).
    rewrite contains_class_add_ne by done. apply class_remove_absent.
  - unfold isCollapsed. by rewrite H3, orb_true_r.
Qed.

Lemma expanded_row_facts el nd :
  let r := task_effect (CollapseShown el) (expanding_row nd) in
  style r !! "display" = Some "block"
  ∧ style r !! "height" = None
  ∧ contains "collapsed" r = false
  ∧ contains "collapsing" r = false
  ∧ isCollapsed r = false.
Proof.
  intros r.
  assert (H1 : style r !! "display" = Some "block").
  { subst r. simpl. rewrite lookup_delete_ne, lookup_insert_ne by done.
    apply lookup_insert_eq. }
  assert (H3 : contains "collapsed" r = false).
  { subst r. unfold task_effect, expanding_row.
    change (contains "collapsed" (clear_style "height" ?x))
      with (contains "collapsed" x).
    rewrite contains_class_remove_ne by done.
    change (contains "collapsed" (set_style "height" ?v ?x))
      with (contains "collapsed" x).
    rewrite contains_class_add_ne by done. apply class_remove_absent. }
  split; [done|]. split; [subst r; simpl; apply lookup_delete_eq|].
  split; [done|]. split.
  - subst r. unfold task_effect, expanding_row.
    change (contains "collapsing" (clear_style "height" ?x))
      with (contains "collapsing" x). apply class_remove_absent.
  - unfold isCollapsed. rewrite H3, H1. by rewrite bool_decide_eq_false_2.
Qed.

End collapse.

Lemma token_remove_add (c : string) (l : list string) :
  c ∉ l → token_remove c (token_add c l) = l.
Proof.
  intros Hc. unfold token_add. rewrite bool_decide_eq_false_2 by done.
  unfold token_remove. rewrite filter_app.
  assert (H1 : ∀ k : list string, c ∉ k → filter (λ x, x ≠ c) k = k).
  { induction k as [|x k IH]; intros Hk; [done|].
    apply not_elem_of_cons in Hk as [Hx Hk].
    rewrite filter_cons_True by congruence. by rewrite IH. }
  rewrite H1 by done. rewrite filter_cons_False by (intros H; by apply H).
  by rewrite filter_nil, app_nil_r.
Qed.

(** X1. Collapsing a visible element on which no timer is pending: until
    300 ms have passed the element keeps its [display], has the inline
    height ["0px"] (what the assigned ['0'] reads back as) and the class
    [collapsing]; from then on it has [display: none], the class
    [collapsed], no class [collapsing] and no inline height. *)
Theorem toggleCollapse_collapses (el : nat) (nd : node) (s : state) :
  nodes s !! el = Some nd →
  isCollapsed nd = false →
  untimed el s →
  let s' := toggleCollapse el s in
  (∀ T, T < clock s + 300 →
        ∃ r, nodes (advance T s') !! el = Some r
             ∧ style r !! "display" = style nd !! "display"
             ∧ style r !! "height" = Some "0px"
             ∧ contains "collapsing" r = true
             ∧ contains "collapsed" r = false)
  ∧ (∀ T, clock s + 300 ≤ T →
          ∃ r, nodes (advance T s') !! el = Some r
               ∧ style r !! "display" = Some "none"
               ∧ style r !! "height" = None
               ∧ contains "collapsed" r = true
               ∧ contains "collapsing" r = false).
Proof.
  intros E Hc Hu s'.
  destruct (toggleCollapse_collapse_rows el nd s E Hc Hu)
    as (_ & _ & Hbefore & Hafter).
  split.
  - intros T HT. exists (collapsing_row nd). split; [by apply Hbefore|].
    unfold isCollapsed in Hc. apply orb_false_iff in Hc as [_ Hc].
    unfold collapsing_row. split; [|split; [|split]].
    + simpl. by rewrite !lookup_insert_ne.
    + simpl. change (css_text "height" "0") with "0px".
      apply lookup_insert_eq.
    + change (contains "collapsing" (set_style "height" "0" ?x))
        with (contains "collapsing" x). apply class_add_present.
    + change (contains "collapsed" (set_style "height" "0" ?x))
        with (contains "collapsed" x).
      by rewrite contains_class_add_ne.
  - intros T HT. destruct (Hafter T HT) as (H1 & _).
    eexists. split; [exact H1|].
    destruct (collapsed_row_facts el nd) as (F1 & F2 & F3 & F4 & _). done.
Qed.

Lemma toggleCollapse_collapses_witness :
  let page := world [elem None [] [] []; elem (Some 0%nat) [] [] [];
                     elem (Some 1%nat) [("id", "menu")] ["panel"] []] in
  ∃ r, nodes (advance 300 (toggleCollapse 2 page)) !! 2%nat = Some r
       ∧ style r !! "display" = Some "none"
       ∧ style r !! "height" = None
       ∧ contains "collapsed" r = true
       ∧ contains "collapsing" r = false.
Proof.
  intros page.
  apply (proj2 (toggleCollapse_collapses 2%nat
                  (elem (Some 1%nat) [("id", "menu")] ["panel"] []) page
                  eq_refl eq_refl
                  (λ x Hx, False_ind _ (proj1 (elem_of_nil x) Hx)))).
  vm_compute. discriminate.
Defined.

(** X2. Expanding a collapsed element ([display: none] or class
    [collapsed]) on which no timer is pending: at once and until 300 ms
    have passed it has [display: block], its scroll height as inline
    height in px and the class [collapsing]; from then on the inline
    height and the class [collapsing] are gone, and the element no longer
    counts as collapsed. *)
Theorem toggleCollapse_expands (el : nat) (nd : node) (s : state) :
  nodes s !! el = Some nd →
  isCollapsed nd = true →
  untimed el s →
  let s' := toggleCollapse el s in
  (∀ T, T < clock s + 300 →
        ∃ r, nodes (advance T s') !! el = Some r
             ∧ style r !! "display" = Some "block"
             ∧ style r !! "height" = Some (px (scrollHeight nd))
             ∧ contains "collapsing" r = true
             ∧ contains "collapsed" r = false)
  ∧ (∀ T, clock s + 300 ≤ T →
          ∃ r, nodes (advance T s') !! el = Some r
               ∧ style r !! "display" = Some "block"
               ∧ style r !! "height" = None
               ∧ contains "collapsed" r = false
               ∧ contains "collapsing" r = false
               ∧ isCollapsed r = false).
Proof.
  intros E Hc Hu s'.
  destruct (toggleCollapse_expand_rows el nd s E Hc Hu)
    as (_ & _ & Hbefore & Hafter).
  split.
  - intros T HT. exists (expanding_row nd). split; [by apply Hbefore|].
    unfold expanding_row. split; [|split; [|split]].
    + simpl. rewrite lookup_insert_ne by done. apply lookup_insert_eq.
    + simpl. css_norm. apply lookup_insert_eq.
    + change (contains "collapsing" (set_style "height" ?v ?x))
        with (contains "collapsing" x). apply class_add_present.
    + change (contains "collapsed" (set_style "height" ?v ?x))
        with (contains "collapsed" x).
      rewrite contains_class_add_ne by done. apply class_remove_absent.
  - intros T HT. destruct (Hafter T HT) as (H1 & _).
    eexists. split; [exact H1|]. apply expanded_row_facts.
Qed.

Lemma toggleCollapse_expands_witness :
  let page := world [elem None [] [] []; elem (Some 0%nat) [] [] [];
                     elem (Some 1%nat) [] ["collapsed"]
                          [("display", "none")]] in
  ∃ r, nodes (advance 300 (toggleCollapse 2 page)) !! 2%nat = Some r
       ∧ style r !! "display" = Some "block"
       ∧ style r !! "height" = None
       ∧ contains "collapsed" r = false
       ∧ contains "collapsing" r = false
       ∧ isCollapsed r = false.
Proof.
  intros page.
  apply (proj2 (toggleCollapse_expands 2%nat
                  (elem (Some 1%nat) [] ["collapsed"] [("display", "none")])
                  page eq_refl eq_refl
                  (λ x Hx, False_ind _ (proj1 (elem_of_nil x) Hx)))).
  vm_compute. discriminate.
Defined.

(** X3. Collapse, wait, expand, wait: a visible element on which no timer
    is pending, collapsed and, at least 300 ms later, toggled again, is
    not collapsed once another 300 ms have passed.  Its [display] is then
    ["block"] whatever it was, its inline height is cleared, and its class
    list is the original one when that held neither [collapsing] nor
    [collapsed]. *)
Theorem toggleCollapse_round_trip (el : nat) (nd : node) (s : state)
    (T1 T2 : Z) :
  nodes s !! el = Some nd →
  isCollapsed nd = false →
  untimed el s →
  clock s + 300 ≤ T1 →
  T1 + 300 ≤ T2 →
  let s1 := advance T1 (toggleCollapse el s) in
  let s2 := advance T2 (toggleCollapse el s1) in
  ∃ r, nodes s2 !! el = Some r
       ∧ isCollapsed r = false
       ∧ style r !! "display" = Some "block"
       ∧ style r !! "height" = None
       ∧ (contains "collapsing" nd = false → classList r = classList nd).
Proof.
  intros E Hc Hu HT1 HT2 s1 s2.
  destruct (toggleCollapse_collapse_rows el nd s E Hc Hu)
    as (_ & _ & _ & Hafter).
  destruct (Hafter T1 HT1) as (Hrow1 & Hu1 & Hclk1). fold s1 in Hrow1, Hu1, Hclk1.
  set (r1 := task_effect (CollapseHidden el) (collapsing_row nd)) in *.
  destruct (collapsed_row_facts el nd) as (_ & _ & _ & _ & Hc1). fold r1 in Hc1.
  destruct (toggleCollapse_expand_rows el r1 s1 Hrow1 Hc1 Hu1)
    as (_ & _ & _ & Hafter2).
  destruct (Hafter2 T2) as (Hrow2 & _); [lia|]. fold s2 in Hrow2.
  eexists. split; [exact Hrow2|].
  destruct (expanded_row_facts el r1) as (F1 & F2 & F3 & F4 & F5).
  split; [done|]. split; [done|]. split; [done|].
  intros Hcl. unfold isCollapsed in Hc. apply orb_false_iff in Hc as [_ Hcd].
  apply bool_decide_eq_false in Hcl, Hcd. simpl.
  rewrite (token_remove_add "collapsing" (classList nd)) by done.
  rewrite (token_remove_add "collapsed" (classList nd)) by done.
  by rewrite token_remove_add.
Qed.

Lemma toggleCollapse_round_trip_witness :
  let page := world [elem None [] [] []; elem (Some 0%nat) [] [] [];
                     elem (Some 1%nat) [("id", "menu")] ["panel"]
                          [("display", "flex")]] in
  ∃ r, nodes (advance 900
                (toggleCollapse 2 (advance 400 (toggleCollapse 2 page))))
         !! 2%nat = Some r
       ∧ isCollapsed r = false
       ∧ style r !! "display" = Some "block"
       ∧ style r !! "height" = None
       ∧ (contains "collapsing"
            (elem (Some 1%nat) [("id", "menu")] ["panel"]
                  [("display", "flex")]) = false →
          classList r = ["panel"]).
Proof.
  intros page.
  apply (toggleCollapse_round_trip 2%nat
           (elem (Some 1%nat) [("id", "menu")] ["panel"] [("display", "flex")])
           page 400 900 eq_refl eq_refl
           (λ x Hx, False_ind _ (proj1 (elem_of_nil x) Hx)));
    vm_compute; discriminate.
Defined.

(* ===================================================================== *)
(** ** Alerts and transient classes *)
(* ===================================================================== *)

(** Whatever else is pending, a dismissed alert is detached once 300 ms
    have passed. *)
Lemma dismissAlert_detached (alert : nat) (s : state) (T : Z) :
  clock s + 300 ≤ T →
  parent_of alert (advance T (dismissAlert alert s)) = None.
Proof.
  intros HT. unfold advance. apply run_removes; [lia|].
  right. right. exists (clock s + 300). split; [|done].
  unfold dismissAlert, setTimeout. simpl.
  apply elem_of_app. right. by apply list_elem_of_singleton.
Qed.

(** X4. [dismissAlert] fades the alert at once (opacity ["0"], moved up by
    10px) and leaves it where it is; whatever else is pending, the alert
    is detached once 300 ms have passed, and when no other timer works on
    it, it is still attached until then. *)
Theorem dismissAlert_removes (alert : nat) (nd : node) (s : state) :
  nodes s !! alert = Some nd →
  let s' := dismissAlert alert s in
  (∃ r, nodes s' !! alert = Some r
        ∧ style r !! "opacity" = Some "0"
        ∧ style r !! "transform" = Some "translateY(-10px)"
        ∧ parentNode r = parentNode nd)
  ∧ (∀ T, clock s + 300 ≤ T → parent_of alert (advance T s') = None)
  ∧ (untimed alert s →
     ∀ T, T < clock s + 300 →
          parent_of alert (advance T s') = parentNode nd).
Proof.
  intros E s'.
  assert (Hrow : nodes s' !! alert
                 = Some (set_style "transform" "translateY(-10px)"
                           (set_style "opacity" "0"
                              (set_style "transition" "all 0.3s ease" nd)))).
  { subst s'. unfold dismissAlert, on_node. simpl.
    by rewrite !list_lookup_alter_eq, E. }
  split; [|split].
  - eexists. split; [exact Hrow|]. simpl. split; [|split; [|done]].
    + rewrite lookup_insert_ne by done. apply lookup_insert_eq.
    + apply lookup_insert_eq.
  - intros T HT. by apply dismissAlert_detached.
  - intros Hu T HT. unfold advance, parent_of.
    rewrite run_keeps; [by rewrite Hrow|].
    intros due tk Hin Ht. subst s'. unfold dismissAlert, setTimeout in Hin.
    simpl in Hin. change (timeout_ms 300) with 300 in Hin.
    apply elem_of_app in Hin as [Hin|Hin].
    + pose proof (Hu _ Hin) as H. by apply bool_decide_eq_false in H.
    + apply list_elem_of_singleton in Hin. injection Hin as -> ->. lia.
Qed.

Lemma dismissAlert_removes_witness :
  let page := world [elem None [] [] []; elem (Some 0%nat) [] [] [];
                     elem (Some 1%nat) [] ["alert"] []] in
  parent_of 2 (advance 299 (dismissAlert 2 page)) = Some 1%nat
  ∧ parent_of 2 (advance 300 (dismissAlert 2 page)) = None.
Proof.
  intros page.
  destruct (dismissAlert_removes 2%nat (elem (Some 1%nat) [] ["alert"] [])
              page eq_refl) as (_ & Hafter & Hbefore).
  split.
  - apply Hbefore; [|reflexivity].
    intros x Hx. by apply elem_of_nil in Hx.
  - apply Hafter. vm_compute. discriminate.
Defined.

(** X5. The click listener for alert dismissal acts only when the click
    lands in an [.alert-close] control that lies in an [.alert]: then the
    nearest [.alert] ancestor is dismissed and is detached once 300 ms
    have passed.  A click outside every close control, or in a close
    control outside every alert, leaves the world unchanged. *)
Theorem on_click_alert_cases (target : nat) (s : state) :
  (closest sel_alert_close (nodes s) target = None →
   on_click_alert target s = s)
  ∧ (closest sel_alert (nodes s) target = None →
     on_click_alert target s = s)
  ∧ (∀ b a, closest sel_alert_close (nodes s) target = Some b →
            closest sel_alert (nodes s) target = Some a →
            on_click_alert target s = dismissAlert a s
            ∧ ∀ T, clock s + 300 ≤ T →
                   parent_of a (advance T (on_click_alert target s)) = None).
Proof.
  split; [|split].
  - intros H. unfold on_click_alert. by rewrite H.
  - intros H. unfold on_click_alert. rewrite H.
    by destruct (closest sel_alert_close _ _).
  - intros b a Hb Ha.
    assert (Heq : on_click_alert target s = dismissAlert a s).
    { unfold on_click_alert. by rewrite Hb, Ha. }
    split; [done|]. intros T HT. rewrite Heq.
    by apply dismissAlert_detached.
Qed.

Lemma on_click_alert_cases_witness :
  let page := world [elem None [] [] []; elem (Some 0%nat) [] [] [];
                     elem (Some 1%nat) [] ["alert"] [];
                     elem (Some 2%nat) [] ["alert-close"] []] in
  parent_of 2 (advance 300 (on_click_alert 3 page)) = None.
Proof.
  intros page.
  apply (proj2 (proj2 (proj2 (on_click_alert_cases 3%nat page))
                  3%nat 2%nat eq_refl eq_refl)).
  vm_compute. discriminate.
Defined.

(** X6. [animateClass(element, className, duration = 300)] throws when the
    class name is no class token (empty, or with whitespace).  Otherwise,
    for a duration in the signed 32-bit range and an element with no
    pending timer: the class is present until the duration has passed
    (at once when it is negative) and absent afterwards, also when the
    element carried it before the call; every other class is as it
    was. *)
Theorem animateClass_transient (el : nat) (nd : node) (c : string)
    (duration : option Z) (s : state) :
  nodes s !! el = Some nd →
  untimed el s →
  int32 (default 300 duration) →
  (valid_token c = false → animateClass el c duration s = None)
  ∧ (valid_token c = true →
     ∃ s', animateClass el c duration s = Some s'
       ∧ (∀ T, T < clock s + Z.max 0 (default 300 duration) →
               ∃ r, nodes (advance T s') !! el = Some r
                    ∧ contains c r = true
                    ∧ ∀ c', c' ≠ c → contains c' r = contains c' nd)
       ∧ (∀ T, clock s + Z.max 0 (default 300 duration) ≤ T →
               ∃ r, nodes (advance T s') !! el = Some r
                    ∧ contains c r = false
                    ∧ ∀ c', c' ≠ c → contains c' r = contains c' nd)).
Proof.
  intros E Hu Hd. unfold animateClass. split; [by intros ->|]. intros ->.
  eexists. split; [done|]. cbv zeta.
  set (s1 := on_node el (class_add c) s).
  assert (Hrow : nodes s1 !! el = Some (class_add c nd)).
  { subst s1. unfold on_node. simpl. by rewrite list_lookup_alter_eq, E. }
  destruct (scheduled_effect el (ClassExpire el c) (default 300 duration) s1)
    as [Hbefore Hafter]; [done|done|done|].
  rewrite (timeout_ms_int32 _ Hd) in Hbefore, Hafter.
  split.
  - intros T HT. exists (class_add c nd). split; [|split].
    + by rewrite Hbefore.
    + apply class_add_present.
    + intros c' Hc'. by apply contains_class_add_ne.
  - intros T HT. exists (class_remove c (class_add c nd)). split; [|split].
    + destruct (Hafter T HT) as (H1 & _). by rewrite H1, Hrow.
    + apply class_remove_absent.
    + intros c' Hc'.
      by rewrite contains_class_remove_ne, contains_class_add_ne.
Qed.

Lemma animateClass_transient_witness :
  let page := world [elem None [] [] []; elem (Some 0%nat) [] [] [];
                     elem (Some 1%nat) [] ["btn"; "flash"] []] in
  animateClass 2 "fl ash" None page = None
  ∧ ∃ s', animateClass 2 "flash" None page = Some s'
          ∧ ∃ r, nodes (advance 300 s') !! 2%nat = Some r
                 ∧ contains "flash" r = false
                 ∧ contains "btn" r = true.
Proof.
  intros page.
  assert (Hd : int32 (default 300 None)) by (split; [discriminate|reflexivity]).
  split.
  - apply (proj1 (animateClass_transient 2%nat
                    (elem (Some 1%nat) [] ["btn"; "flash"] []) "fl ash" None
                    page eq_refl
                    (λ x Hx, False_ind _ (proj1 (elem_of_nil x) Hx)) Hd)).
    reflexivity.
  - destruct (proj2 (animateClass_transient 2%nat
                       (elem (Some 1%nat) [] ["btn"; "flash"] []) "flash" None
                       page eq_refl
                       (λ x Hx, False_ind _ (proj1 (elem_of_nil x) Hx)) Hd)
                eq_refl) as (s' & Hs & _ & Hafter).
    exists s'. split; [exact Hs|].
    destruct (Hafter 300) as (r & Hr & Hc & Hother); [vm_compute; discriminate|].
    exists r. split; [exact Hr|]. split; [exact Hc|].
    rewrite Hother by discriminate. reflexivity.
Defined.

(* ===================================================================== *)
(** ** Timed animations *)
(* ===================================================================== *)

Section timed_animations.
Context (el : nat) (nd : node) (duration : Z) (cb : option callback)
        (s : state).
Hypothesis Hrow : nodes s !! el = Some nd.
Hypothesis Hidle : untimed el s.
Hypothesis Hint : int32 duration.

Let due : Z := clock s + Z.max 0 duration.

Lemma fadeOut_rows :
  let s' := fadeOut el duration cb s in
  let r := set_style "opacity" "0"
             (set_style "transition"
                ("opacity " +:+ ms duration +:+ defaultEasing)
                (set_style "opacity" "1" nd)) in
  (∀ T, T < due → nodes (advance T s') !! el = Some r)
  ∧ (∀ T, due ≤ T →
          nodes (advance T s') !! el = Some (set_style "display" "none" r)
          ∧ ∀ c, cb = Some c → c ∈ invoked (advance T s')).
Proof.
  intros s' r.
  set (s1 := on_node el (set_style "opacity" "0")
               (on_node el (set_style "transition"
                              ("opacity " +:+ ms duration +:+ defaultEasing))
                  (on_node el (set_style "opacity" "1") s))).
  assert (H1 : nodes s1 !! el = Some r).
  { subst s1. unfold on_node. simpl. by rewrite !list_lookup_alter_eq, Hrow. }
  destruct (scheduled_effect el (FadeOutEnd el cb) duration s1)
    as [Hbefore Hafter]; [done|done|done|].
  rewrite (timeout_ms_int32 _ Hint) in Hbefore, Hafter.
  change (setTimeout (FadeOutEnd el cb) duration s1) with s' in *.
  split.
  - intros T HT. by rewrite Hbefore.
  - intros T HT. destruct (Hafter T HT) as (H2 & _ & _ & H3).
    by rewrite H2, H1.
Qed.

Lemma scaleOut_rows :
  let s' := scaleOut el duration cb s in
  let r := set_style "opacity" "0"
             (set_style "transform" "scale(0)"
                (set_style "transition" (scale_transition duration)
                   (set_style "opacity" "1"
                      (set_style "transform" "scale(1)" nd)))) in
  (∀ T, T < due → nodes (advance T s') !! el = Some r)
  ∧ (∀ T, due ≤ T →
          nodes (advance T s') !! el = Some (set_style "display" "none" r)
          ∧ ∀ c, cb = Some c → c ∈ invoked (advance T s')).
Proof.
  intros s' r.
  set (s1 := on_node el (set_style "opacity" "0")
               (on_node el (set_style "transform" "scale(0)")
                  (on_node el (set_style "transition"
                                 (scale_transition duration))
                     (on_node el (set_style "opacity" "1")
                        (on_node el (set_style "transform" "scale(1)") s))))).
  assert (H1 : nodes s1 !! el = Some r).
  { subst s1. unfold on_node. simpl. by rewrite !list_lookup_alter_eq, Hrow. }
  destruct (scheduled_effect el (ScaleOutEnd el cb) duration s1)
    as [Hbefore Hafter]; [done|done|done|].
  rewrite (timeout_ms_int32 _ Hint) in Hbefore, Hafter.
  change (setTimeout (ScaleOutEnd el cb) duration s1) with s' in *.
  split.
  - intros T HT. by rewrite Hbefore.
  - intros T HT. destruct (Hafter T HT) as (H2 & _ & _ & H3).
    by rewrite H2, H1.
Qed.

Lemma slideUp_rows :
  let s' := slideUp el duration cb s in
  let r := set_style "height" "0"
             (set_style "transition"
                ("height " +:+ ms duration +:+ defaultEasing)
                (set_style "overflow" "hidden"
                   (set_style "height" (px (scrollHeight nd)) nd))) in
  (∀ T, T < due → nodes (advance T s') !! el = Some r)
  ∧ (∀ T, due ≤ T →
          nodes (advance T s') !! el
          = Some (task_effect (SlideUpEnd el cb) r)
          ∧ ∀ c, cb = Some c → c ∈ invoked (advance T s')).
Proof.
  intros s' r.
  set (s1 := on_node el (set_style "height" "0")
               (on_node el (set_style "transition"
                              ("height " +:+ ms duration +:+ defaultEasing))
                  (on_node el (set_style "overflow" "hidden")
                     (on_node el (set_style "height"
                                    (px (scrollHeight_of el s))) s)))).
  assert (H1 : nodes s1 !! el = Some r).
  { subst s1. unfold on_node, scrollHeight_of. simpl.
    by rewrite !list_lookup_alter_eq, Hrow. }
  destruct (scheduled_effect el (SlideUpEnd el cb) duration s1)
    as [Hbefore Hafter]; [done|done|done|].
  rewrite (timeout_ms_int32 _ Hint) in Hbefore, Hafter.
  change (setTimeout (SlideUpEnd el cb) duration s1) with s' in *.
  split.
  - intros T HT. by rewrite Hbefore.
  - intros T HT. destruct (Hafter T HT) as (H2 & _ & _ & H3).
    by rewrite H2, H1.
Qed.

Lemma slideDown_rows :
  let s' := slideDown el duration cb s in
  let r := set_style "height" (px (scrollHeight nd))
             (set_style "transition"
                ("height " +:+ ms duration +:+ defaultEasing)
                (set_style "display" "block"
                   (set_style "overflow" "hidden"
                      (set_style "height" "0" nd)))) in
  (∀ T, T < due → nodes (advance T s') !! el = Some r)
  ∧ (∀ T, due ≤ T →
          nodes (advance T s') !! el
          = Some (task_effect (SlideDownEnd el cb) r)
          ∧ ∀ c, cb = Some c → c ∈ invoked (advance T s')).
Proof.
  intros s' r.
  set (s0 := on_node el (set_style "transition"
                           ("height " +:+ ms duration +:+ defaultEasing))
               (on_node el (set_style "display" "block")
                  (on_node el (set_style "overflow" "hidden")
                     (on_node el (set_style "height" "0") s)))).
  set (s1 := on_node el (set_style "height" (px (scrollHeight_of el s0))) s0).
  assert (H0 : scrollHeight_of el s0 = scrollHeight nd).
  { subst s0. unfold on_node, scrollHeight_of. simpl.
    by rewrite !list_lookup_alter_eq, Hrow. }
  assert (H1 : nodes s1 !! el = Some r).
  { subst s1. rewrite H0. subst s0. unfold on_node. simpl.
    by rewrite !list_lookup_alter_eq, Hrow. }
  destruct (scheduled_effect el (SlideDownEnd el cb) duration s1)
    as [Hbefore Hafter]; [done|done|done|].
  rewrite (timeout_ms_int32 _ Hint) in Hbefore, Hafter.
  change (setTimeout (SlideDownEnd el cb) duration s1) with s' in *.
  split.
  - intros T HT. by rewrite Hbefore.
  - intros T HT. destruct (Hafter T HT) as (H2 & _ & _ & H3).
    by rewrite H2, H1.
Qed.

End timed_animations.

(** X7. [fadeOut] and [scaleOut] on an element with no pending timer, for
    a duration in the signed 32-bit range: until the duration has passed
    the element keeps its [display] while its opacity is ["0"]; from then
    on it has [display: none], and the callback, when there is one, has
    been called. *)
Theorem fade_and_scale_out_hide (el : nat) (nd : node) (duration : Z)
    (cb : option callback) (s : state) :
  nodes s !! el = Some nd →
  untimed el s →
  int32 duration →
  let due := clock s + Z.max 0 duration in
  ∀ s', s' = fadeOut el duration cb s ∨ s' = scaleOut el duration cb s →
  (∀ T, T < due →
        ∃ r, nodes (advance T s') !! el = Some r
             ∧ style r !! "opacity" = Some "0"
             ∧ style r !! "display" = style nd !! "display")
  ∧ (∀ T, due ≤ T →
          (∃ r, nodes (advance T s') !! el = Some r
                ∧ style r !! "display" = Some "none"
                ∧ style r !! "opacity" = Some "0")
          ∧ ∀ c, cb = Some c → c ∈ invoked (advance T s')).
Proof.
  intros E Hu Hd due s' [-> | ->].
  - destruct (fadeOut_rows el nd duration cb s E Hu Hd) as [Hb Ha]. split.
    + intros T HT. eexists. split; [by apply Hb|]. simpl. split.
      * apply lookup_insert_eq.
      * by rewrite !lookup_insert_ne.
    + intros T HT. destruct (Ha T HT) as [H1 H2]. split; [|done].
      eexists. split; [exact H1|]. simpl. split.
      * apply lookup_insert_eq.
      * rewrite lookup_insert_ne by done. apply lookup_insert_eq.
  - destruct (scaleOut_rows el nd duration cb s E Hu Hd) as [Hb Ha]. split.
    + intros T HT. eexists. split; [by apply Hb|]. simpl. split.
      * apply lookup_insert_eq.
      * by rewrite !lookup_insert_ne.
    + intros T HT. destruct (Ha T HT) as [H1 H2]. split; [|done].
      eexists. split; [exact H1|]. simpl. split.
      * apply lookup_insert_eq.
      * rewrite lookup_insert_ne by done. apply lookup_insert_eq.
Qed.

Lemma fade_and_scale_out_hide_witness :
  let page := world [elem None [] [] []; elem (Some 0%nat) [] [] [];
                     elem (Some 1%nat) [] [] [("display", "flex")]] in
  (∃ r, nodes (advance 300 (fadeOut 2 300 (Some 4%nat) page)) !! 2%nat
        = Some r
        ∧ style r !! "display" = Some "none"
        ∧ style r !! "opacity" = Some "0")
  ∧ ∀ c, Some 4%nat = Some c →
         c ∈ invoked (advance 300 (fadeOut 2 300 (Some 4%nat) page)).
Proof.
  intros page.
  apply (proj2 (fade_and_scale_out_hide 2%nat
                  (elem (Some 1%nat) [] [] [("display", "flex")]) 300
                  (Some 4%nat) page eq_refl
                  (λ x Hx, False_ind _ (proj1 (elem_of_nil x) Hx))
                  ltac:(unfold int32; lia)
                  _ (or_introl eq_refl))).
  vm_compute. discriminate.
Defined.

(** X8. The slides, on an element with no pending timer, for a duration
    in the signed 32-bit range.  [slideDown] shows the element
    ([display: block]) with its scroll height as inline height and hidden
    overflow, and once the duration has passed it has no inline height and
    no inline overflow left.  [slideUp] sets the inline height to zero
    (it reads ["0px"]) with hidden overflow, and once the duration has
    passed the element has [display: none] and again no inline height or
    overflow. *)
Theorem slides_restore_inline_style (el : nat) (nd : node) (duration : Z)
    (cb : option callback) (s : state) :
  nodes s !! el = Some nd →
  untimed el s →
  int32 duration →
  let due := clock s + Z.max 0 duration in
  let down := slideDown el duration cb s in
  let up := slideUp el duration cb s in
  (∀ T, T < due →
        ∃ r, nodes (advance T down) !! el = Some r
             ∧ style r !! "display" = Some "block"
             ∧ style r !! "height" = Some (px (scrollHeight nd))
             ∧ style r !! "overflow" = Some "hidden")
  ∧ (∀ T, due ≤ T →
          ∃ r, nodes (advance T down) !! el = Some r
               ∧ style r !! "display" = Some "block"
               ∧ style r !! "height" = None
               ∧ style r !! "overflow" = None)
  ∧ (∀ T, T < due →
          ∃ r, nodes (advance T up) !! el = Some r
               ∧ style r !! "display" = style nd !! "display"
               ∧ style r !! "height" = Some "0px"
               ∧ style r !! "overflow" = Some "hidden")
  ∧ (∀ T, due ≤ T →
          ∃ r, nodes (advance T up) !! el = Some r
               ∧ style r !! "display" = Some "none"
               ∧ style r !! "height" = None
               ∧ style r !! "overflow" = None).
Proof.
  intros E Hu Hd due down up.
  destruct (slideDown_rows el nd duration cb s E Hu Hd) as [Hdb Hda].
  destruct (slideUp_rows el nd duration cb s E Hu Hd) as [Hub Hua].
  split; [|split; [|split]].
  - intros T HT. eexists. split; [by apply Hdb|]. simpl. css_norm.
    split; [|split].
    + rewrite !lookup_insert_ne by done. apply lookup_insert_eq.
    + apply lookup_insert_eq.
    + rewrite !lookup_insert_ne by done. apply lookup_insert_eq.
  - intros T HT. destruct (Hda T HT) as [H1 _].
    eexists. split; [exact H1|]. simpl. split; [|split].
    + rewrite !lookup_delete_ne, !lookup_insert_ne by done.
      apply lookup_insert_eq.
    + rewrite lookup_delete_ne by done. apply lookup_delete_eq.
    + apply lookup_delete_eq.
  - intros T HT. eexists. split; [by apply Hub|]. simpl. css_norm.
    split; [|split].
    + by rewrite !lookup_insert_ne.
    + apply lookup_insert_eq.
    + rewrite !lookup_insert_ne by done. apply lookup_insert_eq.
  - intros T HT. destruct (Hua T HT) as [H1 _].
    eexists. split; [exact H1|]. simpl. split; [|split].
    + rewrite !lookup_delete_ne by done. apply lookup_insert_eq.
    + rewrite lookup_delete_ne by done. apply lookup_delete_eq.
    + apply lookup_delete_eq.
Qed.

Lemma slides_restore_inline_style_witness :
  let page := world [elem None [] [] []; elem (Some 0%nat) [] [] [];
                     elem (Some 1%nat) [] [] [("display", "none")]] in
  ∃ r, nodes (advance 300 (slideDown 2 300 None page)) !! 2%nat = Some r
       ∧ style r !! "display" = Some "block"
       ∧ style r !! "height" = None
       ∧ style r !! "overflow" = None.
Proof.
  intros page.
  apply (proj1 (proj2 (slides_restore_inline_style 2%nat
                         (elem (Some 1%nat) [] [] [("display", "none")]) 300
                         None page eq_refl
                         (λ x Hx, False_ind _ (proj1 (elem_of_nil x) Hx))
                         ltac:(unfold int32; lia)))).
  vm_compute. discriminate.
Defined.

(** X9. [fadeIn] and [scaleIn] show the element at once ([display: block],
    opacity ["1"]) and set no timer that works on it: when nothing else is
    pending on the element it stays as they left it for good.  They set
    exactly one timer, for the callback, when a callback is given, and
    none otherwise; for a duration in the signed 32-bit range it is due
    when the duration has passed. *)
Theorem fade_and_scale_in_show (el : nat) (nd : node) (duration : Z)
    (cb : option callback) (s : state) :
  nodes s !! el = Some nd →
  int32 duration →
  ∀ s', s' = fadeIn el duration cb s ∨ s' = scaleIn el duration cb s →
  timers s'
  = timers s ++ match cb with
                | Some c => [(clock s + Z.max 0 duration, Invoke c)]
                | None => []
                end
  ∧ (∃ r, nodes s' !! el = Some r
          ∧ style r !! "display" = Some "block"
          ∧ style r !! "opacity" = Some "1")
  ∧ (untimed el s → ∀ T, nodes (advance T s') !! el = nodes s' !! el).
Proof.
  intros E Hd s' Hs'.
  assert (Ht : timers s'
               = timers s ++ match cb with
                             | Some c => [(clock s + Z.max 0 duration,
                                           Invoke c)]
                             | None => []
                             end).
  { rewrite <- (timeout_ms_int32 _ Hd).
    destruct Hs' as [-> | ->]; unfold fadeIn, scaleIn;
      destruct cb; simpl; by rewrite ?app_nil_r. }
  split; [done|]. split.
  - destruct Hs' as [-> | ->]; unfold fadeIn, scaleIn, on_node;
      destruct cb; simpl; rewrite !list_lookup_alter_eq, E; simpl;
      (eexists; split; [done|]); simpl; (split;
        [rewrite ?lookup_insert_ne by done; apply lookup_insert_eq
        |apply lookup_insert_eq]).
  - intros Hu T. unfold advance. apply run_untimed.
    intros x Hx. rewrite Ht in Hx. apply elem_of_app in Hx as [Hx|Hx].
    + by apply Hu.
    + destruct cb; [|by apply elem_of_nil in Hx].
      by apply list_elem_of_singleton in Hx as ->.
Qed.

Lemma fade_and_scale_in_show_witness :
  let page := world [elem None [] [] []; elem (Some 0%nat) [] [] [];
                     elem (Some 1%nat) [] [] [("display", "none")]] in
  timers (fadeIn 2 300 None page) = []
  ∧ ∃ r, nodes (fadeIn 2 300 None page) !! 2%nat = Some r
         ∧ style r !! "display" = Some "block"
         ∧ style r !! "opacity" = Some "1".
Proof.
  intros page.
  destruct (fade_and_scale_in_show 2%nat
              (elem (Some 1%nat) [] [] [("display", "none")]) 300 None page
              eq_refl ltac:(unfold int32; lia) _ (or_introl eq_refl))
    as (H1 & H2 & _).
  split; [exact H1|exact H2].
Defined.

(** X10. For ["bounce"] and ["shake"], [animate] starts the Web Animation
    and calls the callback within the call itself: it sets no timer,
    touches no element, and its [duration] argument has no effect. *)
Theorem animate_bounce_shake (el : nat) (name : string) (duration : option Z)
    (cb : option callback) (s : state) :
  name = "bounce" ∨ name = "shake" →
  let s' := animate el name duration cb s in
  nodes s' = nodes s
  ∧ timers s' = timers s
  ∧ animations s' = animations s ++ [(el, name)]
  ∧ invoked s' = invoked s ++ match cb with Some c => [c] | None => [] end
  ∧ s' = animate el name None cb s.
Proof.
  intros [-> | ->] s'; subst s'; unfold animate; simpl;
    destruct cb; simpl; rewrite ?app_nil_r; done.
Qed.

Lemma animate_bounce_shake_witness :
  invoked (animate 1 "shake" (Some 5000) (Some 3%nat) (world empty_page))
  = [3%nat].
Proof.
  apply (animate_bounce_shake 1%nat "shake" (Some 5000) (Some 3%nat)
           (world empty_page)).
  by right.
Defined.

Section callback_timing.
Implicit Types (s : state) (tk : task).

(** The run of a queue that holds one timer. *)
Lemma advance_single_invoked T s due tk :
  timers s = [(due, tk)] → (∀ e, tk ≠ NotifyExpire e) →
  invoked (advance T s)
  = invoked s ++ (if due <=? T
                  then match task_callback tk with
                       | Some c => [c] | None => [] end
                  else []).
Proof.
  intros Hq Hn. unfold advance. rewrite Hq.
  assert (Hw : budget [(due, tk)] = 1%nat).
  { unfold budget. simpl. destruct tk; simpl; try done; by destruct (Hn el). }
  rewrite Hw. cbn [run]. rewrite Hq. cbn [pick].
  destruct (due <=? T); [|simpl; by rewrite app_nil_r].
  set (s1 := set_clock _ _).
  assert (Ht : timers (fire tk s1) = []).
  { rewrite fire_timers. subst s1. simpl.
    destruct tk; simpl; try done; by destruct (Hn el). }
  rewrite Ht. cbn [pick]. simpl. by rewrite fire_invoked.
Qed.

End callback_timing.

(** X11. The completion callback of the six timed animations, called
    through [animate] on a world with no other pending timer, for a
    duration in the signed 32-bit range: it has not run before the
    duration (300 ms when omitted, zero when negative) has passed, and
    from then on it has run exactly once. *)
Theorem animate_callback_once (el : nat) (name : string)
    (duration : option Z) (c : callback) (s : state) (T : Z) :
  timers s = [] →
  name ∈ ["fadeIn"; "fadeOut"; "slideDown"; "slideUp"; "scaleIn"; "scaleOut"] →
  int32 (default defaultDuration duration) →
  let due := clock s + Z.max 0 (default defaultDuration duration) in
  invoked (advance T (animate el name duration (Some c) s))
  = invoked s ++ (if due <=? T then [c] else []).
Proof.
  intros Hq Hname Hd due. subst due. rewrite <- (timeout_ms_int32 _ Hd).
  set (due := clock s + timeout_ms (default defaultDuration duration)).
  assert (Hcases : ∃ tk, timers (animate el name duration (Some c) s)
                         = [(due, tk)]
                         ∧ (∀ e, tk ≠ NotifyExpire e)
                         ∧ task_callback tk = Some c
                         ∧ invoked (animate el name duration (Some c) s)
                           = invoked s).
  { repeat (apply elem_of_cons in Hname as [-> | Hname]);
      [..|by apply elem_of_nil in Hname];
      unfold animate; simpl;
      unfold fadeIn, fadeOut, slideDown, slideUp, scaleIn, scaleOut,
        setTimeout; simpl; rewrite Hq; simpl;
      eexists; (split; [reflexivity|]); done. }
  destruct Hcases as (tk & Hq' & Hn & Hcb & Hinv).
  rewrite (advance_single_invoked T _ due tk Hq' Hn), Hcb, Hinv. done.
Qed.

Lemma animate_callback_once_witness :
  invoked (advance 299 (animate 1 "slideUp" None (Some 3%nat)
                          (world empty_page))) = []
  ∧ invoked (advance 300 (animate 1 "slideUp" None (Some 3%nat)
                            (world empty_page))) = [3%nat].
Proof.
  split.
  - apply (animate_callback_once 1%nat "slideUp" None 3%nat
             (world empty_page) 299 eq_refl).
    + repeat constructor.
    + split; [discriminate|reflexivity].
  - apply (animate_callback_once 1%nat "slideUp" None 3%nat
             (world empty_page) 300 eq_refl).
    + repeat constructor.
    + split; [discriminate|reflexivity].
Defined.

(* ===================================================================== *)
(** ** The theme at construction and afterwards *)
(* ===================================================================== *)

(** X15. How the constructor resolves the initial theme.  With dark mode
    enabled, a non-empty stored value wins over the system preference and
    is applied as it is; without one, auto-detection applies and persists
    ["dark"] or ["light"] according to the system preference.  With dark
    mode disabled, or with neither a stored value nor auto-detection, the
    theme is ["light"] and document, storage and events are left
    untouched. *)
Theorem constructor_resolves_theme (o : options) (prefersDark : bool)
    (s0 : state) :
  let s := new_UnifiedTheme o prefersDark s0 in
  (enableDarkMode o = true →
   ∀ v, getItem (storageKey o) s0 = Some v → v ≠ "" →
        getTheme s = v
        ∧ getItem (storageKey o) s = Some v
        ∧ dispatched s = dispatched s0 ++ [theme_event v])
  ∧ (enableDarkMode o = true → autoDetectPreference o = true →
     truthy (getItem (storageKey o) s0) = false →
     let t := if prefersDark then "dark" else "light" in
     getTheme s = t
     ∧ getItem (storageKey o) s = Some t
     ∧ dispatched s = dispatched s0 ++ [theme_event t])
  ∧ (enableDarkMode o = false
     ∨ (autoDetectPreference o = false
        ∧ truthy (getItem (storageKey o) s0) = false) →
     getTheme s = "light"
     ∧ nodes s = nodes s0
     ∧ localStorage s = localStorage s0
     ∧ dispatched s = dispatched s0).
Proof.
  intros s. subst s. unfold new_UnifiedTheme, init, initDarkMode.
  change (getItem (storageKey o)
            (setupThemeToggle (set_currentTheme "light" s0)))
    with (getItem (storageKey o) s0).
  split; [|split].
  - intros -> v Hv Hne. rewrite Hv. simpl.
    rewrite bool_decide_eq_false_2 by done. simpl.
    split; [done|]. split; [apply setTheme_storage|done].
  - intros -> -> Ht. rewrite Ht. cbv zeta.
    split; [done|]. split; [apply setTheme_storage|done].
  - intros [-> | [-> Ht]]; [done|].
    rewrite Ht. by destruct (enableDarkMode o).
Qed.

Lemma constructor_resolves_theme_witness :
  let s0 := setItem "unified-theme-mode" "dark" (world empty_page) in
  getTheme (new_UnifiedTheme default_options false s0) = "dark"
  ∧ getItem "unified-theme-mode" (new_UnifiedTheme default_options false s0)
    = Some "dark"
  ∧ dispatched (new_UnifiedTheme default_options false s0)
    = dispatched s0 ++ [theme_event "dark"].
Proof.
  intros s0.
  apply (proj1 (constructor_resolves_theme default_options false s0)
           eq_refl "dark"); [reflexivity|discriminate].
Defined.

Section theme_after.
Context (o : options).
Implicit Types (s : state).

Lemma truthy_setTheme theme s :
  theme ≠ "" → truthy (getItem (storageKey o) (setTheme o theme s)) = true.
Proof.
  intros H. rewrite setTheme_storage. simpl.
  by rewrite bool_decide_eq_false_2.
Qed.

Lemma truthy_view s s' :
  theme_view s' = theme_view s →
  truthy (getItem (storageKey o) s') = truthy (getItem (storageKey o) s).
Proof. unfold theme_view, getItem. by intros [= _ _ ->]. Qed.

Lemma theme_view_toggles {A} (l : list A) s :
  truthy (getItem (storageKey o) s) = true →
  truthy (getItem (storageKey o) (foldl (λ acc _, toggleTheme o acc) s l))
  = true.
Proof.
  revert s. induction l as [|x l IH]; intros s H; [done|]. simpl.
  apply IH. unfold toggleTheme. apply truthy_setTheme.
  by case_bool_decide.
Qed.

Lemma theme_view_click_handlers target s :
  theme_view (on_click_tab target
                (on_click_dropdown target
                   (on_click_collapse target (on_click_alert target s))))
  = theme_view s.
Proof.
  by rewrite theme_view_on_click_tab, theme_view_on_click_dropdown,
    theme_view_on_click_collapse, theme_view_on_click_alert.
Qed.

Lemma stored_step s a :
  op_nonempty a →
  truthy (getItem (storageKey o) s) = true →
  truthy (getItem (storageKey o) (step o s a)) = true.
Proof.
  destruct a as [theme| |target|m|t]; simpl; intros Ha H.
  - by apply truthy_setTheme.
  - unfold toggleTheme. apply truthy_setTheme. by case_bool_decide.
  - unfold click, on_click_theme_toggle.
    pose proof (theme_view_toggles
      (List.filter (λ a, bool_decide (a ∈ toggleButtons s))
                   (ancestors (nodes s) target)) s H) as H'.
    destruct (connected _ _); [|done].
    by rewrite (truthy_view _ _ (theme_view_click_handlers target _)).
  - unfold on_scheme_change.
    destruct (enableDarkMode o && autoDetectPreference o); [|done].
    by rewrite H.
  - unfold advance. by rewrite (truthy_view _ _ (theme_view_run _ t s)).
Qed.

Lemma stored_session s ops :
  Forall op_nonempty ops →
  truthy (getItem (storageKey o) s) = true →
  truthy (getItem (storageKey o) (foldl (step o) s ops)) = true.
Proof.
  intros Hops. revert s.
  induction Hops as [|a ops Ha _ IH]; intros s H; [done|].
  simpl. apply IH. by apply stored_step.
Qed.

Lemma stored_constructor prefersDark s0 :
  enableDarkMode o = true → autoDetectPreference o = true →
  truthy (getItem (storageKey o) (new_UnifiedTheme o prefersDark s0)) = true.
Proof.
  intros He Ha. unfold new_UnifiedTheme, init, initDarkMode.
  rewrite He, Ha.
  change (getItem (storageKey o)
            (setupThemeToggle (set_currentTheme "light" s0)))
    with (getItem (storageKey o) s0).
  destruct (truthy (getItem (storageKey o) s0)) eqn:Ht.
  - apply truthy_setTheme.
    destruct (getItem (storageKey o) s0) as [v|]; [|done]. simpl in *.
    intros ->. done.
  - apply truthy_setTheme. by destruct prefersDark.
Qed.

End theme_after.

(** X16. Once an instance is constructed, a change of the system colour
    scheme never changes anything: whenever the listener exists, the
    constructor has already stored a theme, and no operation of the
    instance empties the store again (as long as [setTheme] is not called
    with the empty string). *)
Theorem scheme_change_inert (o : options) (prefersDark : bool) (s0 : state)
    (ops : list op) (e_matches : bool) :
  Forall op_nonempty ops →
  on_scheme_change o e_matches (session o prefersDark s0 ops)
  = session o prefersDark s0 ops.
Proof.
  intros Hops. unfold on_scheme_change.
  destruct (enableDarkMode o) eqn:He; [|done].
  destruct (autoDetectPreference o) eqn:Ha; [|done]. simpl.
  unfold session.
  by rewrite (stored_session o _ ops Hops
                (stored_constructor o prefersDark s0 He Ha)).
Qed.

Lemma scheme_change_inert_witness :
  let ops := [OpToggleTheme; OpClick 3%nat; OpElapse 400; OpSetTheme "sepia"] in
  on_scheme_change default_options true
    (session default_options false (world empty_page) ops)
  = session default_options false (world empty_page) ops.
Proof.
  intros ops. apply (scheme_change_inert default_options false
                       (world empty_page) ops true).
  repeat constructor; simpl; discriminate.
Defined.

(* ===================================================================== *)
(** ** The copies of the theme agree *)
(* ===================================================================== *)

Section copies.
Implicit Types (s : state) (f : node → node).











End copies.



Section copies_frames.
Implicit Types (s : state).









End copies_frames.

Section copies_agree.
Context (o : options).
Implicit Types (s : state).







End copies_agree.



(* ===================================================================== *)
(** ** Closing dropdowns *)
(* ===================================================================== *)

Section dropdown_closing.
Implicit Types (s : state).

Lemma toggleDropdown_open_case A s :
  connected (nodes s) A = true →
  node_matches sel_open_dropdown (nodes s) A = true →
  open_dropdowns (toggleDropdown A s) = []
  ∧ getAttribute "aria-expanded" (nodes (toggleDropdown A s)) A = Some "false".
Proof.
  intros Hc Hm.
  assert (A ∈ open_dropdowns s) as Hin by by apply elem_of_querySelectorAll.
  unfold node_matches in Hm. destruct (nodes s !! A) as [nd|] eqn:End; [|done].
  rewrite matches_open_dropdown in Hm. apply andb_true_iff in Hm as [_ Ho].
  unfold toggleDropdown. rewrite End. cbn [from_option]. rewrite Ho.
  split; [apply closeAllDropdowns_none|].
  unfold getAttribute. rewrite closeAllDropdowns_lookup, End.
  rewrite bool_decide_eq_true_2 by done. simpl. apply lookup_insert_eq.
Qed.

Lemma toggleDropdown_closed_case A s :
  connected (nodes s) A = true →
  node_matches sel_dropdown (nodes s) A = true →
  node_matches sel_open_dropdown (nodes s) A = false →
  getAttribute "aria-expanded" (nodes (toggleDropdown A s)) A = Some "true".
Proof.
  intros Hc Hm Hclosed. unfold node_matches in Hm, Hclosed.
  destruct (nodes s !! A) as [nd|] eqn:End; [|done].
  rewrite matches_dropdown in Hm. rewrite matches_open_dropdown, Hm in Hclosed.
  simpl in Hclosed.
  unfold getAttribute, toggleDropdown. rewrite End. cbn [from_option].
  rewrite Hclosed. unfold on_node. cbn [nodes upd_nodes].
  rewrite !list_lookup_alter_eq, closeAllDropdowns_lookup, End.
  destruct (bool_decide _); simpl; apply lookup_insert_eq.
Qed.



End dropdown_closing.

(** X18. Toggling a dropdown of the document that is open closes it: no
    dropdown is open afterwards and its [aria-expanded] reads ["false"].
    Toggling a closed one sets [aria-expanded] to ["true"], and toggling it
    a second time returns to no open dropdown and [aria-expanded]
    ["false"]. *)
Theorem toggleDropdown_closes (A : nat) (s : state) :
  connected (nodes s) A = true →
  node_matches sel_dropdown (nodes s) A = true →
  (node_matches sel_open_dropdown (nodes s) A = true →
   open_dropdowns (toggleDropdown A s) = []
   ∧ getAttribute "aria-expanded" (nodes (toggleDropdown A s)) A
     = Some "false")
  ∧ (node_matches sel_open_dropdown (nodes s) A = false →
     let s1 := toggleDropdown A s in
     let s2 := toggleDropdown A s1 in
     getAttribute "aria-expanded" (nodes s1) A = Some "true"
     ∧ open_dropdowns s2 = []
     ∧ getAttribute "aria-expanded" (nodes s2) A = Some "false").
Proof.
  intros Hc Hm. split.
  - intros Ho. by apply toggleDropdown_open_case.
  - intros Ho. cbv zeta. split; [by apply toggleDropdown_closed_case|].
    assert (A ∈ open_dropdowns (toggleDropdown A s)) as Hin.
    { rewrite toggleDropdown_opens by done. apply list_elem_of_here. }
    apply elem_of_querySelectorAll in Hin as [Hc1 Hm1].
    by apply toggleDropdown_open_case.
Qed.

Lemma toggleDropdown_closes_witness :
  let page := world [elem None [] [] []; elem (Some 0%nat) [] [] [];
                     elem (Some 1%nat) [("data-dropdown", "")] [] []] in
  let s1 := toggleDropdown 2 page in
  let s2 := toggleDropdown 2 s1 in
  getAttribute "aria-expanded" (nodes s1) 2 = Some "true"
  ∧ open_dropdowns s2 = []
  ∧ getAttribute "aria-expanded" (nodes s2) 2 = Some "false".
Proof.
  intros page.
  apply (proj2 (toggleDropdown_closes 2 page eq_refl eq_refl)). reflexivity.
Defined.



(* ===================================================================== *)
(** ** What a notification is made of *)
(* ===================================================================== *)

Section notification_rows.
Implicit Types (d D : dom) (s : state).

Lemma closest_self sel D i nd :
  D !! i = Some nd → matches sel nd = true → closest sel D i = Some i.
Proof.
  intros E Hm. unfold closest, ancestors.
  pose proof (lookup_lt_Some _ _ _ E) as Hlt.
  destruct (length D) as [|k]; [lia|]. simpl. rewrite E. simpl.
  unfold node_matches. by rewrite E, Hm.
Qed.

Lemma closest_parent sel D i nd p pd :
  D !! i = Some nd → matches sel nd = false →
  parentNode nd = Some p → i ≠ p →
  D !! p = Some pd → matches sel pd = true →
  closest sel D i = Some p.
Proof.
  intros E Hm Hp Hne Ep Hmp. unfold closest, ancestors.
  pose proof (lookup_lt_Some _ _ _ E) as Hlt.
  pose proof (lookup_lt_Some _ _ _ Ep) as Hltp.
  destruct (length D) as [|[|k]]; [lia|lia|]. simpl. rewrite E, Hp, Ep. simpl.
  unfold node_matches. by rewrite E, Hm, Ep, Hmp.
Qed.

Lemma matches_by_class c nd : matches (by_class c) nd = contains c nd.
Proof. unfold matches. simpl. by rewrite andb_true_r. Qed.

Lemma elem_of_token_add x c l : x ∈ token_add c l ↔ x ∈ l ∨ x = c.
Proof.
  unfold token_add. case_bool_decide as Hc.
  - split; [by left|]. by intros [?| ->].
  - rewrite elem_of_app, list_elem_of_singleton. done.
Qed.

Lemma elem_of_ordered_set x l : x ∈ ordered_set l ↔ x ∈ l.
Proof.
  unfold ordered_set.
  assert (H : ∀ acc, x ∈ foldl (λ acc c, token_add c acc) acc l
                     ↔ x ∈ acc ∨ x ∈ l).
  { induction l as [|c l IH]; intros acc; simpl.
    - split; [by left|]. intros [?|H]; [done|by apply elem_of_nil in H].
    - rewrite IH, elem_of_token_add, elem_of_cons. tauto. }
  rewrite H. split; [|by right]. intros [H'|?]; [|done].
  by apply elem_of_nil in H'.
Qed.

Lemma alert_class config c :
  contains "alert" (set_parent c (notification_el config)) = true.
Proof.
  unfold contains, notification_el, class_add, set_className.
  cbn [classList set_parent set_classes blank].
  apply bool_decide_eq_true, elem_of_token_add. left.
  apply elem_of_ordered_set. unfold tokens. cbn. apply list_elem_of_here.
Qed.

Lemma position_class config c :
  contains ("notification-" +:+ cfg_position config)
    (set_parent c (notification_el config)) = true.
Proof.
  unfold contains, notification_el, class_add.
  cbn [classList set_parent set_classes blank].
  apply bool_decide_eq_true, elem_of_token_add. by right.
Qed.

End notification_rows.

(** X20. What [notify] puts on a page, for a position that makes a class
    token.  The notification is a new element whose class list is that of
    [alert alert-<type> notification] as an ordered set, with the class
    [notification-<position>] added; it is attached to the element that
    carries the id [notifications-<position>].  Its first child is a new
    element whose text is the message.  When the notification is
    dismissible, a close button follows ([alert-close], label Close, a
    multiplication sign), and the alert listener, on a click on it,
    dismisses the notification, which is detached 300 ms later.  When it
    is not, no further element is made for it: the only new elements are
    the notification, its message and, at most, the container. *)
Theorem notify_structure (message : string) (opts : notify_options)
    (s : state) :
  page_ok (nodes s) →
  let config := notify_merge opts in
  valid_token ("notification-" +:+ cfg_position config) = true →
  ∃ n s' c,
    notify message opts s = Some (n, s')
    ∧ n = length (nodes s)
    ∧ getElementById (container_id (cfg_position config)) (nodes s') = Some c
    ∧ (∃ nd, nodes s' !! n = Some nd
             ∧ parentNode nd = Some c
             ∧ classList nd
               = token_add ("notification-" +:+ cfg_position config)
                   (ordered_set
                      (tokens ("alert alert-" +:+ cfg_type config
                               +:+ " notification")))
             ∧ contains "alert" nd = true
             ∧ contains ("notification-" +:+ cfg_position config) nd = true
             ∧ style nd = ∅)
    ∧ (∃ sp, nodes s' !! S n = Some sp
             ∧ parentNode sp = Some n
             ∧ textContent sp = message)
    ∧ (cfg_dismissible config = true →
       (∃ b, nodes s' !! S (S n) = Some b
             ∧ parentNode b = Some n
             ∧ classList b = ["alert-close"]
             ∧ attrs b !! "aria-label" = Some "Close"
             ∧ textContent b = times_sign)
       ∧ on_click_alert (S (S n)) s' = dismissAlert n s'
       ∧ ∀ T, clock s' + 300 ≤ T →
              parent_of n (advance T (on_click_alert (S (S n)) s')) = None)
    ∧ (cfg_dismissible config = false →
       ∀ i, (n ≤ i)%nat → is_Some (nodes s' !! i) →
            i = n ∨ i = S n ∨ i = c).
Proof.
  intros Hok config Hv.
  assert (Hcl : closed (nodes s)) by apply forest_closed, Hok.
  assert (Hb : (body < length (nodes s))%nat).
  { destruct Hok as [_ (_ & nd & E & _)%document_body_Some].
    by apply lookup_lt_Some in E. }
  destruct (notify_build_spec (length (nodes s)) (fresh_rows (nodes s))
              message config s (fresh_rows_stable _))
    as (Hn & Hfresh & Hlt & Hpre & Ht & Hc).
  { split; [done|]. intros i nd Hi E. apply lookup_lt_Some in E. lia. }
  pose proof (notify_build_rows message config s) as Hrows.
  set (r := notify_build message config s) in *.
  destruct (getNotificationContainer_spec (nodes s) (cfg_position config)
              r.2 Hok Hfresh)
    as (c & sc & Hg & Hh & Hpre' & Hcase & Ht' & Hc').
  set (n := length (nodes s)) in *.
  assert (Hne : c ≠ n).
  { pose proof (prefix_length _ _ Hpre). fold n in H.
    destruct Hcase as [Hc0|Hc0]; lia. }
  destruct (notify_given (nodes s) message opts s c sc)
    as (s' & G1 & G2 & G3 & G4 & G5 & G6 & G7 & H3 & En); try done.
  fold n in G1, G3, H3, En.
  assert (Hrow : ∀ i nd, built n message config !! i = Some nd →
                         nodes sc !! (n + i)%nat = Some nd).
  { intros i nd E. apply (prefix_lookup_Some (nodes r.2)); [|done].
    rewrite Hrows. subst n. by rewrite built_lookup. }
  assert (Eo : ∀ i nd, built n message config !! S i = Some nd →
                       nodes s' !! S (n + i) = Some nd).
  { intros i nd E. rewrite H3.
    rewrite list_lookup_alter_ne by lia.
    replace (S (n + i)) with (n + S i)%nat by lia. by apply Hrow. }
  exists n, s', c.
  split; [done|]. split; [done|]. split.
  { by apply (holds_container_lookup (nodes s));
      [apply container_id_nonempty|..]. }
  split.
  { eexists. split; [exact En|]. split; [done|]. split; [done|].
    split; [apply alert_class|]. split; [apply position_class|done]. }
  split; [|split].
  - pose proof (Eo 0%nat (message_el n message) eq_refl) as E.
    rewrite Nat.add_0_r in E. by eexists.
  - intros Hd.
    assert (Eb : nodes s' !! S (S n) = Some (close_el n)).
    { pose proof (Eo 1%nat (close_el n)) as E. unfold built in E.
      fold config in E. rewrite Hd in E. specialize (E eq_refl).
      by replace (S (n + 1)) with (S (S n)) in E by lia. }
    assert (Eq : on_click_alert (S (S n)) s' = dismissAlert n s').
    { unfold on_click_alert.
      rewrite (closest_self sel_alert_close _ _ _ Eb eq_refl).
      rewrite (closest_parent sel_alert _ (S (S n)) _ n _ Eb eq_refl eq_refl
                 ltac:(lia) En);
        [done|unfold sel_alert; rewrite matches_by_class; apply alert_class]. }
    split; [by eexists|]. split; [done|].
    intros T HT. rewrite Eq. by apply dismissAlert_detached.
  - intros Hd i Hi [nd E].
    pose proof (lookup_lt_Some _ _ _ E) as Hlen.
    rewrite H3, length_alter in Hlen.
    destruct (getNotificationContainer_length _ _ _ _ Hg) as [Hle Heq].
    rewrite Hrows, length_app, built_length in Hle, Heq.
    fold config in Hle, Heq. rewrite Hd in Hle, Heq.
    fold n in Hle, Heq. lia.
Qed.

Lemma notify_structure_witness :
  ∃ n s' c,
    notify "Saved" no_options (world empty_page) = Some (n, s')
    ∧ getElementById "notifications-top-right" (nodes s') = Some c
    ∧ is_Some (nodes s' !! S (S n))
    ∧ parent_of n s' = Some c
    ∧ parent_of n (advance 300 (on_click_alert (S (S n)) s')) = None.
Proof.
  destruct (notify_structure "Saved" no_options (world empty_page))
    as (n & s' & c & Hn & Hlen & Hid & (nd & En & Hp & _) & _ & Hd & _).
  { split; reflexivity. }
  { reflexivity. }
  destruct (Hd eq_refl) as ((b & Eb & _) & Eq & Hgone).
  exists n, s', c. split; [exact Hn|]. split; [exact Hid|].
  split; [rewrite Eb; eexists; reflexivity|]. split.
  - unfold parent_of. rewrite En. exact Hp.
  - apply Hgone.
    assert (clock s' = 0) as ->; [|lia].
    injection Hn as _ <-. reflexivity.
Defined.

(* ===================================================================== *)
(** ** Theme toggle buttons *)
(* ===================================================================== *)

Section toggle_buttons.
Context (o : options).
Implicit Types (s : state).

Lemma getTheme_toggles {A} (l : list A) s :
  getTheme (foldl (λ acc _, toggleTheme o acc) s l)
  = toggled (length l) (getTheme s).
Proof.
  induction l as [|x l IH] using rev_ind; [done|].
  rewrite foldl_app, length_app, Nat.add_1_r. cbn [foldl].
  unfold toggleTheme at 1. rewrite setTheme_getTheme.
  change (currentTheme ?x) with (getTheme x). rewrite IH.
  destruct (length l) as [|k].
  - simpl. by destruct (bool_decide (getTheme s = "light")).
  - cbn [toggled].
    rewrite (Nat.odd_succ (S k)), Nat.even_succ, (Nat.odd_succ k).
    rewrite <- Nat.negb_odd.
    by destruct (Nat.odd k), (bool_decide (getTheme s = "light")).
Qed.

Lemma toggleButtons_toggles {A} (l : list A) s :
  toggleButtons (foldl (λ acc _, toggleTheme o acc) s l) = toggleButtons s.
Proof. revert s. induction l as [|x l IH]; intros s; [done|]. simpl. by rewrite IH. Qed.

Lemma toggleButtons_dismissAlert a s :
  toggleButtons (dismissAlert a s) = toggleButtons s.
Proof. done. Qed.

Lemma toggleButtons_fire tk s : toggleButtons (fire tk s) = toggleButtons s.
Proof.
  destruct tk as [| | | | el |c| el c | el c | el c | el c]; try done;
    try (by destruct c).
  simpl. by destruct (_ ≫= _).
Qed.

Lemma toggleButtons_run fuel t s :
  toggleButtons (run fuel t s) = toggleButtons s.
Proof.
  revert s. induction fuel as [|fuel IH]; intros s; [done|]. simpl.
  destruct (pick (timers s)) as [[[due tk] rest]|]; [|done].
  destruct (due <=? t); [|done]. by rewrite IH, toggleButtons_fire.
Qed.

Lemma toggleButtons_click_handlers target s :
  toggleButtons (on_click_tab target
                   (on_click_dropdown target
                      (on_click_collapse target (on_click_alert target s))))
  = toggleButtons s.
Proof.
  assert (H1 : toggleButtons (on_click_alert target s) = toggleButtons s).
  { unfold on_click_alert. by repeat destruct (closest _ _ _). }
  assert (H2 : ∀ s, toggleButtons (on_click_collapse target s)
                    = toggleButtons s).
  { intros s1. unfold on_click_collapse. destruct (closest _ _ _); [|done].
    cbv zeta. destruct (getElementById _ _); [|done].
    unfold toggleCollapse. cbv zeta.
    by match goal with |- context [if ?b then _ else _] => destruct b end. }
  assert (H3 : ∀ s, toggleButtons (on_click_dropdown target s)
                    = toggleButtons s).
  { intros s1. unfold on_click_dropdown, toggleDropdown.
    destruct (closest _ _ _); [|done]. cbv zeta.
    by destruct (from_option _ _ _). }
  assert (H4 : ∀ s, toggleButtons (on_click_tab target s) = toggleButtons s).
  { intros s1. unfold on_click_tab. destruct (closest _ _ _); [|done].
    unfold switchTab. destruct (closest _ _ _); [|done]. cbv zeta.
    by match goal with |- context [getElementById ?i ?d] =>
         destruct (getElementById i d) end. }
  by rewrite H4, H3, H2, H1.
Qed.

Lemma toggleButtons_step s a : toggleButtons (step o s a) = toggleButtons s.
Proof.
  destruct a as [theme| |target|m|t]; simpl; try done.
  - unfold click, on_click_theme_toggle.
    destruct (connected _ _).
    + by rewrite toggleButtons_click_handlers, toggleButtons_toggles.
    + by rewrite toggleButtons_toggles.
  - unfold on_scheme_change.
    destruct (_ && _); [|done]. by destruct (truthy _).
  - apply toggleButtons_run.
Qed.

Lemma toggleButtons_new prefersDark s0 :
  toggleButtons (new_UnifiedTheme o prefersDark s0)
  = querySelectorAll sel_theme_toggle (nodes s0).
Proof.
  unfold new_UnifiedTheme, init, initDarkMode. cbv zeta.
  destruct (enableDarkMode o); [|done].
  destruct (truthy _); [done|]. by destruct (autoDetectPreference o).
Qed.

End toggle_buttons.

(** X21. The theme toggle buttons of an instance are the elements of the
    document that carried [data-theme-toggle] when it was constructed;
    nothing it does later changes that set.  A click toggles the theme
    once for each such button on its path: with none the theme is
    unchanged, whatever attributes the target now carries; otherwise the
    result is ["light"] or ["dark"] by the parity of their number and by
    whether the theme was ["light"]. *)
Theorem click_toggles_theme (o : options) (prefersDark : bool) (s0 : state)
    (ops : list op) (target : nat) :
  let s := session o prefersDark s0 ops in
  toggleButtons s = querySelectorAll sel_theme_toggle (nodes s0)
  ∧ getTheme (click o target s)
    = toggled (length (toggle_path target s)) (getTheme s)
  ∧ (toggle_path target s = [] →
     theme_view (click o target s) = theme_view s)
  ∧ (∀ b, toggle_path target s = [b] →
          getTheme (click o target s)
          = if bool_decide (getTheme s = "light") then "dark" else "light").
Proof.
  intros s.
  assert (Ht : getTheme (click o target s)
               = toggled (length (toggle_path target s)) (getTheme s)).
  { rewrite <- (getTheme_toggles o).
    unfold click. cbv zeta. unfold on_click_theme_toggle.
    fold (toggle_path target s).
    set (s1 := foldl _ s (toggle_path target s)).
    destruct (connected _ _); [|done].
    pose proof (theme_view_click_handlers target s1) as E.
    unfold theme_view in E. injection E as E1 _ _. exact E1. }
  split; [|split; [exact Ht|split]].
  - clear Ht. subst s. unfold session.
    induction ops as [|a ops IH] using rev_ind.
    + apply (toggleButtons_new o).
    + rewrite foldl_app. cbn [foldl]. by rewrite toggleButtons_step.
  - intros E. unfold click, on_click_theme_toggle.
    fold (toggle_path target s). rewrite E. simpl.
    destruct (connected _ _); [|done]. apply theme_view_click_handlers.
  - intros b E. rewrite Ht, E. simpl.
    by destruct (bool_decide (getTheme s = "light")).
Qed.

Lemma click_toggles_theme_witness :
  let page := world [elem None [] [] []; elem (Some 0%nat) [] [] [];
                     elem (Some 1%nat) [("data-theme-toggle", "")] [] [];
                     elem (Some 2%nat) [] [] []] in
  let s := session default_options false page [OpElapse 10] in
  getTheme (click default_options 3 s) = "dark".
Proof.
  intros page s.
  apply (proj2 (proj2 (proj2 (click_toggles_theme default_options false page
                                [OpElapse 10] 3%nat))) 2%nat).
  reflexivity.
Defined.
